(** * Plex / OpenSubtitles downloader: a shallow embedding and its properties

    The development follows [plex_opensub_downloader.py] (the API path) and,
    for the one function the two files share, [downloader.py] (the browser
    path).  Python objects become records, [set]s of language codes become
    [gset string], and the methods that talk to the network, the clock or the
    file system become functions in a small state-and-exception monad whose
    state holds the objects together with a deterministic environment. *)

From Stdlib Require Import ZArith QArith Qreduction String Ascii List Lia Lqa Bool.
From Stdlib Require Import Sorting.Sorted Sorting.Permutation.
From stdpp Require Import base gmap sets list strings pretty.

Open Scope string_scope.

(** ** Python strings

    Language codes are ASCII; [lower] is [str.lower] on ASCII letters and
    leaves every other byte unchanged. *)

Definition lower_ascii (c : ascii) : ascii :=
  let n := nat_of_ascii c in
  if (65 <=? n)%nat && (n <=? 90)%nat then ascii_of_nat (n + 32) else c.

Fixpoint lower (s : string) : string :=
  match s with
  | EmptyString => EmptyString
  | String c r => String (lower_ascii c) (lower r)
  end.

(** Truthiness of an optional string: [None] and [""] are false. *)
Definition truthy_str (o : option string) : bool :=
  match o with
  | Some s => negb (String.eqb s "")
  | None => false
  end.

(** [str.startswith]. *)
Definition startswith (s pre : string) : bool := String.prefix pre s.

(** [s.replace(old, '')] for a non-empty [old]: scanning from the left, every
    occurrence of [old] that does not overlap an earlier one is dropped.
    [skip] counts the characters of the current occurrence still to drop. *)
Fixpoint remove_from (old : string) (skip : nat) (s : string) : string :=
  match s with
  | EmptyString => EmptyString
  | String c r =>
      match skip with
      | S k => remove_from old k r
      | O => if String.prefix old s
             then remove_from old (String.length old - 1) r
             else String c (remove_from old 0 r)
      end
  end.
Definition remove_all (old s : string) : string := remove_from old 0 s.

(** [sep.join(l)]. *)
Definition join (sep : string) (l : list string) : string :=
  String.concat sep l.

(** The format specification [:02d]. *)
Definition fmt_02d (n : Z) : string :=
  if (0 <=? n)%Z && (n <? 10)%Z then "0" ++ pretty n else pretty n.

Definition bytes := list Byte.byte.

(** ** Media items as the Plex library hands them over *)

Record SubtitleStream := mkStream { languageCode : option string }.

(** pathlib's [Path], split where [with_suffix] splits it. *)
Record Path := mkPath { path_base : string; path_suffix : string }.

Definition path_str (p : Path) : string := path_base p ++ path_suffix p.
Definition with_suffix (p : Path) (sfx : string) : Path :=
  mkPath (path_base p) sfx.

Record Item := mkItem {
  title : string;
  is_episode : bool;              (* isinstance(item, Episode) *)
  grandparentTitle : string;
  seasonNumber : Z;
  index : Z;
  guids : list string;
  media_file : option Path;       (* item.media[0].parts[0].file *)
  subtitleStreams : list SubtitleStream
}.

(** The dictionary literal of both [get_existing_subtitle_languages]. *)
Definition conversions : gmap string string :=
  list_to_map [("eng", "en"); ("spa", "es"); ("fra", "fr");
               ("deu", "de"); ("ita", "it"); ("por", "pt")].

(** The body of the [if stream.languageCode:] branch, shared by both files:
    lower-case, then for codes of length three look the code up and fall back
    to its first two characters. *)
Definition normalize (code : string) : string :=
  let lang_code := lower code in
  if (String.length lang_code =? 3)%nat
  then default (substring 0 2 lang_code) (conversions !! lang_code)
  else lang_code.

(** The raw, labelled language tags of an item (the streams whose
    [languageCode] is truthy). *)
Definition labelled_codes (item : Item) : list string :=
  omap (fun st => if truthy_str (languageCode st) then languageCode st else None)
       (subtitleStreams item).

(** What [library.all()] can return: videos (movies, episodes), shows, and
    objects of other kinds (artists, photos). *)
Inductive PlexObj :=
| Video (item : Item)
| Show (episodes : list Item)
| OtherObj.

Record Library := mkLibrary {
  lib_title : string;
  lib_type : string;
  lib_all : list PlexObj
}.

(** ** The subtitle provider's wire protocol *)

(** One element of the search result's [data] array, reduced to the
    [attributes] the program reads; a key that is absent is [None] (a result
    without [attributes] has all of them absent).  [files] is the list of the
    [file_id]s of the entries of [attributes.files]. *)
Record Subtitle := mkSubtitle {
  language : option string;
  ratings : option Q;
  download_count : option Z;
  release : option string;
  uploader_name : option string;
  files : option (list (option Z))
}.

(** The parameters of a search request, after the falsy ones are left out. *)
Record SearchParams := mkParams {
  p_languages : string;
  p_query : option string;
  p_imdb_id : option string;
  p_tmdb_id : option string;
  p_moviebytesize : option Z;
  p_season_number : option Z;
  p_episode_number : option Z
}.

Inductive Request :=
| PostLogin (username password : option string)
| GetSubtitles (params : SearchParams)
| PostDownload (bearer : option string) (file_id : Z)
| GetLink (url : string).

#[global] Instance SearchParams_eq_dec : EqDecision SearchParams.
Proof. solve_decision. Defined.
#[global] Instance Request_eq_dec : EqDecision Request.
Proof. solve_decision. Defined.
#[global] Instance Q_eq_dec : EqDecision Q.
Proof. solve_decision. Defined.

(** The [Retry-After] header as [int()] reads it: an integer, or a text
    that [int()] rejects with [ValueError] (an HTTP date, for one). *)
Inductive RetryAfter :=
| Seconds (wait_time : Z)
| NotAnInteger.

(** A response: status, the [Retry-After] header ([None] when it is absent
    or empty), the keys of the JSON body the program looks at, and the raw
    content. *)
Record Response := mkResponse {
  status_code : Z;
  retry_after : option RetryAfter;
  json_token : option string;
  json_link : option string;
  json_remaining : option Z;
  json_data : option (list Subtitle);
  content : bytes
}.

(** A request either returns a response or raises
    [requests.exceptions.RequestException]. *)
Inductive Reply :=
| Answer (response : Response)
| RequestException.

(** ** State *)

(** The fields of an [OpenSubtitlesAPI] instance that change or are read. *)
Record Client := mkClient {
  username : option string;
  password : option string;
  jwt_token : option string;
  last_request_time : Q;
  min_request_interval : Q;
  remaining_downloads : option Z
}.

(** [DownloadedSubtitle]. *)
Record DownloadedSubtitle := mkDownloaded {
  media_title : string;
  media_type : string;
  ds_language : string;
  subtitle_file : string;
  rating : Q;
  ds_download_count : Z;
  release_name : string;
  uploader : string;
  timestamp : Q
}.

(** Observable effects, in the order they happen.  [EvAcquire] marks the
    return of [_wait_for_rate_limit] with the time it stored; [EvAttempt]
    is the log line written just before [download_subtitle] is called for a
    language. *)
Inductive Event :=
| EvSleep (seconds : Q)
| EvAcquire (granted : Q)
| EvRequest (rq : Request) (rp : Reply)
| EvAttempt (lang : string) (file_id : Z)
| EvWrite (path : string) (ok : bool).

(** The world outside the process: the clock, how many times it was read,
    how many requests were sent, the file system, and the effects so far. *)
Record World := mkWorld {
  now : Q;
  reads : nat;
  sent : nat;
  fs : gmap string bytes;
  trace : list Event
}.

(** The deterministic environment of a run: the provider's reply to the
    [k]-th request, the time that passes (beyond sleeping) before the [k]-th
    reading of the clock, which paths can be written, and the libraries of
    the Plex server. *)
Record Env := mkEnv {
  net : nat -> Request -> Reply;
  elapse : nat -> Q;
  writable : string -> bool;
  plex_sections : list Library
}.

(** A [PlexSubtitleDownloader] instance and the world. *)
Record State := mkState {
  api : Client;
  languages : list string;
  download_report : list DownloadedSubtitle;
  world : World
}.

(** ** The monad: state and Python exceptions *)

Inductive exn := RecursionError | ValueError | IndexError | AttributeError | NotFound.

Inductive Result (A : Type) :=
| Ok (a : A)
| Raise (e : exn).
Arguments Ok {A} a.
Arguments Raise {A} e.

Definition M (A : Type) : Type := State -> Result A * State.

#[global] Instance M_ret : MRet M := fun A a st => (Ok a, st).
#[global] Instance M_bind : MBind M := fun A B f m st =>
  match m st with
  | (Ok a, st') => f a st'
  | (Raise e, st') => (Raise e, st')
  end.

Definition ret {A} (a : A) : M A := mret a.
Definition raise {A} (e : exn) : M A := fun st => (Raise e, st).
Definition gets {A} (f : State -> A) : M A := fun st => (Ok (f st), st).
Definition modify (f : State -> State) : M unit := fun st => (Ok tt, f st).

(** [try: body except Exception: handler]. *)
Definition try_except {A} (body : M A) (handler : M A) : M A := fun st =>
  match body st with
  | (Ok a, st') => (Ok a, st')
  | (Raise _, st') => handler st'
  end.

Definition with_api (f : Client -> Client) (st : State) : State :=
  mkState (f (api st)) (languages st) (download_report st) (world st).
Definition with_world (f : World -> World) (st : State) : State :=
  mkState (api st) (languages st) (download_report st) (f (world st)).
Definition with_report (f : list DownloadedSubtitle -> list DownloadedSubtitle)
    (st : State) : State :=
  mkState (api st) (languages st) (f (download_report st)) (world st).

Definition set_jwt_token (v : option string) (c : Client) : Client :=
  mkClient (username c) (password c) v (last_request_time c)
           (min_request_interval c) (remaining_downloads c).
Definition set_last_request_time (v : Q) (c : Client) : Client :=
  mkClient (username c) (password c) (jwt_token c) v
           (min_request_interval c) (remaining_downloads c).
Definition set_remaining_downloads (v : option Z) (c : Client) : Client :=
  mkClient (username c) (password c) (jwt_token c) (last_request_time c)
           (min_request_interval c) v.

Definition log_event (e : Event) (w : World) : World :=
  mkWorld (now w) (reads w) (sent w) (fs w) (trace w ++ [e]).

Definition emit (e : Event) : M unit := modify (with_world (log_event e)).

Section Effects.
Context (env : Env).

(** [time.time()]: the clock after the environment let some time pass.
    Times are rationals (seconds), kept in lowest terms. *)
Definition time_time : M Q := fun st =>
  let w := world st in
  let t := Qred (now w + elapse env (reads w)) in
  (Ok t, with_world (fun w => mkWorld t (S (reads w)) (sent w) (fs w) (trace w)) st).

(** [time.sleep(seconds)]; a negative argument raises [ValueError]. *)
Definition time_sleep (seconds : Q) : M unit :=
  if Qle_bool 0 seconds
  then modify (with_world (fun w =>
         mkWorld (Qred (now w + seconds)) (reads w) (sent w) (fs w)
                 (trace w ++ [EvSleep seconds])))
  else raise ValueError.

(** [requests.get] / [requests.post]. *)
Definition request (rq : Request) : M Reply := fun st =>
  let w := world st in
  let rp := net env (sent w) rq in
  (Ok rp, with_world (fun w => mkWorld (now w) (reads w) (S (sent w)) (fs w)
                                       (trace w ++ [EvRequest rq rp])) st).

End Effects.

(** ** [class OpenSubtitlesAPI] *)
Module OpenSubtitlesAPI.
Section Methods.
Context (env : Env).

(** The state of a freshly constructed client ([__init__]). *)
Definition init (username password : option string) : Client :=
  mkClient username password None 0 1 None.

Definition Qlt_bool (x y : Q) : bool := negb (Qle_bool y x).

Definition _wait_for_rate_limit : M unit :=
  t ← time_time env;
  last ← gets (fun st => last_request_time (api st));
  interval ← gets (fun st => min_request_interval (api st));
  let elapsed := (t - last)%Q in
  (if Qlt_bool elapsed interval
   then let sleep_time := (interval - elapsed)%Q in time_sleep sleep_time
   else ret tt);;
  t' ← time_time env;
  modify (with_api (set_last_request_time t'));;
  emit (EvAcquire t').

Definition _handle_rate_limit_error (response : Response) : M bool :=
  if (status_code response =? 429)%Z then
    match retry_after response with
    | Some (Seconds wait_time) => time_sleep (inject_Z wait_time);; ret true
    | Some NotAnInteger => raise ValueError
    | None => ret false
    end
  else ret false.

Definition login : M bool :=
  username ← gets (fun st => username (api st));
  password ← gets (fun st => password (api st));
  if negb (truthy_str username) || negb (truthy_str password) then ret false
  else
    _wait_for_rate_limit;;
    reply ← request env (PostLogin username password);
    match reply with
    | Answer response =>
        if (status_code response =? 200)%Z then
          modify (with_api (set_jwt_token (json_token response)));;
          ret true
        else if (status_code response =? 401)%Z then ret false
        else ret false
    | RequestException => ret false
    end.

(** The [params] dictionary of [search_subtitles]; [movie_hash] is never
    passed by the callers. *)
Definition search_params (query imdb_id tmdb_id : option string)
    (languages : string) (file_size season_number episode_number : option Z)
  : SearchParams :=
  mkParams languages
    (if truthy_str query then query else None)
    (if truthy_str imdb_id then imdb_id else None)
    (if truthy_str tmdb_id then tmdb_id else None)
    (match file_size with
     | Some n => if (n =? 0)%Z then None else Some n
     | None => None
     end)
    season_number episode_number.

Definition search_subtitles (query imdb_id tmdb_id : option string)
    (languages : string) (file_size season_number episode_number : option Z)
  : M (option (list Subtitle)) :=
  _wait_for_rate_limit;;
  let params := search_params query imdb_id tmdb_id languages
                              file_size season_number episode_number in
  reply ← request env (GetSubtitles params);
  match reply with
  | RequestException => ret None
  | Answer response =>
      retry ← _handle_rate_limit_error response;
      reply ← (if (retry : bool) then request env (GetSubtitles params)
               else ret (Answer response));
      match reply with
      | RequestException => ret None
      | Answer response =>
          if (status_code response =? 200)%Z
          then ret (Some (default [] (json_data response)))
          else if (status_code response =? 401)%Z then ret None
          else if (status_code response =? 406)%Z then ret (Some [])
          else ret None
      end
  end.

(** [depth] is the number of nested calls of [download_subtitle] the
    interpreter still allows; when it is used up Python raises
    [RecursionError]. *)
Fixpoint download_subtitle (depth : nat) (file_id : Z) : M (option bytes) :=
  match depth with
  | O => raise RecursionError
  | S depth =>
      token ← gets (fun st => jwt_token (api st));
      logged_in ← (if truthy_str token then ret true else login);
      if negb logged_in then ret None
      else
        remaining ← gets (fun st => remaining_downloads (api st));
        if match remaining with
           | Some r => (r <=? 0)%Z
           | None => false
           end
        then ret None
        else
          _wait_for_rate_limit;;
          token ← gets (fun st => jwt_token (api st));
          reply ← request env (PostDownload token file_id);
          match reply with
          | RequestException => ret None
          | Answer response =>
              retry ← _handle_rate_limit_error response;
              reply ← (if (retry : bool) then request env (PostDownload token file_id)
                       else ret (Answer response));
              match reply with
              | RequestException => ret None
              | Answer response =>
                  if (status_code response =? 200)%Z then
                    let download_link := json_link response in
                    modify (with_api (fun c =>
                      set_remaining_downloads
                        (match json_remaining response with
                         | Some r => Some r
                         | None => remaining_downloads c
                         end) c));;
                    if truthy_str download_link then
                      sub_reply ← request env (GetLink (default "" download_link));
                      match sub_reply with
                      | RequestException => ret None
                      | Answer sub_response =>
                          if (status_code sub_response =? 200)%Z
                          then ret (Some (content sub_response))
                          else ret None
                      end
                    else ret None
                  else if (status_code response =? 401)%Z then
                    modify (with_api (set_jwt_token None));;
                    ok ← login;
                    if (ok : bool) then download_subtitle depth file_id
                    else ret None
                  else if (status_code response =? 406)%Z then ret None
                  else ret None
              end
          end
  end.

End Methods.
End OpenSubtitlesAPI.

(** ** [class PlexSubtitleDownloader] *)
Module PlexSubtitleDownloader.

(** [get_existing_subtitle_languages]: the loop has no [else] branch. *)
Definition get_existing_subtitle_languages (item : Item) : gset string :=
  foldl (fun existing_langs stream =>
           match languageCode stream with
           | Some code =>
               if truthy_str (Some code)
               then existing_langs ∪ {[ normalize code ]}
               else existing_langs
           | None => existing_langs
           end)
        ∅ (subtitleStreams item).

(** [needs_subtitles]; [languages] is [self.languages]. *)
Definition needs_subtitles (languages : list string) (item : Item)
  : gset string :=
  let existing := get_existing_subtitle_languages item in
  list_to_set languages ∖ existing.

Definition get_media_path (item : Item) : option Path := media_file item.

Definition get_subtitle_path (media_path : Path) (language : string)
    (forced : bool) : Path :=
  let suffix := "." ++ language in
  let suffix := if forced then suffix ++ ".forced" else suffix in
  let suffix := suffix ++ ".srt" in
  with_suffix media_path suffix.

Definition path_exists (p : Path) (st : State) : bool :=
  bool_decide (is_Some (fs (world st) !! path_str p)).

Definition subtitle_exists (media_path : Path) (language : string)
    (st : State) : bool :=
  let subtitle_path := get_subtitle_path media_path language false in
  path_exists subtitle_path st.

(** *** Candidate selection (the body of the loop over the languages) *)

(** [[r for r in results if r.get('attributes', {}).get('language') == lang]] *)
Definition lang_results (results : list Subtitle) (lang : string)
  : list Subtitle :=
  List.filter (fun r => bool_decide (language r = Some lang)) results.

(** The sort key [(ratings, download_count)], absent values being 0. *)
Definition sort_key (x : Subtitle) : Q * Z :=
  (default 0%Q (ratings x), default 0%Z (download_count x)).

(** Python's order on pairs: the first components decide unless equal. *)
Definition key_lt (a b : Q * Z) : bool :=
  if Qeq_bool (fst a) (fst b) then (snd a <? snd b)%Z
  else OpenSubtitlesAPI.Qlt_bool (fst a) (fst b).

(** Higher rating first, then higher download count: [a] comes no later
    than [b]. *)
Definition key_ge (a b : Q * Z) : Prop :=
  (fst b < fst a)%Q ∨ ((fst a == fst b)%Q ∧ (snd b <= snd a)%Z).

(** Equal keys (a full tie). *)
Definition key_eqb (a b : Q * Z) : bool :=
  Qeq_bool (fst a) (fst b) && (snd a =? snd b)%Z.

Definition descending : list Subtitle -> Prop :=
  StronglySorted (fun x y => key_ge (sort_key x) (sort_key y)).

(** [list.sort(key=..., reverse=True)] is stable: elements with equal keys
    keep their order.  Inserting from the right, an element goes in front of
    the first element whose key is not greater than its own. *)
Fixpoint insert_desc (x : Subtitle) (l : list Subtitle) : list Subtitle :=
  match l with
  | [] => [x]
  | y :: l' => if key_lt (sort_key x) (sort_key y)
               then y :: insert_desc x l'
               else x :: l
  end.

Definition sort_reverse (l : list Subtitle) : list Subtitle :=
  foldr insert_desc [] l.

(** [best = lang_results[0]] after the sort, if [lang_results] is not
    empty. *)
Definition select_best (results : list Subtitle) (lang : string)
  : option Subtitle :=
  head (sort_reverse (lang_results results lang)).

(** *** [download_subtitles_for_item] *)

(** The loop over [item.guids]: the first guid with one of the two prefixes
    decides.  Returns [(imdb_id, tmdb_id)]. *)
Fixpoint scan_guids (guids : list string) : option string * option string :=
  match guids with
  | [] => (None, None)
  | guid :: rest =>
      if startswith guid "imdb://"
      then (Some (remove_all "imdb://tt" guid), None)
      else if startswith guid "tmdb://"
      then (None, Some (remove_all "tmdb://" guid))
      else scan_guids rest
  end.

Definition item_name_of (item : Item) : string :=
  if is_episode item
  then grandparentTitle item ++ " - S" ++ fmt_02d (seasonNumber item)
       ++ "E" ++ fmt_02d (index item) ++ " - " ++ title item
  else title item.

Definition media_type_of (item : Item) : string :=
  if is_episode item then "episode" else "movie".

Definition save_file (path : string) (data : bytes) (w : World) : World :=
  mkWorld (now w) (reads w) (sent w) (<[path := data]> (fs w)) (trace w).

Section Methods.
Context (env : Env).

(** One iteration of [for lang in missing]; the result is what the
    iteration adds to [downloaded_count]. *)
Definition download_language (depth : nat) (item : Item) (media_path : Path)
    (results : list Subtitle) (lang : string) : M Z :=
  match select_best results lang with
  | None => ret 0%Z
  | Some best =>
      file_id ← match files best with
                | None => ret None
                | Some [] => raise IndexError
                | Some (f :: _) => ret f
                end;
      let rating := default 0%Q (ratings best) in
      let download_count := default 0%Z (download_count best) in
      let release_name := default "Unknown" (release best) in
      let uploader := default "Unknown" (uploader_name best) in
      match file_id with
      | None => ret 0%Z
      | Some file_id =>
          if (file_id =? 0)%Z then ret 0%Z
          else
            emit (EvAttempt lang file_id);;
            content ← OpenSubtitlesAPI.download_subtitle env depth file_id;
            match content with
            | Some (b :: bs) =>
                let subtitle_path := get_subtitle_path media_path lang false in
                if writable env (path_str subtitle_path) then
                  modify (with_world (save_file (path_str subtitle_path) (b :: bs)));;
                  emit (EvWrite (path_str subtitle_path) true);;
                  stamp ← gets (fun st => now (world st));
                  modify (with_report (fun report => (report ++
                    [mkDownloaded (item_name_of item) (media_type_of item) lang
                       (path_str subtitle_path) rating download_count
                       release_name uploader stamp])%list));;
                  ret 1%Z
                else
                  emit (EvWrite (path_str subtitle_path) false);;
                  ret 0%Z
            | _ => ret 0%Z
            end
      end
  end.

Fixpoint for_lang_in (depth : nat) (item : Item) (media_path : Path)
    (results : list Subtitle) (missing : list string) (downloaded_count : Z)
  : M Z :=
  match missing with
  | [] => ret downloaded_count
  | lang :: rest =>
      n ← download_language depth item media_path results lang;
      for_lang_in depth item media_path results rest (downloaded_count + n)%Z
  end.

Definition download_subtitles_for_item (depth : nat) (item : Item) : M Z :=
  match get_media_path item with
  | None => ret 0%Z
  | Some media_path =>
      present ← gets (path_exists media_path);
      if negb present then ret 0%Z
      else
        languages ← gets languages;
        let missing := needs_subtitles languages item in
        on_disk ← gets (fun st lang => subtitle_exists media_path lang st);
        (* a set is iterated in some fixed order: that of [elements] *)
        let missing := List.filter (fun lang => negb (on_disk lang))
                                   (elements missing) in
        match missing with
        | [] => ret 0%Z
        | _ =>
            size ← gets (fun st =>
              Z.of_nat (length (default [] (fs (world st) !! path_str media_path))));
            let '(imdb_id, tmdb_id) := scan_guids (guids item) in
            let no_id := negb (truthy_str imdb_id) && negb (truthy_str tmdb_id) in
            let season_number :=
              if is_episode item then Some (seasonNumber item) else None in
            let episode_number :=
              if is_episode item then Some (index item) else None in
            let query :=
              if no_id
              then Some (if is_episode item then grandparentTitle item
                         else title item)
              else None in
            results ← OpenSubtitlesAPI.search_subtitles env query imdb_id tmdb_id
                        (join "," missing) (Some size)
                        season_number episode_number;
            match results with
            | None => ret 0%Z
            | Some [] => ret 0%Z
            | Some results =>
                for_lang_in depth item media_path results missing 0%Z
            end
        end
  end.

(** *** [process_library] *)

Definition stat (stats : gmap string Z) (key : string) : Z :=
  default 0%Z (stats !! key).
Definition add_stat (key : string) (n : Z) (stats : gmap string Z)
  : gmap string Z :=
  <[key := (stat stats key + n)%Z]> stats.

Definition empty_stats : gmap string Z :=
  list_to_map [("total", 0%Z); ("needs_subtitles", 0%Z); ("downloaded", 0%Z);
               ("errors", 0%Z); ("skipped", 0%Z)].

(** [max_downloads and total_downloaded >= max_downloads] *)
Definition limit_reached (max_downloads : option Z) (total_downloaded : Z)
  : bool :=
  match max_downloads with
  | Some m => negb (m =? 0)%Z && (m <=? total_downloaded)%Z
  | None => false
  end.

(** [self.needs_subtitles(item)] on whatever [library.all()] returned: only
    videos have subtitle streams. *)
Definition needs_subtitles_of (obj : PlexObj) : M (gset string) :=
  match obj with
  | Video item => languages ← gets languages; ret (needs_subtitles languages item)
  | _ => raise AttributeError
  end.

(** The [try] block of the loop over the items, with the local variables
    [stats] and [total_downloaded] passed through; the inner handler is
    the same [except] clause, reached after [needs_subtitles] was counted. *)
Definition process_item (depth : nat) (obj : PlexObj) (stats : gmap string Z)
    (total_downloaded : Z) : M (gmap string Z * Z) :=
  try_except
    (missing ← needs_subtitles_of obj;
     if bool_decide (missing ≠ ∅) then
       let stats := add_stat "needs_subtitles" 1 stats in
       try_except
         (downloaded ←
            match obj with
            | Video item => download_subtitles_for_item depth item
            | _ => raise AttributeError
            end;
          if (0 <? downloaded)%Z
          then ret (add_stat "downloaded" downloaded stats,
                    (total_downloaded + downloaded)%Z)
          else ret (stats, total_downloaded))
         (ret (add_stat "errors" 1 stats, total_downloaded))
     else ret (stats, total_downloaded))
    (ret (add_stat "errors" 1 stats, total_downloaded)).

(** [for i, item in enumerate(items, 1)]; [n_items] is [len(items)]. *)
Fixpoint for_item_in (depth : nat) (max_downloads : option Z) (n_items : Z)
    (items : list PlexObj) (i : Z) (stats : gmap string Z)
    (total_downloaded : Z) : M (gmap string Z) :=
  match items with
  | [] => ret stats
  | item :: rest =>
      if limit_reached max_downloads total_downloaded
      then ret (<["skipped" := (n_items - i + 1)%Z]> stats)
      else
        '(stats, total_downloaded) ← process_item depth item stats total_downloaded;
        for_item_in depth max_downloads n_items rest (i + 1)%Z stats total_downloaded
  end.

(** [self.plex.library.section(library_name)] *)
Definition section (library_name : string) : M Library :=
  match List.find (fun l => String.eqb (lib_title l) library_name)
                  (plex_sections env) with
  | Some library => ret library
  | None => raise NotFound
  end.

(** [show.episodes()] for every object of the library. *)
Fixpoint all_episodes (objs : list PlexObj) : M (list PlexObj) :=
  match objs with
  | [] => ret []
  | Show episodes :: rest =>
      items ← all_episodes rest; ret ((Video <$> episodes) ++ items)%list
  | _ :: _ => raise AttributeError
  end.

Definition process_library (depth : nat) (library_name : string)
    (media_type : option string) (max_downloads : option Z)
  : M (gmap string Z) :=
  found ← try_except (library ← section library_name; ret (Some library))
                     (ret None);
  match found with
  | None => ret ∅
  | Some library =>
      let stats := empty_stats in
      if bool_decide (media_type = Some "movie")
         || bool_decide (lib_type library = "movie") then
        let items := lib_all library in
        let stats := <["total" := Z.of_nat (length items)]> stats in
        for_item_in depth max_downloads (Z.of_nat (length items)) items 1%Z stats 0%Z
      else if bool_decide (media_type = Some "episode")
              || bool_decide (lib_type library = "show") then
        items ← all_episodes (lib_all library);
        let stats := <["total" := Z.of_nat (length items)]> stats in
        for_item_in depth max_downloads (Z.of_nat (length items)) items 1%Z stats 0%Z
      else ret stats
  end.

(** *** [process_all_libraries] *)

(** [for key in total_stats: total_stats[key] += stats.get(key, 0)] *)
Definition add_stats (total_stats stats : gmap string Z) : gmap string Z :=
  map_imap (fun key v => Some (v + stat stats key)%Z) total_stats.

Fixpoint for_library_in (depth : nat) (media_type : option string)
    (max_downloads : option Z) (libraries : list Library)
    (total_stats : gmap string Z) (total_downloaded : Z)
  : M (gmap string Z) :=
  match libraries with
  | [] => ret total_stats
  | library :: rest =>
      if bool_decide (lib_type library ∈ ["movie"; "show"]) then
        let budget :=
          match max_downloads with
          | Some m => if (m =? 0)%Z then None
                      else Some (m - total_downloaded)%Z
          | None => None
          end in
        match budget with
        | Some remaining =>
            if (remaining <=? 0)%Z
            then for_library_in depth media_type max_downloads rest
                                total_stats total_downloaded
            else
              stats ← process_library depth (lib_title library) media_type
                                      (Some remaining);
              let total_stats := add_stats total_stats stats in
              for_library_in depth media_type max_downloads rest
                             total_stats (stat total_stats "downloaded")
        | None =>
            stats ← process_library depth (lib_title library) media_type None;
            let total_stats := add_stats total_stats stats in
            for_library_in depth media_type max_downloads rest
                           total_stats (stat total_stats "downloaded")
        end
      else for_library_in depth media_type max_downloads rest
                          total_stats total_downloaded
  end.

Definition process_all_libraries (depth : nat) (media_type : option string)
    (max_downloads : option Z) : M (gmap string Z) :=
  for_library_in depth media_type max_downloads (plex_sections env)
                 empty_stats 0%Z.

End Methods.
End PlexSubtitleDownloader.

(** ** [class PlexSeleniumDownloader] ([downloader.py]) *)
Module PlexSeleniumDownloader.

(** [get_existing_subtitle_languages]: an unlabeled stream counts as
    English. *)
Definition get_existing_subtitle_languages (item : Item) : gset string :=
  foldl (fun existing_langs stream =>
           match languageCode stream with
           | Some code =>
               if truthy_str (Some code)
               then existing_langs ∪ {[ normalize code ]}
               else existing_langs ∪ {[ "en" ]}
           | None => existing_langs ∪ {[ "en" ]}
           end)
        ∅ (subtitleStreams item).

Definition needs_subtitles (languages : list string) (item : Item)
  : gset string :=
  let existing := get_existing_subtitle_languages item in
  list_to_set languages ∖ existing.

End PlexSeleniumDownloader.

(** How one pass through the body of [download_subtitle] ends. *)
Inductive Step :=
| Finished (res : Result (option bytes))
| Relogged.

(** ** The effect of the elementary steps, written out

    Closed forms of the state after a request and after a pass through the
    rate limiter, and the vocabulary used to speak about traces. *)
Module Effect.
Section WithEnv.
Context (env : Env).

Definition after_request (rq : Request) (st : State) : State :=
  with_world (fun w => mkWorld (now w) (reads w) (S (sent w)) (fs w)
                (trace w ++ [EvRequest rq (net env (sent w) rq)])) st.

Definition reply_to (rq : Request) (st : State) : Reply :=
  net env (sent (world st)) rq.

(** The clock when the limiter is entered, and the time since the call
    before. *)
Definition entered (st : State) : Q :=
  Qred (now (world st) + elapse env (reads (world st))).
Definition elapsed (st : State) : Q :=
  (entered st - last_request_time (api st))%Q.
Definition must_sleep (st : State) : bool :=
  OpenSubtitlesAPI.Qlt_bool (elapsed st) (min_request_interval (api st)).
Definition sleep_time (st : State) : Q :=
  (min_request_interval (api st) - elapsed st)%Q.
(** The time the limiter stores when it returns. *)
Definition granted (st : State) : Q :=
  Qred ((if must_sleep st then Qred (entered st + sleep_time st)
         else entered st)
        + elapse env (S (reads (world st)))).
Definition wait_events (st : State) : list Event :=
  (if must_sleep st then [EvSleep (sleep_time st)] else [])
    ++ [EvAcquire (granted st)].

Definition after_wait (st : State) : State :=
  mkState (set_last_request_time (granted st) (api st))
          (languages st) (download_report st)
          (mkWorld (granted st) (S (S (reads (world st)))) (sent (world st))
                   (fs (world st)) (trace (world st) ++ wait_events st)).

(** [login]: whether it succeeds, and the state it leaves. *)
Definition has_credentials (st : State) : bool :=
  truthy_str (username (api st)) && truthy_str (password (api st)).
Definition login_request (st : State) : Request :=
  PostLogin (username (api st)) (password (api st)).
Definition login_reply (st : State) : Reply :=
  reply_to (login_request st) st.
Definition login_ok (st : State) : bool :=
  has_credentials st
  && match login_reply st with
     | Answer response => (status_code response =? 200)%Z
     | RequestException => false
     end.
Definition after_login (st : State) : State :=
  if has_credentials st then
    let st' := after_request (login_request st) (after_wait st) in
    match login_reply st with
    | Answer response =>
        if (status_code response =? 200)%Z
        then with_api (set_jwt_token (json_token response)) st'
        else st'
    | RequestException => st'
    end
  else st.

(** The start of [download_subtitle]: log in unless a token is held. *)
Definition ensure_login (st : State) : bool * State :=
  if truthy_str (jwt_token (api st)) then (true, st)
  else (login_ok st, after_login st).

Definition quota_exhausted (st : State) : bool :=
  match remaining_downloads (api st) with
  | Some r => (r <=? 0)%Z
  | None => false
  end.

Definition after_sleep (seconds : Q) (st : State) : State :=
  with_world (fun w => mkWorld (Qred (now w + seconds)) (reads w) (sent w)
                (fs w) (trace w ++ [EvSleep seconds])) st.

(** A request followed by the handling of a 429 answer: the reply the
    caller goes on with, and the state. *)
Definition send_with_retry (rq : Request) (st : State) : Result Reply * State :=
  let st' := after_request rq st in
  match reply_to rq st with
  | RequestException => (Ok RequestException, st')
  | Answer response =>
      if (status_code response =? 429)%Z then
        match retry_after response with
        | Some (Seconds wait_time) =>
            if Qle_bool 0 (inject_Z wait_time) then
              let st'' := after_sleep (inject_Z wait_time) st' in
              (Ok (reply_to rq st''), after_request rq st'')
            else (Raise ValueError, st')
        | Some NotAnInteger => (Raise ValueError, st')
        | None => (Ok (Answer response), st')
        end
      else (Ok (Answer response), st')
  end.

Definition refresh_quota (response : Response) (c : Client) : Client :=
  set_remaining_downloads
    (match json_remaining response with
     | Some r => Some r
     | None => remaining_downloads c
     end) c.

(** The second request of a download and what comes back. *)
Definition fetched (url : string) (st : State) : option bytes :=
  match reply_to (GetLink url) st with
  | Answer sub_response =>
      if (status_code sub_response =? 200)%Z
      then Some (content sub_response) else None
  | RequestException => None
  end.

(** What [search_subtitles] returns for the answer it goes on with. *)
Definition search_result (response : Response) : option (list Subtitle) :=
  if (status_code response =? 200)%Z
  then Some (default [] (json_data response))
  else if (status_code response =? 401)%Z then None
  else if (status_code response =? 406)%Z then Some []
  else None.

(** One pass through the body of [download_subtitle]: either the call is
    finished with a result, or the token was refused, a new login
    succeeded, and the method calls itself. *)
Definition attempt (file_id : Z) (st : State) : Step * State :=
  let '(ok, st1) := ensure_login st in
  if negb ok then (Finished (Ok None), st1)
  else if quota_exhausted st1 then (Finished (Ok None), st1)
  else
    let rq := PostDownload (jwt_token (api st1)) file_id in
    match send_with_retry rq (after_wait st1) with
    | (Raise e, st2) => (Finished (Raise e), st2)
    | (Ok RequestException, st2) => (Finished (Ok None), st2)
    | (Ok (Answer response), st2) =>
        if (status_code response =? 200)%Z then
          let st3 := with_api (refresh_quota response) st2 in
          if truthy_str (json_link response) then
            let url := default "" (json_link response) in
            (Finished (Ok (fetched url st3)), after_request (GetLink url) st3)
          else (Finished (Ok None), st3)
        else if (status_code response =? 401)%Z then
          let st3 := with_api (set_jwt_token None) st2 in
          if login_ok st3 then (Relogged, after_login st3)
          else (Finished (Ok None), after_login st3)
        else (Finished (Ok None), st2)
    end.

(** The events of [login] and of a request with its possible repeat. *)
Definition login_events (st : State) : list Event :=
  if has_credentials st
  then wait_events st ++ [EvRequest (login_request st) (login_reply st)]
  else [].

Definition send_events (rq : Request) (st : State) : list Event :=
  EvRequest rq (reply_to rq st)
  :: match reply_to rq st with
     | Answer response =>
         if (status_code response =? 429)%Z then
           match retry_after response with
           | Some (Seconds wait_time) =>
               if Qle_bool 0 (inject_Z wait_time) then
                 let st' := after_sleep (inject_Z wait_time) (after_request rq st) in
                 [EvSleep (inject_Z wait_time); EvRequest rq (reply_to rq st')]
               else []
           | Some NotAnInteger => []
           | None => []
           end
         else []
     | RequestException => []
     end.

End WithEnv.

(** [st'] is [st] after the events [new]: the trace grew by [new], and
    what no method of the client writes is unchanged. *)
Definition extends (st st' : State) (new : list Event) : Prop :=
  trace (world st') = (trace (world st) ++ new)%list
  ∧ username (api st') = username (api st)
  ∧ password (api st') = password (api st)
  ∧ min_request_interval (api st') = min_request_interval (api st)
  ∧ languages st' = languages st
  ∧ download_report st' = download_report st
  ∧ fs (world st') = fs (world st).

(** *** Reading a trace *)

(** The tracked quota as the provider's answers to the download requests
    determine it: an answer with status 200 that reports [remaining]
    replaces it, nothing else touches it. *)
Definition quota_step (q : option Z) (e : Event) : option Z :=
  match e with
  | EvRequest (PostDownload _ _) (Answer response) =>
      if (status_code response =? 200)%Z then
        match json_remaining response with
        | Some r => Some r
        | None => q
        end
      else q
  | _ => q
  end.
Definition quota_after (tr : list Event) (q : option Z) : option Z :=
  foldl quota_step q tr.

(** The replies to the download-initiation requests, the URLs fetched, the
    replies to the login requests, the downloads announced, and the files
    written. *)
Definition initiations (tr : list Event) : list Reply :=
  omap (fun e => match e with
                 | EvRequest (PostDownload _ _) rp => Some rp
                 | _ => None
                 end) tr.
Definition fetches (tr : list Event) : list string :=
  omap (fun e => match e with
                 | EvRequest (GetLink url) _ => Some url
                 | _ => None
                 end) tr.
Definition logins (tr : list Event) : list Reply :=
  omap (fun e => match e with
                 | EvRequest (PostLogin _ _) rp => Some rp
                 | _ => None
                 end) tr.
Definition requests (tr : list Event) : list Request :=
  omap (fun e => match e with EvRequest rq _ => Some rq | _ => None end) tr.
Definition attempts (tr : list Event) : list (string * Z) :=
  omap (fun e => match e with
                 | EvAttempt lang file_id => Some (lang, file_id)
                 | _ => None
                 end) tr.
Definition saved (tr : list Event) : list string :=
  omap (fun e => match e with EvWrite path true => Some path | _ => None end) tr.

(** The reply to the last download-initiation request of a trace; the
    quota tracked after a call whose events are [tr], if it was [q]
    before; and the URLs such a call has to fetch. *)
Definition last_initiation (tr : list Event) : option Reply :=
  last (initiations tr).
Definition tracked_after (q : option Z) (tr : list Event) : option Z :=
  match last_initiation tr with
  | Some (Answer response) =>
      if (status_code response =? 200)%Z then
        match json_remaining response with
        | Some r => Some r
        | None => q
        end
      else q
  | _ => q
  end.
Definition due_fetches (tr : list Event) : list string :=
  match last_initiation tr with
  | Some (Answer response) =>
      if (status_code response =? 200)%Z && truthy_str (json_link response)
      then [default "" (json_link response)] else []
  | _ => []
  end.

(** The requests that are sent a second time after a 429 answer: the
    search request and the download request, never the login request or
    the fetch of a link. *)
Definition repeatable (rq : Request) : bool :=
  match rq with
  | GetSubtitles _ | PostDownload _ _ => true
  | _ => false
  end.

(** The link a download answer hands out, if it is one that is fetched. *)
Definition link_of (response : Response) : option string :=
  if (status_code response =? 200)%Z && truthy_str (json_link response)
  then Some (default "" (json_link response)) else None.

(** A request is in order after the events [before] (the latest first)
    when it is sent right after the limiter returned; or it fetches the link
    of the answer to the download request sent just before it; or it is a
    search or download request sent a second time, right after the wait that
    the 429 answer to its first sending asked for, that first sending having
    come right after the limiter returned. *)
Definition request_ok (before : list Event) (rq : Request) : bool :=
  match before with
  | EvAcquire _ :: _ => true
  | EvRequest (PostDownload _ _) (Answer response) :: _ =>
      match rq with
      | GetLink url => bool_decide (link_of response = Some url)
      | _ => false
      end
  | EvSleep w :: EvRequest rq0 (Answer response) :: EvAcquire _ :: _ =>
      repeatable rq && bool_decide (rq0 = rq)
      && (status_code response =? 429)%Z
      && match retry_after response with
         | Some (Seconds wait_time) => bool_decide (w = inject_Z wait_time)
         | _ => false
         end
  | _ => false
  end.

Fixpoint limited_from (before : list Event) (tr : list Event) : bool :=
  match tr with
  | [] => true
  | e :: rest =>
      match e with
      | EvRequest rq _ => request_ok before rq
      | _ => true
      end && limited_from (e :: before) rest
  end.
Definition limited (tr : list Event) : bool := limited_from [] tr.

(** What holds of the events [new] of a call of [download_subtitle] that
    leads from [st] to [st'], and what its result [res] tells. *)
Definition pass_facts (st st' : State) (new : list Event) : Prop :=
  extends st st' new
  ∧ limited new = true
  ∧ remaining_downloads (api st')
    = tracked_after (remaining_downloads (api st)) new
  ∧ fetches new = due_fetches new
  ∧ (∀ response, Answer response ∈ initiations new ->
       status_code response = 200%Z ->
       last_initiation new = Some (Answer response)).

Definition success_facts (file_id : Z) (new : list Event)
    (res : Result (option bytes)) : Prop :=
  (∀ c, res = Ok (Some c) ->
     ∃ pre b response sub,
       new = (pre ++ [EvRequest (PostDownload b file_id) (Answer response);
                      EvRequest (GetLink (default "" (json_link response)))
                                (Answer sub)])%list
       ∧ status_code response = 200%Z
       ∧ truthy_str (json_link response) = true
       ∧ status_code sub = 200%Z ∧ c = content sub)
  ∧ (∀ response, last_initiation new = Some (Answer response) ->
       status_code response = 200%Z ->
       truthy_str (json_link response) = false ->
       res = Ok None
       ∧ ∃ pre b, new = (pre ++ [EvRequest (PostDownload b file_id)
                                           (Answer response)])%list).

(** Every request comes right after the limiter returned. *)
Definition each_request_acquired (tr : list Event) : Prop :=
  ∀ pre rq rp post, tr = (pre ++ EvRequest rq rp :: post)%list ->
                    ∃ pre' t, pre = (pre' ++ [EvAcquire t])%list.

(** Every request comes right after the limiter returned, with two
    exceptions.  A fetch of a link comes right after the download request
    whose answer, with status 200, handed out that link.  A search or
    download request may be sent a second time: then the limiter returned,
    the request was sent, the answer had status 429 and a [Retry-After] of
    [wait_time] seconds, the program slept that long, and the same request
    follows at once. *)
Definition acquired_or_exempt (tr : list Event) : Prop :=
  ∀ pre rq rp post, tr = (pre ++ EvRequest rq rp :: post)%list ->
    (∃ pre' t, pre = (pre' ++ [EvAcquire t])%list)
    ∨ (∃ pre' bearer file_id response url,
         rq = GetLink url
         ∧ pre = (pre' ++ [EvRequest (PostDownload bearer file_id)
                                     (Answer response)])%list
         ∧ status_code response = 200%Z
         ∧ truthy_str (json_link response) = true
         ∧ url = default "" (json_link response))
    ∨ (∃ pre' t response wait_time,
         repeatable rq = true
         ∧ pre = (pre' ++ [EvAcquire t; EvRequest rq (Answer response);
                           EvSleep (inject_Z wait_time)])%list
         ∧ status_code response = 429%Z
         ∧ retry_after response = Some (Seconds wait_time)).

(** The times at which the limiter returned, in order. *)
Definition acquire_times (tr : list Event) : list Q :=
  omap (fun e => match e with EvAcquire t => Some t | _ => None end) tr.


Definition is_request (e : Event) : bool :=
  match e with EvRequest _ _ => true | _ => false end.

End Effect.

(** ** The loop over the languages, read from outside *)
Module Orchestration.

(** Between [st] and [st'] no download was announced and no file written (as
    during any call of the API client). *)
Definition client_only (st st' : State) : Prop :=
  Effect.attempts (trace (world st')) = Effect.attempts (trace (world st))
  ∧ Effect.saved (trace (world st')) = Effect.saved (trace (world st)).

(** The file a download is attempted for, for a language: the first file of
    the selected candidate, if it has an id other than 0. *)
Definition chosen_file_id (results : list Subtitle) (lang : string) : option Z :=
  match PlexSubtitleDownloader.select_best results lang with
  | Some best =>
      match files best with
      | Some (Some file_id :: _) => if (file_id =? 0)%Z then None else Some file_id
      | _ => None
      end
  | None => None
  end.

Definition expected_attempts (results : list Subtitle) (missing : list string)
  : list (string * Z) :=
  omap (fun lang => (fun file_id => (lang, file_id)) <$> chosen_file_id results lang)
       missing.

(** What a run that appended [records] and had the events [new] looks
    like: one record for every file written, in order; each record is for a
    language that was attempted, and its file is there. *)
Definition records_match (st' : State) (new : list Event)
    (records : list DownloadedSubtitle) : Prop :=
  map subtitle_file records = Effect.saved new
  ∧ (length records <= length (Effect.attempts new))%nat
  ∧ Forall (fun r => (∃ file_id, (ds_language r, file_id) ∈ Effect.attempts new)
                     ∧ ∃ data, fs (world st') !! subtitle_file r = Some data
                               ∧ data ≠ [])
           records.

End Orchestration.

(** ** Scenarios

    Concrete items, provider behaviours and states used to run the model. *)
Module Scenario.


Definition item_with_streams (codes : list (option string)) : Item :=
  mkItem "Title" false "" 0 0 [] None (mkStream <$> codes).

Definition candidate (lang : string) (rating : Q) (downloads file_id : Z)
  : Subtitle :=
  mkSubtitle (Some lang) (Some rating) (Some downloads) (Some "release")
             (Some "uploader") (Some [Some file_id]).


(** A provider that cannot be reached, a clock that advances a quarter of
    a second between readings. *)
Definition offline : Env :=
  mkEnv (fun _ _ => RequestException) (fun _ => 1 # 4) (fun _ => true) [].

Definition subtitle_bytes : bytes := list_byte_of_string "1 subtitle".

Definition ok_login : Response :=
  mkResponse 200 None (Some "token") None None None [].
Definition ok_link (remaining : Z) : Response :=
  mkResponse 200 None None (Some "https://dl/file") (Some remaining) None [].
Definition ok_file : Response :=
  mkResponse 200 None None None None None subtitle_bytes.
Definition status_only (status : Z) : Response :=
  mkResponse status None None None None None [].

(** A provider that works: two Spanish candidates are found, downloads
    succeed and four remain afterwards. *)
Definition provider_net (k : nat) (rq : Request) : Reply :=
  match rq with
  | PostLogin _ _ => Answer ok_login
  | GetSubtitles _ =>
      Answer (mkResponse 200 None None None None
                (Some [candidate "es" 7 500 11; candidate "es" 9 200 22]) [])
  | PostDownload _ _ => Answer (ok_link 4)
  | GetLink _ => Answer ok_file
  end.

(** The same provider, except that the tokens are refused as long as fewer
    than [upto] requests were sent. *)
Definition stale_net (upto : nat) (k : nat) (rq : Request) : Reply :=
  match rq with
  | PostDownload _ _ =>
      if (k <? upto)%nat then Answer (status_only 401) else Answer (ok_link 4)
  | _ => provider_net k rq
  end.

(** A provider that refuses every token it has handed out. *)
Definition unauthorized_net (k : nat) (rq : Request) : Reply :=
  match rq with
  | PostDownload _ _ => Answer (status_only 401)
  | _ => provider_net k rq
  end.

(** A provider whose login answer carries no token and whose download
    answer reports that nothing remains. *)
Definition tokenless_net (k : nat) (rq : Request) : Reply :=
  match rq with
  | PostLogin _ _ => Answer (status_only 200)
  | PostDownload _ _ => Answer (ok_link 0)
  | _ => provider_net k rq
  end.

(** A provider whose download answer has status 200 and no link. *)
Definition linkless_net (k : nat) (rq : Request) : Reply :=
  match rq with
  | PostDownload _ _ =>
      Answer (mkResponse 200 None None None (Some 3%Z) None [])
  | _ => provider_net k rq
  end.


Definition with_net (net : nat -> Request -> Reply) (libraries : list Library)
  : Env :=
  mkEnv net (fun _ => 1 # 4) (fun _ => true) libraries.

(** A client that holds a token. *)
Definition logged_in : State :=
  mkState (mkClient (Some "user") (Some "secret") (Some "token0") 0 1 None)
          ["en"; "es"] [] (mkWorld 1000 0 0 ∅ []).

(** A movie with English subtitles, and a second one; the files on disk. *)
Definition movie : Item :=
  mkItem "Movie" false "" 0 0 ["imdb://tt0123"]
         (Some (mkPath "/media/Movie" ".mkv")) [mkStream (Some "eng")].
Definition sequel : Item :=
  mkItem "Sequel" false "" 0 0 ["tmdb://77"]
         (Some (mkPath "/media/Sequel" ".mkv")) [mkStream (Some "eng")].
Definition disk : gmap string bytes :=
  {[ "/media/Movie.mkv" := list_byte_of_string "video";
     "/media/Sequel.mkv" := list_byte_of_string "video" ]}.
Definition movies : Library := mkLibrary "Movies" "movie" [Video movie; Video sequel].
Definition more_movies : Library := mkLibrary "More" "movie" [Video sequel].

(** A downloader just constructed, at time 1000 on the clock. *)
Definition fresh (languages : list string) (files : gmap string bytes)
  : State :=
  mkState (OpenSubtitlesAPI.init (Some "user") (Some "secret")) languages []
          (mkWorld 1000 0 0 files []).

End Scenario.

(** ** [generate_report]: the two groups and the language breakdown

    The list comprehensions [movies] and [episodes] and the dictionary
    [lang_counts]; the formatting of the lines is not modelled. *)
Module Report.

Definition movies (report : list DownloadedSubtitle) : list DownloadedSubtitle :=
  List.filter (fun s => bool_decide (media_type s = "movie")) report.
Definition episodes (report : list DownloadedSubtitle) : list DownloadedSubtitle :=
  List.filter (fun s => bool_decide (media_type s = "episode")) report.

(** [lang_counts[sub.language] = lang_counts.get(sub.language, 0) + 1] *)
Definition lang_counts (report : list DownloadedSubtitle) : gmap string Z :=
  foldl (fun counts sub =>
           <[ds_language sub := (default 0%Z (counts !! ds_language sub) + 1)%Z]>
             counts)
        ∅ report.

End Report.

(** ** Further vocabulary for the properties of the code *)
Module More.

(** A stream without a usable language tag. *)
Definition unlabelled (stream : SubtitleStream) : Prop :=
  truthy_str (languageCode stream) = false.

(** Neither of the two prefixes the loop over the guids looks for. *)
Definition no_external_id (guid : string) : Prop :=
  startswith guid "imdb://" = false ∧ startswith guid "tmdb://" = false.

(** A language code that [with_suffix] accepts inside a suffix: it holds no
    path separator. *)
Definition plain (language : string) : Prop :=
  String.index 0 "/" language = None.

(** A path that has a file name, which [with_suffix] asks for: what stands
    before its suffix is not the current directory and does not end at a
    separator. *)
Definition named (p : Path) : Prop :=
  path_base p ≠ "."
  ∧ ∃ c, String.get (String.length (path_base p) - 1) (path_base p) = Some c
         ∧ c ≠ "/"%char.




(** The items for which [needs_subtitles] is not empty. *)
Definition lacking (languages : list string) (videos : list Item) : list Item :=
  List.filter (fun item =>
                 bool_decide (PlexSubtitleDownloader.needs_subtitles languages item ≠ ∅))
              videos.

(** A record made for [item] while [st] held the target languages. *)
Definition record_of (item : Item) (st : State) (r : DownloadedSubtitle) : Prop :=
  media_title r = PlexSubtitleDownloader.item_name_of item
  ∧ media_type r = PlexSubtitleDownloader.media_type_of item
  ∧ ds_language r ∈ PlexSubtitleDownloader.needs_subtitles (languages st) item.



(** A provider that finds a Spanish and a French subtitle for every item
    and throttles every second download request: the request that is the
    third of each four requests gets its link, any other download request
    gets status 429 with a [Retry-After] header that holds an HTTP date. *)
Definition throttling_net (k : nat) (rq : Request) : Reply :=
  match rq with
  | GetSubtitles _ =>
      Answer (mkResponse 200 None None None None
                (Some [Scenario.candidate "es" 9 200 22;
                       Scenario.candidate "fr" 8 100 33]) [])
  | PostDownload _ _ =>
      if (k mod 4 =? 2)%nat then Answer (Scenario.ok_link 4)
      else Answer (mkResponse 429 (Some NotAnInteger) None None None None [])
  | _ => Scenario.provider_net k rq
  end.

(** The disk of [Scenario.disk] with a Spanish sidecar file next to the
    first movie. *)
Definition disk_with_sidecar : gmap string bytes :=
  <["/media/Movie.es.srt" := Scenario.subtitle_bytes]> Scenario.disk.

End More.

(** * Properties *)

Open Scope list_scope.

(** Closed decidable goals are settled by evaluation. *)
Ltac by_decide := refine (bool_decide_unpack _ _); vm_compute; exact I.

(** ** Strings and language codes *)

Lemma lower_ascii_idem c : lower_ascii (lower_ascii c) = lower_ascii c.
Proof. destruct c as [[] [] [] [] [] [] [] []]; reflexivity. Qed.

Lemma lower_idem s : lower (lower s) = lower s.
Proof. induction s as [|c s IH]; simpl; [done|]. by rewrite lower_ascii_idem, IH. Qed.


Lemma lower_substring n m s :
  lower (substring n m s) = substring n m (lower s).
Proof.
  revert n m; induction s as [|c s IH]; intros [|n] [|m]; simpl; try done.
  all: by rewrite IH.
Qed.

Lemma length_prefix2 s :
  String.length s = 3%nat -> String.length (substring 0 2 s) = 2%nat.
Proof. destruct s as [|a [|b [|c [|d s]]]]; simpl; intros; try done. Qed.

Lemma conversions_inv k v :
  conversions !! k = Some v ->
  (k, v) ∈ [("eng", "en"); ("spa", "es"); ("fra", "fr");
            ("deu", "de"); ("ita", "it"); ("por", "pt")].
Proof. intros H. by apply elem_of_list_to_map_2 in H. Qed.

Lemma normalize_three code v :
  String.length (lower code) = 3%nat -> conversions !! lower code = Some v ->
  normalize code = v.
Proof.
  intros H3 Hc. unfold normalize.
  apply Nat.eqb_eq in H3. by rewrite H3, Hc.
Qed.

Lemma normalize_three_unknown code :
  String.length (lower code) = 3%nat -> conversions !! lower code = None ->
  normalize code = substring 0 2 (lower code).
Proof.
  intros H3 Hc. unfold normalize.
  apply Nat.eqb_eq in H3. by rewrite H3, Hc.
Qed.

Lemma normalize_other code :
  String.length (lower code) <> 3%nat -> normalize code = lower code.
Proof.
  intros H3. unfold normalize.
  apply Nat.eqb_neq in H3. by rewrite H3.
Qed.


(** ** Language-gap detection *)

Lemma existing_fold_spec (streams : list SubtitleStream) (acc : gset string) l :
  l ∈ foldl (fun existing_langs stream =>
               match languageCode stream with
               | Some code =>
                   if truthy_str (Some code)
                   then existing_langs ∪ {[ normalize code ]}
                   else existing_langs
               | None => existing_langs
               end) acc streams
  ↔ l ∈ acc ∨ ∃ c, c ∈ omap (fun st => if truthy_str (languageCode st)
                                        then languageCode st else None) streams
                   ∧ normalize c = l.
Proof.
  revert acc; induction streams as [|[o] streams IH]; intros acc; simpl.
  - split; [auto|]. intros [H|(c & H & _)]; [done|]. by apply elem_of_nil in H.
  - rewrite IH. destruct o as [code|]; simpl.
    + destruct (negb (code =? "")) eqn:Ht; simpl.
      * rewrite elem_of_union, elem_of_singleton. split.
        -- intros [[H| ->]|(c & H & Hn)]; eauto.
           ++ right. exists code. split; [left|done].
           ++ right. exists c. split; [by right|done].
        -- intros [H|(c & H & Hn)]; [auto|].
           apply elem_of_cons in H as [->|H]; eauto.
      * done.
    + done.
Qed.

Lemma get_existing_spec item l :
  l ∈ PlexSubtitleDownloader.get_existing_subtitle_languages item
  ↔ ∃ c, c ∈ labelled_codes item ∧ normalize c = l.
Proof.
  unfold PlexSubtitleDownloader.get_existing_subtitle_languages, labelled_codes.
  rewrite existing_fold_spec. split; [|eauto].
  intros [H|H]; [|done]. by apply elem_of_empty in H.
Qed.




(** The browser path keeps an unlabeled stream as English. *)
Lemma selenium_fold_mono (streams : list SubtitleStream) (acc : gset string) l :
  l ∈ acc ->
  l ∈ foldl (fun existing_langs stream =>
               match languageCode stream with
               | Some code =>
                   if truthy_str (Some code)
                   then existing_langs ∪ {[ normalize code ]}
                   else existing_langs ∪ {[ "en" ]}
               | None => existing_langs ∪ {[ "en" ]}
               end) acc streams.
Proof.
  revert acc; induction streams as [|[o] streams IH]; intros acc Hl; simpl.
  - done.
  - apply IH. destruct o as [code|]; simpl; [destruct (negb _)|]; set_solver.
Qed.

Lemma selenium_unlabeled_is_english item stream :
  stream ∈ subtitleStreams item -> truthy_str (languageCode stream) = false ->
  "en" ∈ PlexSeleniumDownloader.get_existing_subtitle_languages item.
Proof.
  unfold PlexSeleniumDownloader.get_existing_subtitle_languages.
  generalize (∅ : gset string).
  induction (subtitleStreams item) as [|s streams IH]; intros acc Hin Hf.
  - by apply elem_of_nil in Hin.
  - apply elem_of_cons in Hin as [<-|Hin]; simpl.
    + apply selenium_fold_mono.
      destruct (languageCode stream) as [code|]; [|set_solver].
      simpl in Hf |- *. rewrite Hf. set_solver.
    + by apply IH.
Qed.

(** The API path reads only the labelled streams. *)
Lemma api_path_ignores_unlabeled item :
  PlexSubtitleDownloader.get_existing_subtitle_languages item
  = list_to_set (normalize <$> labelled_codes item).
Proof.
  apply set_eq; intros l.
  rewrite get_existing_spec, elem_of_list_to_set, list_elem_of_fmap.
  split; intros (c & H1 & H2); exists c; done.
Qed.

(** C5 (the API path does not do it): an item whose only subtitle stream
    has no language tag has an empty set of existing languages in
    [plex_opensub_downloader.py], so English is reported missing, while the
    same function of [downloader.py] counts the stream as English. *)
Theorem C5_unlabeled_stream_dropped_by_api_path :
  let item := Scenario.item_with_streams [None] in
  PlexSubtitleDownloader.get_existing_subtitle_languages item = ∅
  ∧ PlexSubtitleDownloader.needs_subtitles ["en"] item = {[ "en" ]}
  ∧ PlexSeleniumDownloader.get_existing_subtitle_languages item = {[ "en" ]}
  ∧ PlexSeleniumDownloader.needs_subtitles ["en"] item = ∅.
Proof. repeat split; by_decide. Qed.

(** ** Candidate selection *)

Module Import Ranking.
Import PlexSubtitleDownloader.

Lemma Qlt_bool_iff x y : OpenSubtitlesAPI.Qlt_bool x y = true ↔ (x < y)%Q.
Proof.
  unfold OpenSubtitlesAPI.Qlt_bool. rewrite negb_true_iff.
  destruct (Qle_bool y x) eqn:E.
  - apply Qle_bool_iff in E. split; [done|]. intros H. exfalso. lra.
  - split; [|done]. intros _. apply Qnot_le_lt. intros H.
    apply Qle_bool_iff in H. congruence.
Qed.

Lemma key_lt_iff a b :
  key_lt a b = true
  ↔ (fst a < fst b)%Q ∨ ((fst a == fst b)%Q ∧ (snd a < snd b)%Z).
Proof.
  unfold key_lt. destruct (Qeq_bool (fst a) (fst b)) eqn:E.
  - apply Qeq_bool_iff in E. rewrite Z.ltb_lt. split; [auto|].
    intros [H|[_ H]]; [lra|done].
  - apply Qeq_bool_neq in E. rewrite Qlt_bool_iff. split; [auto|].
    intros [H|[H _]]; [done|by destruct E].
Qed.

Lemma key_lt_false_iff a b : key_lt a b = false ↔ key_ge a b.
Proof.
  unfold key_ge. rewrite <- not_true_iff_false, key_lt_iff. split.
  - intros H.
    destruct (Qlt_le_dec (fst b) (fst a)) as [Hlt|Hle]; [by left|].
    destruct (Qlt_le_dec (fst a) (fst b)) as [Hlt'|Hle']; [destruct H; by left|].
    right. split; [lra|].
    destruct (Z_lt_le_dec (snd a) (snd b)) as [Hz|Hz]; [|done].
    destruct H. right. split; [lra|done].
  - intros [H|[H1 H2]] [H'|[H1' H2']]; try lra; lia.
Qed.

Lemma key_ge_refl a : key_ge a a.
Proof. right. split; [reflexivity|lia]. Qed.

Lemma key_ge_trans a b c : key_ge a b -> key_ge b c -> key_ge a c.
Proof.
  unfold key_ge. intros [H|[H1 H2]] [H'|[H1' H2']].
  - left; lra.
  - left; lra.
  - left; lra.
  - right. split; [lra|lia].
Qed.

Lemma key_lt_ge_trans a b c :
  key_lt a b = true -> key_ge c b -> key_lt a c = true.
Proof.
  rewrite !key_lt_iff. unfold key_ge.
  intros [H|[H1 H2]] [H'|[H1' H2']].
  - left; lra.
  - left; lra.
  - left; lra.
  - right. split; [lra|lia].
Qed.

Lemma key_lt_ge a b : key_lt a b = true -> key_ge b a.
Proof.
  rewrite key_lt_iff. unfold key_ge.
  intros [H|[H1 H2]]; [by left|]. right. split; [lra|lia].
Qed.

Lemma key_eqb_not_lt k a b :
  key_eqb k a = true -> key_eqb k b = true -> key_lt a b = false.
Proof.
  unfold key_eqb. rewrite !andb_true_iff, !Z.eqb_eq, !Qeq_bool_iff.
  intros [H1 H2] [H1' H2']. apply key_lt_false_iff.
  right. split; [lra|lia].
Qed.

(** *** The sort *)

Lemma insert_desc_perm x l : insert_desc x l ≡ₚ x :: l.
Proof.
  induction l as [|y l IH]; simpl; [done|].
  destruct (key_lt _ _); [|done].
  rewrite IH. apply Permutation_swap.
Qed.

Lemma sort_reverse_perm l : sort_reverse l ≡ₚ l.
Proof.
  induction l as [|x l IH]; simpl; [done|].
  fold (sort_reverse l). by rewrite insert_desc_perm, IH.
Qed.

Lemma insert_desc_sorted x l : descending l -> descending (insert_desc x l).
Proof.
  unfold descending. induction 1 as [|y l Hl IH Hy]; simpl.
  - repeat constructor.
  - destruct (key_lt (sort_key x) (sort_key y)) eqn:E.
    + constructor; [done|].
      apply Forall_forall. intros z Hz.
      rewrite insert_desc_perm in Hz.
      apply elem_of_cons in Hz as [->|Hz].
      * by apply key_lt_ge.
      * rewrite Forall_forall in Hy. by apply Hy.
    + apply key_lt_false_iff in E.
      constructor; [by constructor|].
      constructor; [done|].
      eapply Forall_impl; [exact Hy|]. simpl. intros z Hz.
      by eapply key_ge_trans.
Qed.

Lemma sort_reverse_sorted l : descending (sort_reverse l).
Proof.
  induction l as [|x l IH]; simpl; [constructor|].
  by apply insert_desc_sorted.
Qed.

Lemma insert_desc_stable k x l :
  List.filter (fun y => key_eqb k (sort_key y)) (insert_desc x l)
  = List.filter (fun y => key_eqb k (sort_key y)) (x :: l).
Proof.
  induction l as [|y l IH]; [done|].
  cbn [insert_desc]. destruct (key_lt (sort_key x) (sort_key y)) eqn:E; [|done].
  cbn [List.filter] in *. rewrite IH.
  destruct (key_eqb k (sort_key x)) eqn:Ex; [|done].
  destruct (key_eqb k (sort_key y)) eqn:Ey; [|done].
  by rewrite (key_eqb_not_lt _ _ _ Ex Ey) in E.
Qed.

Lemma sort_reverse_stable k l :
  List.filter (fun y => key_eqb k (sort_key y)) (sort_reverse l)
  = List.filter (fun y => key_eqb k (sort_key y)) l.
Proof.
  induction l as [|x l IH]; [done|].
  cbn [sort_reverse foldr]. fold (sort_reverse l).
  rewrite insert_desc_stable. cbn [List.filter]. by rewrite IH.
Qed.

(** *** The head of the order *)

Lemma head_insert_desc x l :
  head (insert_desc x l)
  = Some match head l with
         | Some h => if key_lt (sort_key x) (sort_key h) then h else x
         | None => x
         end.
Proof. destruct l as [|y l]; simpl; [done|]. by destruct (key_lt _ _). Qed.

Lemma select_best_cons x results lang :
  select_best (x :: results) lang
  = if bool_decide (language x = Some lang)
    then Some match select_best results lang with
              | Some h => if key_lt (sort_key x) (sort_key h) then h else x
              | None => x
              end
    else select_best results lang.
Proof.
  unfold select_best, lang_results. cbn [List.filter].
  destruct (bool_decide (language x = Some lang)); [|done].
  cbn [sort_reverse foldr]. apply head_insert_desc.
Qed.

Lemma select_best_None results lang :
  select_best results lang = None
  ↔ ∀ c, c ∈ results -> language c ≠ Some lang.
Proof.
  induction results as [|x results IH].
  - split; [|done]. intros _ c Hc. by apply elem_of_nil in Hc.
  - rewrite select_best_cons. case_bool_decide as Hx.
    + split; [done|]. intros H. destruct (H x); [left|done].
    + rewrite IH. split.
      * intros H c Hc. apply elem_of_cons in Hc as [->|Hc]; auto.
      * intros H c Hc. apply H. by right.
Qed.

Lemma select_best_Some results lang b :
  select_best results lang = Some b ->
  language b = Some lang
  ∧ (∀ c, c ∈ results -> language c = Some lang ->
          key_ge (sort_key b) (sort_key c))
  ∧ ∃ l1 l2, results = l1 ++ b :: l2
             ∧ ∀ c, c ∈ l1 -> language c = Some lang ->
                    key_lt (sort_key c) (sort_key b) = true.
Proof.
  revert b; induction results as [|x results IH]; intros b.
  - done.
  - rewrite select_best_cons. case_bool_decide as Hx.
    + destruct (select_best results lang) as [h|] eqn:Hh.
      * destruct (IH h eq_refl) as (Hl & Hmax & l1 & l2 & -> & Hfirst).
        destruct (key_lt (sort_key x) (sort_key h)) eqn:E;
          intros [= <-].
        -- split; [done|]. split.
           ++ intros c Hc Hlc. apply elem_of_cons in Hc as [->|Hc]; auto.
              by apply key_lt_ge.
           ++ exists (x :: l1), l2. split; [done|].
              intros c Hc Hlc. apply elem_of_cons in Hc as [->|Hc]; auto.
        -- apply key_lt_false_iff in E. split; [done|]. split.
           ++ intros c Hc Hlc. apply elem_of_cons in Hc as [->|Hc].
              ** apply key_ge_refl.
              ** eapply key_ge_trans; [exact E|]. by apply Hmax.
           ++ exists [], (l1 ++ h :: l2). split; [done|].
              intros c Hc. by apply elem_of_nil in Hc.
      * intros [= <-]. split; [done|]. split.
        -- intros c Hc Hlc. apply elem_of_cons in Hc as [->|Hc].
           ++ apply key_ge_refl.
           ++ rewrite select_best_None in Hh. by destruct (Hh c Hc).
        -- exists [], results. split; [done|].
           intros c Hc. by apply elem_of_nil in Hc.
    + intros Hb. destruct (IH b Hb) as (Hl & Hmax & l1 & l2 & -> & Hfirst).
      split; [done|]. split.
      * intros c Hc Hlc. apply elem_of_cons in Hc as [->|Hc]; auto; done.
      * exists (x :: l1), l2. split; [done|].
        intros c Hc Hlc. apply elem_of_cons in Hc as [->|Hc]; auto; done.
Qed.

End Ranking.

(** C2: the candidates for a language are the results whose language equals
    it; they are put in descending order of rating, then of download count,
    by a stable sort (candidates with the same key keep their order), and the
    head of that order is selected.  Nothing is selected exactly when no
    result has the language.  The selected candidate has the highest rating,
    among those the highest download count, and among full ties it is the
    first of the original list; so a candidate rated 9 is selected over one
    rated 7 whatever their download counts. *)
Theorem C2_select_best_head_of_stable_descending_sort :
  ∀ (results : list Subtitle) (lang : string),
    let candidates := PlexSubtitleDownloader.lang_results results lang in
    let ordered := PlexSubtitleDownloader.sort_reverse candidates in
    let key := PlexSubtitleDownloader.sort_key in
    (∀ c, c ∈ candidates ↔ c ∈ results ∧ language c = Some lang)
    ∧ ordered ≡ₚ candidates
    ∧ StronglySorted
        (fun x y => (fst (key y) < fst (key x))%Q
                    ∨ ((fst (key x) == fst (key y))%Q ∧ (snd (key y) <= snd (key x))%Z))
        ordered
    ∧ (∀ k, List.filter (fun y => PlexSubtitleDownloader.key_eqb k (key y)) ordered
            = List.filter (fun y => PlexSubtitleDownloader.key_eqb k (key y)) candidates)
    ∧ PlexSubtitleDownloader.select_best results lang = head ordered
    ∧ (PlexSubtitleDownloader.select_best results lang = None
       ↔ ∀ c, c ∈ results → language c ≠ Some lang)
    ∧ (∀ b, PlexSubtitleDownloader.select_best results lang = Some b →
            b ∈ results ∧ language b = Some lang
            ∧ (∀ c, c ∈ results → language c = Some lang →
                    (fst (key c) < fst (key b))%Q
                    ∨ ((fst (key b) == fst (key c))%Q ∧ (snd (key c) <= snd (key b))%Z))
            ∧ ∃ l1 l2, results = l1 ++ b :: l2
                       ∧ ∀ c, c ∈ l1 → language c = Some lang →
                              (fst (key c) < fst (key b))%Q
                              ∨ ((fst (key c) == fst (key b))%Q
                                 ∧ (snd (key c) < snd (key b))%Z))
    ∧ (∀ d7 d9 f7 f9,
         PlexSubtitleDownloader.select_best
           [Scenario.candidate lang 7 d7 f7; Scenario.candidate lang 9 d9 f9] lang
         = Some (Scenario.candidate lang 9 d9 f9)
         ∧ PlexSubtitleDownloader.select_best
             [Scenario.candidate lang 9 d9 f9; Scenario.candidate lang 7 d7 f7] lang
           = Some (Scenario.candidate lang 9 d9 f9)).
Proof.
  intros results lang candidates ordered key.
  split; [|split; [|split; [|split; [|split; [|split; [|split]]]]]].
  - intros c. unfold candidates, PlexSubtitleDownloader.lang_results.
    rewrite list_elem_of_In, filter_In, <- list_elem_of_In.
    by rewrite bool_decide_eq_true.
  - apply sort_reverse_perm.
  - apply sort_reverse_sorted.
  - intros k. apply sort_reverse_stable.
  - reflexivity.
  - apply select_best_None.
  - intros b Hb. destruct (select_best_Some _ _ _ Hb) as (Hl & Hmax & l1 & l2 & Hres & Hfirst).
    split; [|split; [done|split]].
    + rewrite Hres. apply elem_of_app. right. left.
    + exact Hmax.
    + exists l1, l2. split; [done|]. intros c Hc Hlc.
      by apply key_lt_iff, Hfirst.
  - intros d7 d9 f7 f9. rewrite !select_best_cons.
    unfold Scenario.candidate; cbn [language].
    rewrite !bool_decide_eq_true_2 by done.
    split; reflexivity.
Qed.

Lemma C2_select_best_witness :
  PlexSubtitleDownloader.select_best
    [Scenario.candidate "en" 10 900 1; Scenario.candidate "es" 8 100 2;
     Scenario.candidate "es" 8 300 3; Scenario.candidate "es" 8 300 4] "es"
  = Some (Scenario.candidate "es" 8 300 3)
  ∧ (fst (PlexSubtitleDownloader.sort_key (Scenario.candidate "es" 8 100 2))
     == fst (PlexSubtitleDownloader.sort_key (Scenario.candidate "es" 8 300 3)))%Q
  ∧ PlexSubtitleDownloader.select_best [Scenario.candidate "en" 10 900 1] "es" = None.
Proof.
  pose proof (C2_select_best_head_of_stable_descending_sort
    [Scenario.candidate "en" 10 900 1; Scenario.candidate "es" 8 100 2;
     Scenario.candidate "es" 8 300 3; Scenario.candidate "es" 8 300 4] "es")
    as (_ & _ & _ & _ & Hhead & _ & Hsome & _).
  pose proof (C2_select_best_head_of_stable_descending_sort
    [Scenario.candidate "en" 10 900 1] "es") as (_ & _ & _ & _ & _ & Hnone & _).
  split; [|split].
  - rewrite Hhead. reflexivity.
  - reflexivity.
  - apply Hnone. intros c Hc.
    apply elem_of_cons in Hc as [->|Hc]; [discriminate|].
    by apply elem_of_nil in Hc.
Defined.

(** ** The monad, unfolded *)

Lemma bind_Ok {A B} (m : M A) (f : A -> M B) st a st' :
  m st = (Ok a, st') -> (m ≫= f) st = f a st'.
Proof. unfold mbind, M_bind. by intros ->. Qed.

Lemma bind_Raise {A B} (m : M A) (f : A -> M B) st e st' :
  m st = (Raise e, st') -> (m ≫= f) st = (Raise e, st').
Proof. unfold mbind, M_bind. by intros ->. Qed.

Lemma bind_gets {A B} (g : State -> A) (f : A -> M B) st :
  (gets g ≫= f) st = f (g st) st.
Proof. done. Qed.

Lemma bind_modify {B} (g : State -> State) (f : unit -> M B) st :
  (modify g ≫= f) st = f tt (g st).
Proof. done. Qed.

Lemma bind_ret {A B} (a : A) (f : A -> M B) st : (ret a ≫= f) st = f a st.
Proof. done. Qed.

Lemma bind_request {B} env rq (f : Reply -> M B) st :
  (request env rq ≫= f) st
  = f (Effect.reply_to env rq st) (Effect.after_request env rq st).
Proof. done. Qed.

(** ** The rate limiter *)

Section RateLimiter.
Import OpenSubtitlesAPI Effect.
Context (env : Env).

Lemma wait_for_rate_limit_eq st :
  _wait_for_rate_limit env st = (Ok tt, after_wait env st).
Proof.
  unfold _wait_for_rate_limit, mbind, M_bind, time_time, gets, emit, modify.
  cbn -[Qred Qplus Qminus Qle_bool Qlt_bool].
  fold (entered env st). fold (elapsed env st). fold (must_sleep env st).
  unfold after_wait, wait_events, granted.
  destruct (must_sleep env st) eqn:Hs.
  - fold (sleep_time env st). unfold time_sleep.
    assert (Qle_bool 0 (sleep_time env st) = true) as ->.
    { apply Qle_bool_iff. unfold must_sleep in Hs.
      apply Ranking.Qlt_bool_iff in Hs. unfold sleep_time. lra. }
    unfold modify, ret, mret, M_ret.
    cbn -[Qred Qplus Qminus Qle_bool Qlt_bool]. unfold with_api, with_world, log_event.
    cbn -[Qred Qplus Qminus Qle_bool Qlt_bool].
    by rewrite <- app_assoc.
  - unfold ret, mret, M_ret. cbn -[Qred Qplus Qminus Qle_bool Qlt_bool].
    unfold with_api, with_world, log_event.
    cbn -[Qred Qplus Qminus Qle_bool Qlt_bool]. done.
Qed.


Lemma acquire_times_wait_events st :
  acquire_times (wait_events env st) = [granted env st].
Proof. unfold wait_events. by destruct (must_sleep env st). Qed.


End RateLimiter.




(** ** The API client, one call at a time *)

Section Client.
Import OpenSubtitlesAPI Effect.
Context (env : Env).

Lemma bind_wait {B} (f : unit -> M B) st :
  (_wait_for_rate_limit env ≫= f) st = f tt (after_wait env st).
Proof. apply bind_Ok, wait_for_rate_limit_eq. Qed.

Lemma login_eq st : login env st = (Ok (login_ok env st), after_login env st).
Proof.
  unfold login. rewrite !bind_gets.
  unfold login_ok, after_login, has_credentials, login_reply, login_request.
  destruct (truthy_str (username (api st))); [|done].
  destruct (truthy_str (password (api st))); [|done].
  cbn [negb orb andb]. rewrite bind_wait, bind_request.
  change (reply_to env ?rq (after_wait env st)) with (reply_to env rq st).
  destruct (reply_to env _ st) as [response|]; [|done].
  destruct (status_code response =? 200)%Z; [done|].
  by destruct (status_code response =? 401)%Z.
Qed.

Lemma handle_then_resend_eq {B} rq response (f : Reply -> M B) st :
  (_handle_rate_limit_error response ≫= fun retry : bool =>
     (if retry then request env rq else ret (Answer response)) ≫= f) st
  = match (if (status_code response =? 429)%Z then
             match retry_after response with
             | Some (Seconds wait_time) =>
                 if Qle_bool 0 (inject_Z wait_time) then
                   let st'' := after_sleep (inject_Z wait_time) st in
                   (Ok (reply_to env rq st''), after_request env rq st'')
                 else (Raise ValueError, st)
             | Some NotAnInteger => (Raise ValueError, st)
             | None => (Ok (Answer response), st)
             end
           else (Ok (Answer response), st)) with
    | (Ok reply, st') => f reply st'
    | (Raise e, st') => (Raise e, st')
    end.
Proof.
  unfold _handle_rate_limit_error.
  destruct (status_code response =? 429)%Z; [|done].
  destruct (retry_after response) as [[wait_time|]|]; [|done|done].
  unfold time_sleep. destruct (Qle_bool 0 (inject_Z wait_time)); done.
Qed.

Lemma download_subtitle_S depth file_id st :
  download_subtitle env (S depth) file_id st
  = match attempt env file_id st with
    | (Finished res, st') => (res, st')
    | (Relogged, st') => download_subtitle env depth file_id st'
    end.
Proof.
  cbn [download_subtitle]. unfold attempt, ensure_login.
  rewrite bind_gets.
  assert (∀ ok st1,
    (if negb ok then ret None else
       gets (fun st => remaining_downloads (api st)) ≫= fun remaining =>
       if match remaining with Some r => (r <=? 0)%Z | None => false end
       then ret None
       else _wait_for_rate_limit env ≫= fun _ =>
            gets (fun st => jwt_token (api st)) ≫= fun token =>
            request env (PostDownload token file_id) ≫= fun reply =>
            match reply with
            | Answer response =>
              _handle_rate_limit_error response ≫= fun retry : bool =>
              (if retry then request env (PostDownload token file_id)
               else ret (Answer response)) ≫= fun reply =>
              match reply with
              | Answer response =>
                if (status_code response =? 200)%Z then
                  let download_link := json_link response in
                  modify (with_api (fun c =>
                    set_remaining_downloads
                      (match json_remaining response with
                       | Some r => Some r
                       | None => remaining_downloads c
                       end) c)) ≫= fun _ =>
                  if truthy_str download_link then
                    request env (GetLink (default "" download_link)) ≫= fun sub_reply =>
                    match sub_reply with
                    | Answer sub_response =>
                        if (status_code sub_response =? 200)%Z
                        then ret (Some (content sub_response))
                        else ret None
                    | RequestException => ret None
                    end
                  else ret None
                else if (status_code response =? 401)%Z then
                  modify (with_api (set_jwt_token None)) ≫= fun _ =>
                  login env ≫= fun ok : bool =>
                  if ok then download_subtitle env depth file_id
                  else ret None
                else if (status_code response =? 406)%Z then ret None
                else ret None
              | RequestException => ret None
              end
            | RequestException => ret None
            end) st1
    = match (if negb ok then (Finished (Ok None), st1)
             else if quota_exhausted st1 then (Finished (Ok None), st1)
             else
               let rq := PostDownload (jwt_token (api st1)) file_id in
               match send_with_retry env rq (after_wait env st1) with
               | (Raise e, st2) => (Finished (Raise e), st2)
               | (Ok RequestException, st2) => (Finished (Ok None), st2)
               | (Ok (Answer response), st2) =>
                   if (status_code response =? 200)%Z then
                     let st3 := with_api (refresh_quota response) st2 in
                     if truthy_str (json_link response) then
                       let url := default "" (json_link response) in
                       (Finished (Ok (fetched env url st3)),
                        after_request env (GetLink url) st3)
                     else (Finished (Ok None), st3)
                   else if (status_code response =? 401)%Z then
                     let st3 := with_api (set_jwt_token None) st2 in
                     if login_ok env st3 then (Relogged, after_login env st3)
                     else (Finished (Ok None), after_login env st3)
                   else (Finished (Ok None), st2)
               end) with
      | (Finished res, st') => (res, st')
      | (Relogged, st') => download_subtitle env depth file_id st'
      end) as Hrest.
  { intros ok st1. destruct ok; [|done]. cbn [negb].
    rewrite bind_gets. fold (quota_exhausted st1).
    destruct (quota_exhausted st1); [done|].
    rewrite bind_wait, bind_gets, bind_request.
    change (jwt_token (api (after_wait env st1))) with (jwt_token (api st1)).
    cbv zeta. unfold send_with_retry.
    destruct (reply_to env _ (after_wait env st1)) as [response|]; [|done].
    rewrite handle_then_resend_eq.
    assert (∀ (reply : Reply) (st2 : State),
      (match reply with
       | Answer response =>
         if (status_code response =? 200)%Z then
           let download_link := json_link response in
           modify (with_api (fun c =>
             set_remaining_downloads
               (match json_remaining response with
                | Some r => Some r
                | None => remaining_downloads c
                end) c)) ≫= fun _ =>
           if truthy_str download_link then
             request env (GetLink (default "" download_link)) ≫= fun sub_reply =>
             match sub_reply with
             | Answer sub_response =>
                 if (status_code sub_response =? 200)%Z
                 then ret (Some (content sub_response))
                 else ret None
             | RequestException => ret None
             end
           else ret None
         else if (status_code response =? 401)%Z then
           modify (with_api (set_jwt_token None)) ≫= fun _ =>
           login env ≫= fun ok : bool =>
           if ok then download_subtitle env depth file_id
           else ret None
         else if (status_code response =? 406)%Z then ret None
         else ret None
       | RequestException => ret None
       end) st2
      = match (match reply with
               | RequestException => (Finished (Ok None), st2)
               | Answer response =>
                   if (status_code response =? 200)%Z then
                     let st3 := with_api (refresh_quota response) st2 in
                     if truthy_str (json_link response) then
                       let url := default "" (json_link response) in
                       (Finished (Ok (fetched env url st3)),
                        after_request env (GetLink url) st3)
                     else (Finished (Ok None), st3)
                   else if (status_code response =? 401)%Z then
                     let st3 := with_api (set_jwt_token None) st2 in
                     if login_ok env st3 then (Relogged, after_login env st3)
                     else (Finished (Ok None), after_login env st3)
                   else (Finished (Ok None), st2)
               end) with
        | (Finished res, st') => (res, st')
        | (Relogged, st') => download_subtitle env depth file_id st'
        end) as Htail.
    { intros [response2|] st2; [|done].
      destruct (status_code response2 =? 200)%Z.
      - rewrite bind_modify. fold (refresh_quota response2).
        destruct (truthy_str (json_link response2)); [|done].
        rewrite bind_request. unfold fetched.
        destruct (reply_to env _ _) as [sub|]; [|done].
        by destruct (status_code sub =? 200)%Z.
      - destruct (status_code response2 =? 401)%Z.
        + rewrite bind_modify. erewrite bind_Ok by apply login_eq.
          cbv zeta. by destruct (login_ok env _).
        + by destruct (status_code response2 =? 406)%Z. }
    destruct (status_code response =? 429)%Z;
      [destruct (retry_after response) as [[wait_time|]|];
       [destruct (Qle_bool 0 (inject_Z wait_time)); [|done]|done|]|].
    - match goal with
      | |- context [reply_to env ?rq (after_sleep ?w ?s)] =>
          exact (Htail (reply_to env rq (after_sleep w s)) _)
      end.
    - exact (Htail (Answer response) _).
    - exact (Htail (Answer response) _). }
  destruct (truthy_str (jwt_token (api st))).
  - rewrite bind_ret. apply Hrest.
  - erewrite bind_Ok by apply login_eq. apply Hrest.
Qed.

End Client.

(** ** Reading traces *)

Section Traces.
Import Effect.

Lemma quota_after_app a b q :
  quota_after (a ++ b) q = quota_after b (quota_after a q).
Proof. apply foldl_app. Qed.

Lemma initiations_app a b : initiations (a ++ b) = initiations a ++ initiations b.
Proof. apply omap_app. Qed.
Lemma fetches_app a b : fetches (a ++ b) = fetches a ++ fetches b.
Proof. apply omap_app. Qed.
Lemma logins_app a b : logins (a ++ b) = logins a ++ logins b.
Proof. apply omap_app. Qed.
Lemma attempts_app a b : attempts (a ++ b) = attempts a ++ attempts b.
Proof. apply omap_app. Qed.
Lemma saved_app a b : saved (a ++ b) = saved a ++ saved b.
Proof. apply omap_app. Qed.

Lemma request_ok_mono before more rq :
  request_ok before rq = true -> request_ok (before ++ more) rq = true.
Proof.
  unfold request_ok.
  destruct before as [|[w|t|rq1 [r1|]|lang f|path ok] before]; try done.
  destruct before as [|[w2|t2|rq0 [response|]|lang f|path ok] before]; try done.
  by destruct before as [|[] before].
Qed.

Lemma limited_from_mono before more tr :
  limited_from before tr = true -> limited_from (before ++ more) tr = true.
Proof.
  revert before; induction tr as [|e tr IH]; intros before; [done|].
  cbn [limited_from]. rewrite !andb_true_iff. intros [H1 H2]. split.
  - destruct e; try done. by apply request_ok_mono.
  - by apply (IH (e :: before)).
Qed.

Lemma limited_anywhere before tr :
  limited tr = true -> limited_from before tr = true.
Proof. apply (limited_from_mono [] before). Qed.

Lemma limited_from_app p a b :
  limited_from p a = true -> limited b = true ->
  limited_from p (a ++ b) = true.
Proof.
  revert p; induction a as [|e a IH]; intros p Ha Hb.
  - by apply limited_anywhere.
  - cbn [limited_from app] in *. apply andb_true_iff in Ha as [H1 H2].
    rewrite H1. by apply IH.
Qed.

Lemma limited_app a b :
  limited a = true -> limited b = true -> limited (a ++ b) = true.
Proof. apply limited_from_app. Qed.

(** What [limited] says, event by event. *)
Lemma limited_from_at p pre : ∀ rq rp post,
  limited_from p (pre ++ EvRequest rq rp :: post) = true ->
  request_ok (rev pre ++ p) rq = true.
Proof.
  revert p; induction pre as [|e pre IH]; intros p rq rp post.
  - cbn [app limited_from rev]. by intros [H _]%andb_true_iff.
  - cbn [app limited_from rev]. intros [_ H]%andb_true_iff.
    apply IH in H. by rewrite <- app_assoc.
Qed.

(** One more request, in order after all of [tr]. *)
Lemma limited_from_snoc p tr rq rp :
  limited_from p tr = true -> request_ok (rev tr ++ p) rq = true ->
  limited_from p (tr ++ [EvRequest rq rp]) = true.
Proof.
  revert p; induction tr as [|e tr IH]; intros p Htr Hrq.
  - cbn in *. by rewrite Hrq.
  - cbn [limited_from app rev] in *. apply andb_true_iff in Htr as [H1 H2].
    rewrite H1. apply IH; [done|]. by rewrite <- app_assoc in Hrq.
Qed.

(** The fetch of the link that the answer just received hands out. *)
Lemma limited_fetch pre bearer file_id response rp :
  limited (pre ++ [EvRequest (PostDownload bearer file_id) (Answer response)]) = true ->
  status_code response = 200%Z -> truthy_str (json_link response) = true ->
  limited ((pre ++ [EvRequest (PostDownload bearer file_id) (Answer response)])
           ++ [EvRequest (GetLink (default "" (json_link response))) rp]) = true.
Proof.
  intros Hl H200 Hlink. apply limited_from_snoc; [done|].
  rewrite rev_app_distr. cbn. apply bool_decide_eq_true.
  unfold link_of. by rewrite H200, Hlink.
Qed.

Lemma limited_spec tr : limited tr = true -> acquired_or_exempt tr.
Proof.
  intros Hl pre rq rp post ->. apply limited_from_at in Hl.
  rewrite app_nil_r in Hl.
  destruct pre as [|e1 pre _] using rev_ind; [done|].
  rewrite rev_app_distr in Hl. cbn [rev app] in Hl.
  destruct e1 as [w|t|rq1 [r1|]|lang f|path ok]; try done.
  - (* after a sleep *)
    destruct pre as [|e2 pre _] using rev_ind; [done|].
    rewrite rev_app_distr in Hl. cbn [rev app] in Hl.
    destruct e2 as [w2|t2|rq0 [response|]|lang f|path ok]; try done.
    destruct pre as [|e3 pre _] using rev_ind; [done|].
    rewrite rev_app_distr in Hl. cbn [rev app] in Hl.
    destruct e3 as [w3|t3|rq3 rp3|lang f|path ok]; try done.
    cbn [request_ok] in Hl.
    apply andb_true_iff in Hl as [[[Hrep Heq]%andb_true_iff H429]%andb_true_iff Hw].
    apply bool_decide_eq_true in Heq as ->. apply Z.eqb_eq in H429.
    destruct (retry_after response) as [[wait_time|]|] eqn:Hra; try done.
    apply bool_decide_eq_true in Hw as ->.
    right; right. exists pre, t3, response, wait_time.
    split; [done|]. split; [by rewrite <- !app_assoc|done].
  - left; eauto.
  - (* after an answer *)
    cbn [request_ok] in Hl. destruct rq1 as [| |bearer file_id|]; try done.
    destruct rq as [| | |url]; try done.
    apply bool_decide_eq_true in Hl. unfold link_of in Hl.
    destruct (status_code r1 =? 200)%Z eqn:E200; [|done].
    destruct (truthy_str (json_link r1)) eqn:Elink; [|done].
    injection Hl as <-.
    right; left. exists pre, bearer, file_id, r1, (default "" (json_link r1)).
    split; [done|]. split; [done|]. split; [by apply Z.eqb_eq|done].
  - cbn [request_ok] in Hl. by destruct rq1.
Qed.

End Traces.

(** ** One pass through [download_subtitle] *)

#[local] Arguments Qred : simpl never.
#[local] Arguments Qplus : simpl never.
#[local] Arguments Qminus : simpl never.
#[local] Arguments Qle_bool : simpl never.
#[local] Arguments inject_Z : simpl never.

Section Attempt.
Import OpenSubtitlesAPI Effect.
Context (env : Env).

Lemma extends_refl st : extends st st [].
Proof. unfold extends. by rewrite app_nil_r. Qed.

Lemma extends_trans st st' st'' a b :
  extends st st' a -> extends st' st'' b -> extends st st'' (a ++ b).
Proof.
  unfold extends. intros (?&?&?&?&?&?&?) (?&?&?&?&?&?&?).
  rewrite app_assoc. repeat split; congruence.
Qed.

Lemma after_wait_extends st : extends st (after_wait env st) (wait_events env st).
Proof. done. Qed.

Lemma after_request_extends rq st :
  extends st (after_request env rq st) [EvRequest rq (reply_to env rq st)].
Proof. done. Qed.

Lemma after_sleep_extends w st : extends st (after_sleep w st) [EvSleep w].
Proof. done. Qed.

Lemma with_api_jwt_extends v st : extends st (with_api (set_jwt_token v) st) [].
Proof. unfold extends. cbn. by rewrite app_nil_r. Qed.

Lemma with_api_quota_extends r st : extends st (with_api (refresh_quota r) st) [].
Proof. unfold extends. cbn. by rewrite app_nil_r. Qed.

Lemma after_login_extends st :
  extends st (after_login env st) (login_events env st)
  ∧ remaining_downloads (api (after_login env st)) = remaining_downloads (api st).
Proof.
  unfold after_login, login_events. destruct (has_credentials st).
  - assert (extends st (after_request env (login_request st) (after_wait env st))
              (wait_events env st ++ [EvRequest (login_request st) (login_reply env st)]))
      as Hext by (apply (extends_trans _ (after_wait env st)); done).
    destruct (login_reply env st) as [response|] eqn:Hr; [|done].
    destruct (status_code response =? 200)%Z; [|done].
    split; [|done].
    rewrite <- (app_nil_r (_ ++ _)).
    eapply extends_trans; [exact Hext|apply with_api_jwt_extends].
  - split; [apply extends_refl|done].
Qed.

Lemma login_events_quiet st :
  initiations (login_events env st) = []
  ∧ fetches (login_events env st) = []
  ∧ limited (login_events env st) = true.
Proof.
  unfold login_events, wait_events.
  destruct (has_credentials st); [|done].
  by destruct (must_sleep env st).
Qed.

Lemma wait_events_quiet st :
  initiations (wait_events env st) = [] ∧ fetches (wait_events env st) = [].
Proof. unfold wait_events. by destruct (must_sleep env st). Qed.

Lemma send_with_retry_spec rq st res st' :
  send_with_retry env rq st = (res, st') ->
  extends st st' (send_events env rq st)
  ∧ api st' = api st
  ∧ (repeatable rq = true ->
     ∀ before t, limited_from (EvAcquire t :: before) (send_events env rq st) = true)
  ∧ fetches (send_events env rq st)
    = match rq with
      | GetLink url => fetches (send_events env rq st)
      | _ => []
      end
  ∧ (∀ reply, res = Ok reply ->
       ∃ pre, send_events env rq st = pre ++ [EvRequest rq reply])
  ∧ match rq with
    | PostDownload _ _ =>
        match res with
        | Ok reply => last (initiations (send_events env rq st)) = Some reply
        | Raise _ => ∃ response,
            last (initiations (send_events env rq st)) = Some (Answer response)
            ∧ status_code response = 429%Z
        end
    | _ => initiations (send_events env rq st) = []
    end.
Proof.
  unfold send_with_retry, send_events.
  destruct (reply_to env rq st) as [response|] eqn:Hr.
  - destruct (status_code response =? 429)%Z eqn:E429.
    + destruct (retry_after response) as [[w|]|] eqn:Hra.
      * destruct (Qle_bool 0 (inject_Z w)).
        -- cbv zeta. intros [= <- <-].
           split; [|split; [done|split; [|split; [|split]]]].
           ++ rewrite <- Hr.
              apply (extends_trans _ (after_request env rq st) _ [_] [_; _]);
                [apply after_request_extends|].
              apply (extends_trans _
                       (after_sleep (inject_Z w) (after_request env rq st))
                       _ [_] [_]);
                [apply after_sleep_extends|apply after_request_extends].
           ++ intros Hrep before t. cbn [limited_from request_ok andb].
              rewrite Hrep, E429, Hra, !bool_decide_eq_true_2 by done. done.
           ++ by destruct rq.
           ++ intros reply [= <-]. by exists [EvRequest rq (Answer response); EvSleep (inject_Z w)].
           ++ by destruct rq.
        -- intros [= <- <-].
           split; [rewrite <- Hr; apply after_request_extends|].
           split; [done|split; [done|split; [|split; [done|]]]].
           ++ by destruct rq.
           ++ destruct rq; try done. exists response. split; [done|].
              by apply Z.eqb_eq.
      * intros [= <- <-].
        split; [rewrite <- Hr; apply after_request_extends|].
        split; [done|split; [done|split; [|split; [done|]]]].
        -- by destruct rq.
        -- destruct rq; try done. exists response. split; [done|].
           by apply Z.eqb_eq.
      * intros [= <- <-].
        split; [rewrite <- Hr; apply after_request_extends|].
        split; [done|split; [done|split; [|split]]]; try by destruct rq.
        intros reply [= <-]. by exists [].
    + intros [= <- <-].
      split; [rewrite <- Hr; apply after_request_extends|].
      split; [done|split; [done|split; [|split]]]; try by destruct rq.
      intros reply [= <-]. by exists [].
  - intros [= <- <-].
    split; [rewrite <- Hr; apply after_request_extends|].
    split; [done|split; [done|split; [|split]]]; try by destruct rq.
    intros reply [= <-]. by exists [].
Qed.

Lemma last_initiation_app_quiet a b :
  initiations b = [] -> last_initiation (a ++ b) = last_initiation a.
Proof.
  unfold last_initiation. rewrite initiations_app. intros ->.
  by rewrite app_nil_r.
Qed.

Lemma last_initiation_quiet_app a b :
  initiations a = [] -> last_initiation (a ++ b) = last_initiation b.
Proof. unfold last_initiation. rewrite initiations_app. by intros ->. Qed.

Lemma fetches_quiet_app a b : fetches a = [] -> fetches (a ++ b) = fetches b.
Proof. rewrite fetches_app. by intros ->. Qed.

Lemma fetches_app_quiet a b : fetches b = [] -> fetches (a ++ b) = fetches a.
Proof. rewrite fetches_app. intros ->. by rewrite app_nil_r. Qed.

Lemma limited_wait_send rq st res st' :
  repeatable rq = true ->
  send_with_retry env rq (after_wait env st) = (res, st') ->
  limited (wait_events env st ++ send_events env rq (after_wait env st)) = true.
Proof.
  intros Hrep (_ & _ & Hl & _)%send_with_retry_spec.
  unfold wait_events, limited.
  destruct (must_sleep env st); cbn [app limited_from andb]; by apply Hl.
Qed.

Lemma ensure_login_spec st ok st1 :
  ensure_login env st = (ok, st1) ->
  ∃ new, extends st st1 new
         ∧ initiations new = [] ∧ fetches new = [] ∧ limited new = true
         ∧ remaining_downloads (api st1) = remaining_downloads (api st).
Proof.
  unfold ensure_login. destruct (truthy_str (jwt_token (api st))).
  - intros [= <- <-]. exists []. split; [apply extends_refl|done].
  - intros [= <- <-]. exists (login_events env st).
    destruct (after_login_extends st) as [He Hq].
    destruct (login_events_quiet st) as (?&?&?). done.
Qed.

Lemma send_events_single_success rq st response :
  Answer response ∈ initiations (send_events env rq st) ->
  status_code response = 200%Z ->
  last (initiations (send_events env rq st)) = Some (Answer response).
Proof.
  unfold send_events.
  destruct (reply_to env rq st) as [r1|] eqn:Hr.
  - destruct (status_code r1 =? 429)%Z eqn:E429.
    + apply Z.eqb_eq in E429.
      destruct (retry_after r1) as [[w|]|].
      * destruct (Qle_bool 0 (inject_Z w)).
        -- destruct rq; cbn; try by intros ?%elem_of_nil.
           intros [[= <-]|[Hin|Hin%elem_of_nil]%elem_of_cons]%elem_of_cons H200;
             try done; congruence.
        -- destruct rq; cbn; try by intros ?%elem_of_nil.
           by intros [[= <-]|Hin%elem_of_nil]%elem_of_cons.
      * destruct rq; cbn; try by intros ?%elem_of_nil.
        by intros [[= <-]|Hin%elem_of_nil]%elem_of_cons.
      * destruct rq; cbn; try by intros ?%elem_of_nil.
        by intros [[= <-]|Hin%elem_of_nil]%elem_of_cons.
    + destruct rq; cbn; try by intros ?%elem_of_nil.
      by intros [[= <-]|Hin%elem_of_nil]%elem_of_cons.
  - destruct rq; cbn; try by intros ?%elem_of_nil.
    by intros [[=]|Hin%elem_of_nil]%elem_of_cons.
Qed.

Lemma attempt_spec file_id st step st' :
  attempt env file_id st = (step, st') ->
  ∃ new,
    pass_facts st st' new
    ∧ match step with
      | Relogged =>
          ∃ response, last_initiation new = Some (Answer response)
                      ∧ status_code response = 401%Z
      | Finished res => success_facts file_id new res
      end.
Proof.
  unfold attempt, pass_facts, success_facts.
  destruct (ensure_login env st) as [ok st1] eqn:He.
  destruct (ensure_login_spec _ _ _ He) as (E0 & Hext0 & Hi0 & Hf0 & Hl0 & Hq0).
  assert (∃ new,
    (extends st st1 new ∧ limited new = true
     ∧ remaining_downloads (api st1)
       = tracked_after (remaining_downloads (api st)) new
     ∧ fetches new = due_fetches new
     ∧ (∀ response, Answer response ∈ initiations new ->
          status_code response = 200%Z ->
          last_initiation new = Some (Answer response)))
    ∧ (∀ response, last_initiation new = Some (Answer response) -> False))
    as Hstop.
  { exists E0. unfold tracked_after, due_fetches, last_initiation.
    rewrite Hi0, Hf0. cbn. split; [|done].
    split; [done|split; [done|split; [done|split; [done|]]]].
    by intros r ?%elem_of_nil. }
  destruct ok; cbn [negb]; cycle 1.
  { intros [= <- <-]. destruct Hstop as (new & ? & Hno).
    exists new. split; [done|split; [done|]].
    intros r Hr; by destruct (Hno r). }
  destruct (quota_exhausted st1).
  { intros [= <- <-]. destruct Hstop as (new & ? & Hno).
    exists new. split; [done|split; [done|]].
    intros r Hr; by destruct (Hno r). }
  clear Hstop. cbv zeta.
  set (rq := PostDownload (jwt_token (api st1)) file_id).
  destruct (send_with_retry env rq (after_wait env st1)) as [res2 st2] eqn:Hs.
  pose proof (send_with_retry_spec _ _ _ _ Hs)
    as (Hext2 & Hapi2 & _ & Hfs & Hend & Hinit).
  pose proof (limited_wait_send rq _ _ _ eq_refl Hs) as Hlim.
  pose proof (send_events_single_success rq (after_wait env st1)) as Hsingle.
  set (W := wait_events env st1) in *.
  set (S := send_events env rq (after_wait env st1)) in *.
  destruct (wait_events_quiet st1) as [HiW HfW]. fold W in HiW, HfW.
  cbn [rq] in Hfs, Hinit.
  assert (extends st st2 (E0 ++ W ++ S)) as Hext.
  { eapply extends_trans; [exact Hext0|].
    eapply extends_trans; [apply after_wait_extends|exact Hext2]. }
  assert (limited (E0 ++ W ++ S) = true) as Hlimited by by apply limited_app.
  assert (fetches (E0 ++ W ++ S) = []) as Hfetch.
  { by rewrite !fetches_app, Hf0, HfW, Hfs. }
  assert (initiations (E0 ++ W ++ S) = initiations S) as Hinits.
  { by rewrite !initiations_app, Hi0, HiW. }
  assert (∀ T, initiations T = [] ->
               initiations ((E0 ++ W ++ S) ++ T) = initiations S)
    as HinitsT.
  { intros T HT. by rewrite initiations_app, HT, app_nil_r. }
  assert (last_initiation (E0 ++ W ++ S) = last (initiations S)) as Hlast.
  { unfold last_initiation. by rewrite Hinits. }
  assert (∀ T, initiations T = [] ->
               last_initiation ((E0 ++ W ++ S) ++ T) = last (initiations S))
    as HlastT.
  { intros T HT. unfold last_initiation. by rewrite HinitsT. }
  assert (remaining_downloads (api st2) = remaining_downloads (api st)) as Hq2.
  { by rewrite Hapi2. }
  assert (∀ new, initiations new = initiations S ->
            ∀ response, Answer response ∈ initiations new ->
              status_code response = 200%Z ->
              last_initiation new = Some (Answer response)) as Hone.
  { intros new Hnew r Hin H200. unfold last_initiation.
    rewrite Hnew in *. by apply Hsingle. }
  destruct res2 as [[response|]|e].
  - (* an answer to go on with *)
    destruct (Hend _ eq_refl) as [pre Hpre].
    destruct (status_code response =? 200)%Z eqn:E200.
    + apply Z.eqb_eq in E200 as H200.
      destruct (truthy_str (json_link response)) eqn:Elink.
      * intros [= <- <-].
        exists ((E0 ++ W ++ S) ++ [EvRequest (GetLink (default "" (json_link response)))
                   (reply_to env (GetLink (default "" (json_link response)))
                      (with_api (refresh_quota response) st2))]).
        split; [split; [|split; [|split; [|split]]]|split].
        -- eapply extends_trans; [exact Hext|].
           rewrite <- (app_nil_l [_]).
           eapply extends_trans; [apply with_api_quota_extends|].
           apply after_request_extends.
        -- assert (E0 ++ W ++ S = (E0 ++ W ++ pre) ++ [EvRequest rq (Answer response)])
             as HS by (rewrite Hpre; by rewrite <- !app_assoc).
           rewrite HS in Hlimited |- *. by apply limited_fetch.
        -- unfold tracked_after. rewrite HlastT, Hinit by done.
           cbn. rewrite E200. by rewrite Hq2.
        -- unfold due_fetches. rewrite HlastT, Hinit by done.
           rewrite fetches_app, Hfetch, E200, Elink. done.
        -- apply Hone. by apply HinitsT.
        -- intros c Hc. injection Hc as Hc. unfold fetched in Hc.
           destruct (reply_to env _ _) as [sub|]; [|done].
           destruct (status_code sub =? 200)%Z eqn:Es; [|done].
           injection Hc as <-.
           exists (E0 ++ W ++ pre), (jwt_token (api st1)), response, sub.
           split; [|by apply Z.eqb_eq in Es].
           rewrite Hpre. by rewrite <- !app_assoc.
        -- intros r Hr _ Hn. rewrite HlastT, Hinit in Hr by done.
           injection Hr as <-. congruence.
      * intros [= <- <-]. exists (E0 ++ W ++ S).
        split; [split; [|split; [done|split; [|split]]]|split].
        -- rewrite <- (app_nil_r (_ ++ _)).
           eapply extends_trans; [exact Hext|apply with_api_quota_extends].
        -- unfold tracked_after. rewrite Hlast, Hinit.
           cbn. rewrite E200. by rewrite Hq2.
        -- unfold due_fetches. rewrite Hlast, Hinit, E200, Elink. done.
        -- by apply Hone.
        -- done.
        -- intros r Hr _ _. rewrite Hlast, Hinit in Hr. injection Hr as <-.
           split; [done|]. exists (E0 ++ W ++ pre), (jwt_token (api st1)).
           rewrite Hpre. by rewrite <- !app_assoc.
    + assert (status_code response ≠ 200%Z) as Hne by by apply Z.eqb_neq.
      destruct (status_code response =? 401)%Z eqn:E401.
      * set (st3 := with_api (set_jwt_token None) st2).
        destruct (after_login_extends st3) as [HextL HqL].
        destruct (login_events_quiet st3) as (HiL & HfL & HlL).
        assert (∃ new,
          (extends st (after_login env st3) new ∧ limited new = true
           ∧ remaining_downloads (api (after_login env st3))
             = tracked_after (remaining_downloads (api st)) new
           ∧ fetches new = due_fetches new
           ∧ (∀ response, Answer response ∈ initiations new ->
                status_code response = 200%Z ->
                last_initiation new = Some (Answer response)))
          ∧ last_initiation new = Some (Answer response)) as (new & ? & Hl).
        { exists ((E0 ++ W ++ S) ++ login_events env st3).
          split; [split; [|split; [|split; [|split]]]|].
          - eapply extends_trans; [exact Hext|].
            rewrite <- (app_nil_l (login_events _ _)).
            eapply extends_trans; [apply with_api_jwt_extends|exact HextL].
          - by apply limited_app.
          - unfold tracked_after. rewrite HlastT, Hinit by done.
            rewrite E200, HqL. exact Hq2.
          - unfold due_fetches. rewrite HlastT, Hinit by done.
            rewrite fetches_app, Hfetch, HfL, E200. done.
          - apply Hone. by apply HinitsT.
          - by rewrite HlastT, Hinit. }
        destruct (login_ok env st3); intros [= <- <-]; exists new.
        -- split; [done|]. exists response. split; [done|]. by apply Z.eqb_eq.
        -- split; [done|split; [done|]].
           intros r Hr; rewrite Hl in Hr; injection Hr as <-; done.
      * intros [= <- <-]. exists (E0 ++ W ++ S).
        split; [split; [done|split; [done|split; [|split]]]|split].
        -- unfold tracked_after. rewrite Hlast, Hinit, E200. exact Hq2.
        -- unfold due_fetches. rewrite Hlast, Hinit, E200. done.
        -- by apply Hone.
        -- done.
        -- intros r Hr. rewrite Hlast, Hinit in Hr. injection Hr as <-. done.
  - (* the request raised *)
    intros [= <- <-]. exists (E0 ++ W ++ S).
    split; [split; [done|split; [done|split; [|split]]]|split].
    + unfold tracked_after. rewrite Hlast, Hinit. exact Hq2.
    + unfold due_fetches. by rewrite Hlast, Hinit.
    + by apply Hone.
    + done.
    + intros r Hr. by rewrite Hlast, Hinit in Hr.
  - (* a Retry-After that cannot be slept *)
    destruct Hinit as (r429 & Hinit & H429).
    intros [= <- <-]. exists (E0 ++ W ++ S).
    split; [split; [done|split; [done|split; [|split]]]|split].
    + unfold tracked_after. rewrite Hlast, Hinit, H429. exact Hq2.
    + unfold due_fetches. by rewrite Hlast, Hinit, H429.
    + by apply Hone.
    + done.
    + intros r Hr. rewrite Hlast, Hinit in Hr. injection Hr as <-.
      by rewrite H429.
Qed.

Lemma search_subtitles_eq query imdb_id tmdb_id langs file_size season episode st :
  search_subtitles env query imdb_id tmdb_id langs file_size season episode st
  = match send_with_retry env
            (GetSubtitles (search_params query imdb_id tmdb_id langs
                                         file_size season episode))
            (after_wait env st) with
    | (Raise e, st') => (Raise e, st')
    | (Ok RequestException, st') => (Ok None, st')
    | (Ok (Answer response), st') => (Ok (search_result response), st')
    end.
Proof.
  unfold search_subtitles. rewrite bind_wait. cbv zeta. rewrite bind_request.
  unfold send_with_retry.
  set (rq := GetSubtitles _).
  assert (∀ (reply : Reply) (st2 : State),
    (match reply with
     | Answer response =>
         if (status_code response =? 200)%Z
         then ret (Some (default [] (json_data response)))
         else if (status_code response =? 401)%Z then ret None
         else if (status_code response =? 406)%Z then ret (Some [])
         else ret None
     | RequestException => ret None
     end) st2
    = match reply with
      | RequestException => (Ok None, st2)
      | Answer response => (Ok (search_result response), st2)
      end) as Htail.
  { intros [response|] st2; [|done]. unfold search_result.
    destruct (status_code response =? 200)%Z; [done|].
    destruct (status_code response =? 401)%Z; [done|].
    by destruct (status_code response =? 406)%Z. }
  destruct (reply_to env rq (after_wait env st)) as [response|]; [|done].
  rewrite handle_then_resend_eq.
  destruct (status_code response =? 429)%Z;
    [destruct (retry_after response) as [[wait_time|]|];
     [destruct (Qle_bool 0 (inject_Z wait_time)); [|done]|done|]|].
  - match goal with
    | |- context [reply_to env ?rq (after_sleep ?w ?s)] =>
        exact (Htail (reply_to env rq (after_sleep w s)) _)
    end.
  - exact (Htail (Answer response) _).
  - exact (Htail (Answer response) _).
Qed.

Lemma search_subtitles_spec query imdb_id tmdb_id langs file_size season episode
    st res st' :
  search_subtitles env query imdb_id tmdb_id langs file_size season episode st
  = (res, st') ->
  ∃ new, extends st st' new ∧ limited new = true
         ∧ api st' = set_last_request_time (granted env st) (api st)
         ∧ initiations new = [] ∧ fetches new = []
         ∧ attempts new = [] ∧ saved new = [].
Proof.
  rewrite search_subtitles_eq. set (rq := GetSubtitles _).
  destruct (send_with_retry env rq (after_wait env st)) as [res2 st2] eqn:Hs.
  pose proof (send_with_retry_spec _ _ _ _ Hs) as (Hext & Hapi & _ & Hf & _ & Hi).
  pose proof (limited_wait_send rq _ _ _ eq_refl Hs) as Hlim.
  destruct (wait_events_quiet st) as [HiW HfW].
  assert (∃ new, extends st st2 new ∧ limited new = true
                 ∧ api st2 = set_last_request_time (granted env st) (api st)
                 ∧ initiations new = [] ∧ fetches new = []
                 ∧ attempts new = [] ∧ saved new = []) as Hgoal.
  { exists (wait_events env st ++ send_events env rq (after_wait env st)).
    split; [eapply extends_trans; [apply after_wait_extends|exact Hext]|].
    split; [done|]. split; [by rewrite Hapi|].
    cbn [rq] in Hi, Hf.
    rewrite initiations_app, fetches_app, attempts_app, saved_app, HiW, HfW, Hi, Hf.
    unfold wait_events, send_events.
    destruct (must_sleep env st); cbn [app];
      destruct (reply_to env rq (after_wait env st)) as [response|]; try done;
      destruct (status_code response =? 429)%Z; try done;
      destruct (retry_after response) as [[wait_time|]|]; try done;
      by destruct (Qle_bool 0 _). }
  destruct res2 as [[response|]|e]; intros [= <- <-]; exact Hgoal.
Qed.

Lemma login_spec st ok st' :
  login env st = (Ok ok, st') ->
  extends st st' (login_events env st)
  ∧ each_request_acquired (login_events env st)
  ∧ limited (login_events env st) = true.
Proof.
  rewrite login_eq. intros [= <- <-].
  split; [apply after_login_extends|].
  split; [|apply login_events_quiet].
  unfold login_events, wait_events. intros pre rq rp post.
  destruct (has_credentials st).
  - destruct (must_sleep env st); cbn [app]; intros Heq.
    + destruct pre as [|e1 [|e2 [|e3 pre]]]; try discriminate Heq.
      * injection Heq as <- <- <-. by exists [EvSleep (sleep_time env st)], (granted env st).
      * injection Heq as _ _ _ Heq. by destruct pre.
    + destruct pre as [|e1 [|e2 pre]]; try discriminate Heq.
      * injection Heq as <- <- <-. by exists [], (granted env st).
      * injection Heq as _ _ Heq. by destruct pre.
  - intros Heq. by destruct pre.
Qed.

(** Every call of [download_subtitle], whatever the depth. *)
Lemma download_subtitle_spec depth : ∀ file_id st res st',
  download_subtitle env depth file_id st = (res, st') ->
  ∃ new, pass_facts st st' new ∧ success_facts file_id new res.
Proof.
  induction depth as [|depth IH]; intros file_id st res st'.
  - intros [= <- <-]. exists []. split; [|done].
    split; [apply extends_refl|]. split; [done|split; [done|split; [done|]]].
    by intros r ?%elem_of_nil.
  - rewrite download_subtitle_S.
    destruct (attempt env file_id st) as [[res1|] st1] eqn:Ha.
    + intros [= <- <-]. exact (attempt_spec _ _ _ _ Ha).
    + intros Hrec.
      destruct (attempt_spec _ _ _ _ Ha)
        as (new1 & (Hext1 & Hlim1 & Hq1 & Hf1 & Hone1) & r401 & Hlast1 & H401).
      destruct (IH _ _ _ _ Hrec)
        as (new2 & (Hext2 & Hlim2 & Hq2 & Hf2 & Hone2) & Hok2 & Hnolink2).
      assert ((status_code r401 =? 200)%Z = false) as E200
        by (rewrite H401; done).
      assert (remaining_downloads (api st1) = remaining_downloads (api st)) as Hq1'.
      { rewrite Hq1. unfold tracked_after. by rewrite Hlast1, E200. }
      assert (fetches new1 = []) as Hf1'.
      { rewrite Hf1. unfold due_fetches. by rewrite Hlast1, E200. }
      assert (last_initiation (new1 ++ new2)
              = match last_initiation new2 with
                | Some y => Some y
                | None => Some (Answer r401)
                end) as Hlast.
      { unfold last_initiation in *. rewrite initiations_app, last_app.
        by rewrite Hlast1. }
      exists (new1 ++ new2).
      split; [split; [|split; [|split; [|split]]]|split].
      * by eapply extends_trans.
      * by apply limited_app.
      * rewrite Hq2, Hq1'. unfold tracked_after. rewrite Hlast.
        destruct (last_initiation new2); [done|]. by rewrite E200.
      * rewrite fetches_quiet_app, Hf2 by done. unfold due_fetches.
        rewrite Hlast. destruct (last_initiation new2); [done|].
        by rewrite E200.
      * intros r Hin H200. rewrite initiations_app in Hin.
        apply elem_of_app in Hin as [Hin|Hin].
        -- pose proof (Hone1 r Hin H200) as Hr. rewrite Hlast1 in Hr.
           injection Hr as <-. congruence.
        -- rewrite Hlast. by rewrite (Hone2 r Hin H200).
      * intros c Hc.
        destruct (Hok2 c Hc) as (pre & b & response & sub & -> & Hrest).
        exists (new1 ++ pre), b, response, sub. by rewrite <- app_assoc.
      * intros response Hl H200 Hn. rewrite Hlast in Hl.
        destruct (last_initiation new2) as [y|] eqn:Hl2.
        -- injection Hl as ->.
           destruct (Hnolink2 response eq_refl H200 Hn) as (-> & pre & b & ->).
           split; [done|]. exists (new1 ++ pre), b. by rewrite <- app_assoc.
        -- injection Hl as <-. congruence.
Qed.

End Attempt.

(** ** The claims about the API client *)

Lemma run_pair {A} (run : Result A * State) : run = (fst run, snd run).
Proof. by destruct run. Qed.

Lemma extends_new st st' new new' :
  Effect.extends st st' new ->
  trace (world st') = trace (world st) ++ new' -> new' = new.
Proof. intros (Ht & _) Ht'. rewrite Ht in Ht'. by apply app_inv_head in Ht'. Qed.

(** C1 (the code does not stop after one retry): with a token held, the
    provider answers the first two download requests with 401 and accepts
    every login.  The claim makes the second 401 a terminal failure; the
    code logs in a second time, sends a third download request and returns
    the subtitle. *)
Theorem C1_second_unauthorized_starts_another_login :
  let env := Scenario.with_net (Scenario.stale_net 4) [] in
  let run := OpenSubtitlesAPI.download_subtitle env 3 22 Scenario.logged_in in
  fst run = Ok (Some Scenario.subtitle_bytes)
  ∧ Effect.initiations (trace (world (snd run)))
    = [Answer (Scenario.status_only 401); Answer (Scenario.status_only 401);
       Answer (Scenario.ok_link 4)]
  ∧ Effect.logins (trace (world (snd run)))
    = [Answer Scenario.ok_login; Answer Scenario.ok_login]
  ∧ Effect.fetches (trace (world (snd run))) = ["https://dl/file"].
Proof. vm_compute. done. Qed.

(** C10: when the answer to the download-initiation request of a call has
    status 200 and no link, [download_subtitle] returns [None], that request
    is the last event of the call (nothing is fetched), and the tracked quota
    is the [remaining] value of that answer (unchanged if the answer has
    none).  Only the last initiation request of a call can be answered with
    status 200. *)
Theorem C10_no_link_returns_none_and_refreshes_quota :
  ∀ (env : Env) (depth : nat) (file_id : Z) (st : State)
    (res : Result (option bytes)) (st' : State),
    OpenSubtitlesAPI.download_subtitle env depth file_id st = (res, st') →
    ∃ new,
      trace (world st') = trace (world st) ++ new
      ∧ ∀ response,
          Answer response ∈ Effect.initiations new →
          status_code response = 200%Z →
          truthy_str (json_link response) = false →
          res = Ok None
          ∧ (∃ pre bearer,
               new = pre ++ [EvRequest (PostDownload bearer file_id) (Answer response)])
          ∧ Effect.fetches new = []
          ∧ remaining_downloads (api st')
            = match json_remaining response with
              | Some r => Some r
              | None => remaining_downloads (api st)
              end.
Proof.
  intros env depth file_id st res st' Hrun.
  destruct (download_subtitle_spec env depth _ _ _ _ Hrun)
    as (new & (Hext & _ & Hq & Hf & Hone) & _ & Hnolink).
  exists new. split; [apply Hext|].
  intros response Hin H200 Hlink.
  pose proof (Hone response Hin H200) as Hlast.
  destruct (Hnolink response Hlast H200 Hlink) as [Hres Hend].
  split; [done|split; [done|split]].
  - rewrite Hf. unfold Effect.due_fetches. by rewrite Hlast, Hlink, andb_false_r.
  - rewrite Hq. unfold Effect.tracked_after. rewrite Hlast.
    by apply Z.eqb_eq in H200 as ->.
Qed.

Lemma C10_no_link_witness :
  let env := Scenario.with_net Scenario.linkless_net [] in
  let run := OpenSubtitlesAPI.download_subtitle env 1 22 Scenario.logged_in in
  fst run = Ok None
  ∧ Effect.fetches (trace (world (snd run))) = []
  ∧ remaining_downloads (api (snd run)) = Some 3%Z.
Proof.
  intros env run.
  destruct (C10_no_link_returns_none_and_refreshes_quota env 1 22
              Scenario.logged_in (fst run) (snd run) (run_pair run))
    as (new & Hnew & Hfacts).
  assert (trace (world (snd run)) = new) as Hn by exact Hnew.
  destruct (Hfacts (mkResponse 200 None None None (Some 3%Z) None []))
    as (Hres & _ & Hfetch & Hquota).
  - rewrite <- Hn. vm_compute. left.
  - reflexivity.
  - reflexivity.
  - split; [exact Hres|]. split; [|exact Hquota].
    rewrite Hn. exact Hfetch.
Defined.

(** C7 as the claim states it fails: in a download that succeeds, the
    request that fetches the signed URL follows the initiation request
    directly, with no pass through the rate limiter in between. *)
Lemma C7_signed_url_fetched_without_acquire :
  let env := Scenario.with_net Scenario.provider_net [] in
  let run := OpenSubtitlesAPI.download_subtitle env 1 22 Scenario.logged_in in
  fst run = Ok (Some Scenario.subtitle_bytes)
  ∧ ¬ Effect.each_request_acquired (trace (world (snd run))).
Proof.
  intros env run. split; [vm_compute; reflexivity|].
  intros Hall.
  assert (∃ t, trace (world (snd run))
               = [EvAcquire t;
                  EvRequest (PostDownload (Some "token0") 22)
                            (Answer (Scenario.ok_link 4))]
                 ++ EvRequest (GetLink "https://dl/file") (Answer Scenario.ok_file)
                 :: []) as [t Htrace].
  { eexists. vm_compute. reflexivity. }
  destruct (Hall _ _ _ _ Htrace) as (pre' & t' & Hpre).
  destruct pre' as [|e1 [|e2 [|e3 pre']]]; discriminate Hpre.
Qed.

(** A login request can only stand directly after a pass through the rate
    limiter: neither exemption of [Effect.acquired_or_exempt] is open to it. *)
Lemma login_requests_acquired tr :
  Effect.acquired_or_exempt tr ->
  ∀ pre username password rp post,
    tr = pre ++ EvRequest (PostLogin username password) rp :: post ->
    ∃ pre' t, pre = pre' ++ [EvAcquire t].
Proof.
  intros Hall pre username password rp post Htr.
  destruct (Hall _ _ _ _ Htr)
    as [H|[(? & ? & ? & ? & ? & H & _)|(? & ? & ? & ? & H & _)]];
    [done|discriminate H|discriminate H].
Qed.

(** C7 (as the code has it): every call of [login], [search_subtitles] and
    [download_subtitle] passes the rate limiter directly before the first
    request of each attempt: every login request, and the first sending of
    a search request and of a download-initiation request, come right after
    the limiter returned.  Only two kinds of request are sent without a new
    pass, as [Effect.acquired_or_exempt] spells out: the fetch of the signed
    URL, which stands directly after the initiation request whose answer had
    status 200 and carried that very link; and one repeat of a search or
    initiation request, which stands directly after the sleep of the
    [Retry-After] seconds that the 429 answer to its first sending asked
    for, that first sending standing directly after the limiter returned (so
    a repeat is never repeated).  A search sends no fetch. *)
Theorem C7_rate_limiter_before_first_request_of_each_call :
  ∀ (env : Env) (st : State),
    (∃ ok st' new,
       OpenSubtitlesAPI.login env st = (Ok ok, st')
       ∧ trace (world st') = trace (world st) ++ new
       ∧ Effect.each_request_acquired new)
    ∧ (∀ query imdb_id tmdb_id langs file_size season episode res st',
         OpenSubtitlesAPI.search_subtitles env query imdb_id tmdb_id langs
                                           file_size season episode st
         = (res, st') →
         ∃ new, trace (world st') = trace (world st) ++ new
                ∧ Effect.acquired_or_exempt new ∧ Effect.fetches new = [])
    ∧ (∀ depth file_id res st',
         OpenSubtitlesAPI.download_subtitle env depth file_id st = (res, st') →
         ∃ new, trace (world st') = trace (world st) ++ new
                ∧ Effect.acquired_or_exempt new
                ∧ (∀ pre username password rp post,
                     new = pre ++ EvRequest (PostLogin username password) rp
                                  :: post →
                     ∃ pre' t, pre = pre' ++ [EvAcquire t])).
Proof.
  intros env st. split; [|split].
  - exists (Effect.login_ok env st), (Effect.after_login env st),
           (Effect.login_events env st).
    split; [apply login_eq|].
    destruct (login_spec env st _ _ (login_eq env st)) as ((Ht & _) & Hacq & _).
    done.
  - intros query imdb_id tmdb_id langs file_size season episode res st' Hrun.
    destruct (search_subtitles_spec env _ _ _ _ _ _ _ _ _ _ Hrun)
      as (new & (Ht & _) & Hlim & _ & _ & Hf & _).
    exists new. split; [done|]. split; [|done].
    by apply limited_spec.
  - intros depth file_id res st' Hrun.
    destruct (download_subtitle_spec env depth _ _ _ _ Hrun)
      as (new & ((Ht & _) & Hlim & _) & _).
    exists new. split; [done|].
    split; [by apply limited_spec|].
    by apply login_requests_acquired, limited_spec.
Qed.

Lemma C7_rate_limiter_witness :
  let env := Scenario.with_net Scenario.provider_net [] in
  let run := OpenSubtitlesAPI.download_subtitle env 1 22 Scenario.logged_in in
  ∃ new, trace (world (snd run)) = new
         ∧ Effect.requests new
           = [PostDownload (Some "token0") 22; GetLink "https://dl/file"].
Proof.
  intros env run.
  destruct (C7_rate_limiter_before_first_request_of_each_call env Scenario.logged_in)
    as (_ & _ & Hdownload).
  destruct (Hdownload 1%nat 22%Z (fst run) (snd run) (run_pair run))
    as (new & Hnew & _).
  exists new. split; [exact Hnew|].
  assert (trace (world (snd run)) = new) as <- by exact Hnew.
  vm_compute. reflexivity.
Defined.

(** With the quota known to be used up, a call sends no download request;
    it returns at once if a token is held and after the login otherwise. *)
Lemma quota_exhausted_fail_fast env depth file_id st :
  Effect.quota_exhausted st = true ->
  OpenSubtitlesAPI.download_subtitle env (S depth) file_id st
  = (Ok None, if truthy_str (jwt_token (api st)) then st
              else Effect.after_login env st).
Proof.
  intros Hq. rewrite download_subtitle_S.
  unfold Effect.attempt, Effect.ensure_login.
  destruct (truthy_str (jwt_token (api st))); cbn [negb].
  - by rewrite Hq.
  - destruct (Effect.login_ok env st); cbn [negb]; [|done].
    assert (Effect.quota_exhausted (Effect.after_login env st) = true) as ->; [|done].
    unfold Effect.quota_exhausted in *.
    by rewrite (proj2 (after_login_extends env st)).
Qed.

Lemma requests_login_events env st :
  Effect.requests (Effect.login_events env st)
  = if Effect.has_credentials st then [Effect.login_request st] else [].
Proof.
  unfold Effect.login_events, Effect.wait_events.
  destruct (Effect.has_credentials st); [|done].
  by destruct (Effect.must_sleep env st).
Qed.

(** C3 as the claim states it fails: a client whose login answer carried no
    token downloads once, learns that nothing remains, and on the next call
    sends a login request before it looks at the quota. *)
Lemma C3_login_request_despite_zero_quota :
  let env := Scenario.with_net Scenario.tokenless_net [] in
  let first := OpenSubtitlesAPI.download_subtitle env 1 22 (Scenario.fresh [] ∅) in
  let second := OpenSubtitlesAPI.download_subtitle env 1 22 (snd first) in
  fst first = Ok (Some Scenario.subtitle_bytes)
  ∧ remaining_downloads (api (snd first)) = Some 0%Z
  ∧ fst second = Ok None
  ∧ Effect.requests (drop (length (trace (world (snd first))))
                          (trace (world (snd second))))
    = [PostLogin (Some "user") (Some "secret")]
  ∧ ¬ (Effect.requests (drop (length (trace (world (snd first))))
                             (trace (world (snd second)))) = []).
Proof. vm_compute. repeat split; done. Qed.

(** C3 (as the code has it): after every call of [download_subtitle] the
    tracked quota is the one before the call, unless the download-initiation
    request was answered with status 200; then it is the [remaining] value of
    that answer (the old value if the answer has none), so in particular
    after every successful download.  The client changes it in no other way.
    Once the tracked quota is zero or less, a call returns [None] without a
    download request: with a token held it does nothing at all, without one
    it first sends the login request. *)
Theorem C3_quota_tracks_provider_and_stops_downloads :
  ∀ (env : Env) (depth : nat) (file_id : Z) (st : State),
    (∀ res st',
       OpenSubtitlesAPI.download_subtitle env depth file_id st = (res, st') →
       ∃ new,
         trace (world st') = trace (world st) ++ new
         ∧ remaining_downloads (api st')
           = Effect.tracked_after (remaining_downloads (api st)) new
         ∧ (∀ response, Answer response ∈ Effect.initiations new →
              status_code response = 200%Z →
              Effect.last_initiation new = Some (Answer response))
         ∧ (∀ c, res = Ok (Some c) →
              ∃ response,
                Effect.last_initiation new = Some (Answer response)
                ∧ status_code response = 200%Z
                ∧ remaining_downloads (api st')
                  = match json_remaining response with
                    | Some r => Some r
                    | None => remaining_downloads (api st)
                    end))
    ∧ (∀ r, remaining_downloads (api st) = Some r → (r <= 0)%Z →
         ∃ st' new,
           OpenSubtitlesAPI.download_subtitle env (S depth) file_id st
           = (Ok None, st')
           ∧ trace (world st') = trace (world st) ++ new
           ∧ remaining_downloads (api st') = Some r
           ∧ Effect.initiations new = [] ∧ Effect.fetches new = []
           ∧ Effect.requests new
             = (if truthy_str (jwt_token (api st)) then []
                else if Effect.has_credentials st
                     then [PostLogin (username (api st)) (password (api st))]
                     else [])
           ∧ (truthy_str (jwt_token (api st)) = true → st' = st)).
Proof.
  intros env depth file_id st. split.
  - intros res st' Hrun.
    destruct (download_subtitle_spec env depth _ _ _ _ Hrun)
      as (new & ((Ht & _) & _ & Hq & _ & Hone) & Hok & _).
    exists new. split; [done|split; [done|split; [done|]]].
    intros c Hc. destruct (Hok c Hc) as (pre & b & response & sub & Hnew & H200 & _).
    assert (Effect.last_initiation new = Some (Answer response)) as Hlast.
    { unfold Effect.last_initiation. rewrite Hnew, initiations_app. cbn.
      by rewrite last_snoc. }
    exists response. split; [done|split; [done|]].
    rewrite Hq. unfold Effect.tracked_after. rewrite Hlast.
    by apply Z.eqb_eq in H200 as ->.
  - intros r Hr Hle.
    assert (Effect.quota_exhausted st = true) as Hq.
    { unfold Effect.quota_exhausted. rewrite Hr. by apply Z.leb_le. }
    rewrite (quota_exhausted_fail_fast env depth file_id st Hq).
    destruct (truthy_str (jwt_token (api st))).
    + exists st, []. rewrite app_nil_r. done.
    + exists (Effect.after_login env st), (Effect.login_events env st).
      destruct (after_login_extends env st) as [(Ht & _) Hrem].
      destruct (login_events_quiet env st) as (Hi & Hf & _).
      rewrite Hrem, requests_login_events. done.
Qed.

Lemma C3_quota_witness :
  let env := Scenario.with_net Scenario.provider_net [] in
  let spent :=
    mkState (mkClient (Some "user") (Some "secret") (Some "token0") 0 1 (Some 0%Z))
            ["en"] [] (mkWorld 1000 0 0 ∅ []) in
  OpenSubtitlesAPI.download_subtitle env 1 22 spent = (Ok None, spent)
  ∧ remaining_downloads
      (api (snd (OpenSubtitlesAPI.download_subtitle env 1 22 Scenario.logged_in)))
    = Some 4%Z.
Proof.
  intros env spent. split.
  - destruct (C3_quota_tracks_provider_and_stops_downloads env 0 22 spent)
      as [_ Hfast].
    destruct (Hfast 0%Z eq_refl (Z.le_refl 0)) as (st' & new & Hrun & _ & _ & _ & _ & _ & Hsame).
    rewrite Hrun. by rewrite (Hsame eq_refl).
  - destruct (C3_quota_tracks_provider_and_stops_downloads env 1 22 Scenario.logged_in)
      as [Hlaw _].
    set (run := OpenSubtitlesAPI.download_subtitle env 1 22 Scenario.logged_in).
    destruct (Hlaw (fst run) (snd run) (run_pair run)) as (new & _ & _ & _ & Hok).
    destruct (Hok Scenario.subtitle_bytes) as (response & Hlast & _ & Hrem).
    + vm_compute. reflexivity.
    + vm_compute. reflexivity.
Defined.

(** ** The API client announces no download and writes no file *)

Section ClientOnly.
Import OpenSubtitlesAPI Effect Orchestration.
Context (env : Env).

Lemma client_only_refl st : client_only st st.
Proof. done. Qed.

Lemma client_only_with_api f st st' :
  client_only st st' -> client_only st (with_api f st').
Proof. done. Qed.

Lemma client_only_after_request rq st st' :
  client_only st st' -> client_only st (after_request env rq st').
Proof.
  unfold client_only. cbn. rewrite attempts_app, saved_app. cbn.
  by rewrite !app_nil_r.
Qed.

Lemma client_only_after_sleep w st st' :
  client_only st st' -> client_only st (after_sleep w st').
Proof.
  unfold client_only. cbn. rewrite attempts_app, saved_app. cbn.
  by rewrite !app_nil_r.
Qed.

Lemma client_only_after_wait st st' :
  client_only st st' -> client_only st (after_wait env st').
Proof.
  unfold client_only. cbn. rewrite attempts_app, saved_app.
  unfold wait_events. destruct (must_sleep env st'); cbn; by rewrite !app_nil_r.
Qed.

Lemma client_only_after_login st st' :
  client_only st st' -> client_only st (after_login env st').
Proof.
  intros H. unfold after_login. destruct (has_credentials st'); [|done].
  assert (client_only st (after_request env (login_request st') (after_wait env st')))
    by by apply client_only_after_request, client_only_after_wait.
  destruct (login_reply env st') as [response|]; [|done].
  by destruct (status_code response =? 200)%Z.
Qed.

Lemma client_only_send rq st st' res st'' :
  send_with_retry env rq st' = (res, st'') ->
  client_only st st' -> client_only st st''.
Proof.
  unfold send_with_retry. intros Hs H.
  pose proof (client_only_after_request rq _ _ H) as H1.
  pose proof (client_only_after_request rq _ _
                (client_only_after_sleep (inject_Z 0) _ _ H1)) as _.
  destruct (reply_to env rq st') as [response|]; [|by injection Hs as <- <-].
  destruct (status_code response =? 429)%Z; [|by injection Hs as <- <-].
  destruct (retry_after response) as [[w|]|];
    [|by injection Hs as <- <-|by injection Hs as <- <-].
  destruct (Qle_bool 0 (inject_Z w)); injection Hs as <- <-; [|done].
  by apply client_only_after_request, client_only_after_sleep.
Qed.

Lemma client_only_attempt file_id st step st' :
  attempt env file_id st = (step, st') -> client_only st st'.
Proof.
  unfold attempt, ensure_login.
  assert (∀ ok st1, client_only st st1 ->
    (if negb ok then (Finished (Ok None), st1)
     else if quota_exhausted st1 then (Finished (Ok None), st1)
     else
       let rq := PostDownload (jwt_token (api st1)) file_id in
       match send_with_retry env rq (after_wait env st1) with
       | (Raise e, st2) => (Finished (Raise e), st2)
       | (Ok RequestException, st2) => (Finished (Ok None), st2)
       | (Ok (Answer response), st2) =>
           if (status_code response =? 200)%Z then
             let st3 := with_api (refresh_quota response) st2 in
             if truthy_str (json_link response) then
               let url := default "" (json_link response) in
               (Finished (Ok (fetched env url st3)),
                after_request env (GetLink url) st3)
             else (Finished (Ok None), st3)
           else if (status_code response =? 401)%Z then
             let st3 := with_api (set_jwt_token None) st2 in
             if login_ok env st3 then (Relogged, after_login env st3)
             else (Finished (Ok None), after_login env st3)
           else (Finished (Ok None), st2)
       end) = (step, st') -> client_only st st') as Hrest.
  { intros ok st1 H1. destruct ok; cbn [negb]; [|by intros [= <- <-]].
    destruct (quota_exhausted st1); [by intros [= <- <-]|]. cbv zeta.
    destruct (send_with_retry env _ (after_wait env st1)) as [res2 st2] eqn:Hs.
    pose proof (client_only_send _ _ _ _ _ Hs (client_only_after_wait _ _ H1)) as H2.
    destruct res2 as [[response|]|e]; [|by intros [= <- <-]..].
    destruct (status_code response =? 200)%Z.
    - destruct (truthy_str (json_link response)); intros [= <- <-]; [|done].
      by apply client_only_after_request.
    - destruct (status_code response =? 401)%Z; [|by intros [= <- <-]].
      destruct (login_ok env _); intros [= <- <-];
        by apply client_only_after_login. }
  destruct (truthy_str (jwt_token (api st))).
  - by apply Hrest.
  - by apply Hrest, client_only_after_login.
Qed.

Lemma client_only_download depth : ∀ file_id st res st',
  download_subtitle env depth file_id st = (res, st') -> client_only st st'.
Proof.
  induction depth as [|depth IH]; intros file_id st res st'.
  - by intros [= <- <-].
  - rewrite download_subtitle_S.
    destruct (attempt env file_id st) as [[res1|] st1] eqn:Ha.
    + intros [= <- <-]. by eapply client_only_attempt.
    + intros Hrec. pose proof (client_only_attempt _ _ _ _ Ha) as [H1 H2].
      destruct (IH _ _ _ _ Hrec) as [H3 H4]. split; congruence.
Qed.

Lemma client_only_search query imdb_id tmdb_id langs file_size season episode
    st res st' :
  search_subtitles env query imdb_id tmdb_id langs file_size season episode st
  = (res, st') -> client_only st st'.
Proof.
  rewrite search_subtitles_eq.
  destruct (send_with_retry env _ (after_wait env st)) as [res2 st2] eqn:Hs.
  pose proof (client_only_send _ st _ _ _ Hs
                (client_only_after_wait _ _ (client_only_refl st))) as H.
  destruct res2 as [[response|]|e]; by intros [= <- <-].
Qed.

Lemma client_only_new st st' new :
  client_only st st' -> trace (world st') = trace (world st) ++ new ->
  attempts new = [] ∧ saved new = [].
Proof.
  intros [Ha Hs] Ht. rewrite Ht, attempts_app in Ha. rewrite Ht, saved_app in Hs.
  split.
  - rewrite <- (app_nil_r (attempts (trace (world st)))) in Ha at 2.
    by apply app_inv_head in Ha.
  - rewrite <- (app_nil_r (saved (trace (world st)))) in Hs at 2.
    by apply app_inv_head in Hs.
Qed.

End ClientOnly.

(** ** The loop over the missing languages *)

Section Languages.
Import OpenSubtitlesAPI PlexSubtitleDownloader Effect Orchestration.
Context (env : Env).

Lemma bind_emit {B} e (f : unit -> M B) st :
  (emit e ≫= f) st = f tt (with_world (log_event e) st).
Proof. done. Qed.

Lemma attempts_announced lang file_id tr :
  attempts (EvAttempt lang file_id :: tr) = (lang, file_id) :: attempts tr.
Proof. done. Qed.

Lemma saved_announced lang file_id tr :
  saved (EvAttempt lang file_id :: tr) = saved tr.
Proof. done. Qed.

(** One language: the events, the records appended and the result. *)
Lemma download_language_spec depth item media_path results lang st res st' :
  download_language env depth item media_path results lang st = (res, st') ->
  ∃ new records,
    trace (world st') = trace (world st) ++ new
    ∧ languages st' = languages st
    ∧ download_report st' = download_report st ++ records
    ∧ (∀ p data, fs (world st) !! p = Some data -> data ≠ [] ->
                 ∃ data', fs (world st') !! p = Some data' ∧ data' ≠ [])
    ∧ records_match st' new records
    ∧ (∀ n, res = Ok n ->
         n = Z.of_nat (length records)
         ∧ attempts new = match chosen_file_id results lang with
                          | Some file_id => [(lang, file_id)]
                          | None => []
                          end).
Proof.
  assert (∀ st0, ∃ new records,
    trace (world st0) = trace (world st0) ++ new
    ∧ languages st0 = languages st0
    ∧ download_report st0 = download_report st0 ++ records
    ∧ (∀ p data, fs (world st0) !! p = Some data -> data ≠ [] ->
                 ∃ data', fs (world st0) !! p = Some data' ∧ data' ≠ [])
    ∧ records_match st0 new records
    ∧ new = [] ∧ records = []) as Hnothing.
  { intros st0. exists [], []. rewrite !app_nil_r.
    split; [done|split; [done|split; [done|split; [eauto|]]]].
    split; [|done]. split; [done|]. split; [done|]. constructor. }
  unfold download_language, chosen_file_id.
  destruct (select_best results lang) as [best|]; cycle 1.
  { intros [= <- <-]. destruct (Hnothing st) as (new & records & ?&?&?&?&?& -> & ->).
    exists [], []. split; [done|split; [done|split; [done|split; [done|split; [done|]]]]].
    by intros n [= <-]. }
  destruct (files best) as [[|[file_id|] rest]|].
  - (* an empty list of files *)
    intros [= <- <-]. destruct (Hnothing st) as (new & records & ?&?&?&?&?& -> & ->).
    exists [], []. split; [done|split; [done|split; [done|split; [done|split; [done|]]]]].
    by intros n [=].
  - rewrite bind_ret. destruct (file_id =? 0)%Z eqn:Ez.
    { intros [= <- <-]. destruct (Hnothing st) as (new & records & ?&?&?&?&?& -> & ->).
      exists [], []. split; [done|split; [done|split; [done|split; [done|split; [done|]]]]].
      by intros n [= <-]. }
    rewrite bind_emit.
    set (st1 := with_world (log_event (EvAttempt lang file_id)) st).
    destruct (download_subtitle env depth file_id st1) as [res2 st2] eqn:Hd.
    destruct (download_subtitle_spec env depth _ _ _ _ Hd)
      as (dl & ((Ht & _ & _ & _ & Hl & Hr & Hfs) & _) & _).
    destruct (client_only_new _ _ _ (client_only_download env depth _ _ _ _ Hd) Ht)
      as [Hadl Hsdl].
    assert (trace (world st2) = trace (world st) ++ EvAttempt lang file_id :: dl)
      as Ht2.
    { rewrite Ht. cbn. by rewrite <- app_assoc. }
    assert (attempts (EvAttempt lang file_id :: dl) = [(lang, file_id)]) as Hatt.
    { by rewrite attempts_announced, Hadl. }
    assert (∀ tail, attempts tail = [] ->
              attempts (EvAttempt lang file_id :: dl ++ tail) = [(lang, file_id)])
      as HattT.
    { intros tail Htail.
      by rewrite attempts_announced, attempts_app, Hadl, Htail. }
    assert (∀ p data, fs (world st) !! p = Some data -> data ≠ [] ->
              ∃ data', fs (world st2) !! p = Some data' ∧ data' ≠ []) as Hkeep.
    { intros p data Hp Hne. exists data. by rewrite Hfs. }
    assert (∃ new records,
      trace (world st2) = trace (world st) ++ new
      ∧ languages st2 = languages st
      ∧ download_report st2 = download_report st ++ records
      ∧ (∀ p data, fs (world st) !! p = Some data -> data ≠ [] ->
                   ∃ data', fs (world st2) !! p = Some data' ∧ data' ≠ [])
      ∧ records_match st2 new records
      ∧ records = [] ∧ attempts new = [(lang, file_id)]) as Hfailed.
    { exists (EvAttempt lang file_id :: dl), [].
      rewrite app_nil_r.
      split; [done|split; [done|split; [done|split; [done|split; [|done]]]]].
      split; [by rewrite saved_announced, Hsdl|].
      split; [cbn; lia|constructor]. }
    destruct res2 as [content|e]; cycle 1.
    { erewrite bind_Raise by exact Hd. intros [= <- <-].
      destruct Hfailed as (new & records & ?&?&?&?&?&?&?).
      exists new, records.
      split; [done|split; [done|split; [done|split; [done|split; [done|]]]]].
      by intros n [=]. }
    erewrite bind_Ok by exact Hd.
    destruct content as [[|b bs]|].
    + intros [= <- <-]. destruct Hfailed as (new & records & ?&?&?&?&?& -> &?).
      exists new, [].
      split; [done|split; [done|split; [done|split; [done|split; [done|]]]]].
      by intros n [= <-].
    + set (path := path_str (get_subtitle_path media_path lang false)).
      destruct (writable env path) eqn:Hw.
      * intros [= <- <-].
        eexists (EvAttempt lang file_id :: dl ++ [EvWrite path true]), [_].
        split; [|split; [done|split; [|split; [|split]]]].
        -- cbn. rewrite Ht2. by rewrite <- !app_assoc.
        -- cbn. by rewrite Hr.
        -- intros p data Hp Hne. cbn. destruct (decide (path = p)) as [<-|Hpp].
           ++ exists (b :: bs). by rewrite lookup_insert_eq.
           ++ exists data. rewrite lookup_insert_ne by done. by rewrite Hfs.
        -- split; [|split].
           ++ by rewrite saved_announced, saved_app, Hsdl.
           ++ rewrite HattT by done. cbn. lia.
           ++ constructor; [|constructor]. cbn [ds_language subtitle_file]. split.
              ** exists file_id. rewrite HattT by done. left.
              ** exists (b :: bs). cbn. by rewrite lookup_insert_eq.
        -- intros n [= <-]. split; [done|]. by apply HattT.
      * intros [= <- <-].
        exists (EvAttempt lang file_id :: dl ++ [EvWrite path false]), [].
        split; [|split; [done|split; [|split; [|split]]]].
        -- cbn. rewrite Ht2. by rewrite <- !app_assoc.
        -- cbn. by rewrite app_nil_r.
        -- done.
        -- split; [|split; [cbn; lia|constructor]].
           by rewrite saved_announced, saved_app, Hsdl.
        -- intros n [= <-]. split; [done|]. by apply HattT.
    + intros [= <- <-]. destruct Hfailed as (new & records & ?&?&?&?&?& -> &?).
      exists new, [].
      split; [done|split; [done|split; [done|split; [done|split; [done|]]]]].
      by intros n [= <-].
  - rewrite bind_ret.
    intros [= <- <-]. destruct (Hnothing st) as (new & records & ?&?&?&?&?& -> & ->).
    exists [], []. split; [done|split; [done|split; [done|split; [done|split; [done|]]]]].
    by intros n [= <-].
  - rewrite bind_ret.
    intros [= <- <-]. destruct (Hnothing st) as (new & records & ?&?&?&?&?& -> & ->).
    exists [], []. split; [done|split; [done|split; [done|split; [done|split; [done|]]]]].
    by intros n [= <-].
Qed.

Lemma records_match_app st1 st' new1 new2 records1 records2 :
  records_match st1 new1 records1 -> records_match st' new2 records2 ->
  (∀ p data, fs (world st1) !! p = Some data -> data ≠ [] ->
             ∃ data', fs (world st') !! p = Some data' ∧ data' ≠ []) ->
  records_match st' (new1 ++ new2) (records1 ++ records2).
Proof.
  intros (Hs1 & Hl1 & Hf1) (Hs2 & Hl2 & Hf2) Hkeep. split; [|split].
  - by rewrite map_app, saved_app, Hs1, Hs2.
  - rewrite attempts_app, !length_app. lia.
  - apply Forall_app. split.
    + eapply Forall_impl; [exact Hf1|]. cbn.
      intros r [[file_id Hin] (data & Hdata & Hne)]. split.
      * exists file_id. rewrite attempts_app. apply elem_of_app. by left.
      * by apply (Hkeep _ data).
    + eapply Forall_impl; [exact Hf2|]. cbn.
      intros r [[file_id Hin] Hfile]. split; [|done].
      exists file_id. rewrite attempts_app. apply elem_of_app. by right.
Qed.

Lemma for_lang_in_spec depth item media_path results missing :
  ∀ count st res st',
    for_lang_in env depth item media_path results missing count st = (res, st') ->
    ∃ new records,
      trace (world st') = trace (world st) ++ new
      ∧ languages st' = languages st
      ∧ download_report st' = download_report st ++ records
      ∧ (∀ p data, fs (world st) !! p = Some data -> data ≠ [] ->
                   ∃ data', fs (world st') !! p = Some data' ∧ data' ≠ [])
      ∧ records_match st' new records
      ∧ (∀ n, res = Ok n ->
           n = (count + Z.of_nat (length records))%Z
           ∧ attempts new = expected_attempts results missing).
Proof.
  induction missing as [|lang rest IH]; intros count st res st'.
  - intros [= <- <-]. exists [], []. rewrite !app_nil_r.
    split; [done|split; [done|split; [done|split; [eauto|split]]]].
    + split; [done|]. split; [done|constructor].
    + intros n [= <-]. cbn. split; [lia|done].
  - cbn [for_lang_in].
    destruct (download_language env depth item media_path results lang st)
      as [res1 st1] eqn:Hone.
    destruct (download_language_spec _ _ _ _ _ _ _ _ Hone)
      as (new1 & records1 & Ht1 & Hl1 & Hr1 & Hk1 & Hm1 & Hres1).
    destruct res1 as [n1|e].
    + erewrite bind_Ok by exact Hone. intros Hrest.
      destruct (IH _ _ _ _ Hrest)
        as (new2 & records2 & Ht2 & Hl2 & Hr2 & Hk2 & Hm2 & Hres2).
      destruct (Hres1 n1 eq_refl) as [Hn1 Ha1].
      exists (new1 ++ new2), (records1 ++ records2).
      split; [by rewrite Ht2, Ht1, app_assoc|].
      split; [congruence|].
      split; [by rewrite Hr2, Hr1, app_assoc|].
      split; [|split].
      * intros p data Hp Hne. destruct (Hk1 p data Hp Hne) as (data1 & Hp1 & Hne1).
        by apply (Hk2 p data1).
      * by apply (records_match_app st1).
      * intros n Hn. destruct (Hres2 n Hn) as [-> Ha2].
        split; [rewrite length_app; lia|].
        rewrite attempts_app, Ha1, Ha2. unfold expected_attempts. cbn.
        by destruct (chosen_file_id results lang).
    + erewrite bind_Raise by exact Hone. intros [= <- <-].
      exists new1, records1.
      split; [done|split; [done|split; [done|split; [done|split; [done|]]]]].
      by intros n [=].
Qed.

(** A whole item. *)
Lemma download_subtitles_for_item_spec depth item st res st' :
  download_subtitles_for_item env depth item st = (res, st') ->
  ∃ new records,
    trace (world st') = trace (world st) ++ new
    ∧ languages st' = languages st
    ∧ download_report st' = download_report st ++ records
    ∧ records_match st' new records
    ∧ (∀ n, res = Ok n -> n = Z.of_nat (length records)).
Proof.
  assert (∀ st0, ∃ new records,
    trace (world st0) = trace (world st0) ++ new
    ∧ languages st0 = languages st0
    ∧ download_report st0 = download_report st0 ++ records
    ∧ records_match st0 new records
    ∧ (∀ n, Ok 0%Z = Ok n -> n = Z.of_nat (length records))) as Hnothing.
  { intros st0. exists [], []. rewrite !app_nil_r.
    split; [done|split; [done|split; [done|split]]].
    - split; [done|]. split; [done|constructor].
    - by intros n [= <-]. }
  unfold download_subtitles_for_item.
  destruct (get_media_path item) as [media_path|]; [|intros [= <- <-]; apply Hnothing].
  rewrite bind_gets.
  destruct (path_exists media_path st); cbn [negb];
    [|intros [= <- <-]; apply Hnothing].
  rewrite !bind_gets.
  destruct (List.filter _ (elements (needs_subtitles (languages st) item)))
    as [|lang0 missing0] eqn:Hmissing; [intros [= <- <-]; apply Hnothing|].
  rewrite bind_gets.
  destruct (scan_guids (guids item)) as [imdb_id tmdb_id].
  match goal with
  | |- (search_subtitles env ?q ?i ?t ?l ?f ?s ?e ≫= _) st = _ -> _ =>
      destruct (search_subtitles env q i t l f s e st) as [found st1] eqn:Hsearch
  end.
  destruct (search_subtitles_spec env _ _ _ _ _ _ _ _ _ _ Hsearch)
    as (new1 & (Ht1 & _ & _ & _ & Hl1 & Hr1 & Hfs1) & _ & _ & _ & _ & Ha1 & Hs1).
  assert (∃ new records,
    trace (world st1) = trace (world st) ++ new
    ∧ languages st1 = languages st
    ∧ download_report st1 = download_report st ++ records
    ∧ records_match st1 new records
    ∧ (∀ n, Ok 0%Z = Ok n -> n = Z.of_nat (length records))) as Hsearched.
  { exists new1, []. rewrite app_nil_r.
    split; [done|split; [done|split; [done|split]]].
    - split; [by rewrite Hs1|]. split; [cbn; lia|constructor].
    - by intros n [= <-]. }
  destruct found as [[[|r results]|]|e].
  - erewrite bind_Ok by exact Hsearch. intros [= <- <-]. apply Hsearched.
  - erewrite bind_Ok by exact Hsearch. intros Hloop.
    destruct (for_lang_in_spec _ _ _ _ _ _ _ _ _ Hloop)
      as (new2 & records & Ht2 & Hl2 & Hr2 & Hk2 & Hm2 & Hres2).
    exists (new1 ++ new2), records.
    split; [by rewrite Ht2, Ht1, app_assoc|].
    split; [congruence|].
    split; [congruence|].
    split.
    + change records with ([] ++ records).
      apply (records_match_app st1); [|done|eauto].
      split; [by rewrite Hs1|]. split; [cbn; lia|constructor].
    + intros n Hn. destruct (Hres2 n Hn) as [-> _]. lia.
  - erewrite bind_Ok by exact Hsearch. intros [= <- <-]. apply Hsearched.
  - erewrite bind_Raise by exact Hsearch. intros [= <- <-].
    destruct Hsearched as (new & records & ?&?&?&?&?).
    exists new, records.
    split; [done|split; [done|split; [done|split; [done|]]]].
    by intros n [=].
Qed.

End Languages.




(** ** The loop over the items and the download budget *)

Section Budget.
Import OpenSubtitlesAPI PlexSubtitleDownloader Effect Orchestration.
Context (env : Env).

Lemma stat_add_same key n stats : stat (add_stat key n stats) key = (stat stats key + n)%Z.
Proof. unfold stat, add_stat. by rewrite lookup_insert_eq. Qed.

Lemma stat_add_other key key' n stats :
  key ≠ key' -> stat (add_stat key n stats) key' = stat stats key'.
Proof. intros H. unfold stat, add_stat. by rewrite lookup_insert_ne. Qed.

(** The [try] block never lets an exception out, and [total_downloaded]
    grows exactly as the count of downloads in [stats]. *)
Lemma process_item_spec depth obj stats total st :
  ∃ stats' total' st',
    process_item env depth obj stats total st = (Ok (stats', total'), st')
    ∧ (total' - total = stat stats' "downloaded" - stat stats "downloaded")%Z
    ∧ (total <= total')%Z.
Proof.
  unfold process_item, try_except.
  destruct (needs_subtitles_of obj st) as [[missing|e] st1] eqn:Hneeds.
  - erewrite bind_Ok by exact Hneeds.
    case_bool_decide.
    + unfold try_except.
      match goal with
      | |- context [(?m ≫= ?f) st1] => destruct (m st1) as [[downloaded|e] st2] eqn:Hd
      end.
      * erewrite bind_Ok by exact Hd.
        destruct (0 <? downloaded)%Z eqn:Hpos.
        -- eexists _, _, _. split; [reflexivity|].
           rewrite stat_add_same, stat_add_other by done.
           apply Z.ltb_lt in Hpos. lia.
        -- eexists _, _, _. split; [reflexivity|].
           rewrite stat_add_other by done. lia.
      * erewrite bind_Raise by exact Hd.
        eexists _, _, _. split; [reflexivity|].
        rewrite !stat_add_other by done. lia.
    + eexists _, _, _. split; [reflexivity|]. lia.
  - erewrite bind_Raise by exact Hneeds.
    eexists _, _, _. split; [reflexivity|].
    rewrite stat_add_other by done. lia.
Qed.

(** Once the budget is reached, the items that are left are counted and
    nothing else happens. *)
Lemma for_item_in_limit_reached depth m n item rest i stats total st :
  m ≠ 0%Z -> (m <= total)%Z ->
  for_item_in env depth (Some m) n (item :: rest) i stats total st
  = (Ok (<["skipped" := (n - i + 1)%Z]> stats), st).
Proof.
  intros Hm Hle. cbn [for_item_in]. unfold limit_reached.
  apply Z.eqb_neq in Hm as ->. apply Z.leb_le in Hle as ->. done.
Qed.

(** A run with a budget is the run without one on a first part of the
    items; the rest is counted as skipped and left alone. *)
Lemma for_item_in_budget depth m n items :
  m ≠ 0%Z ->
  ∀ i stats total st,
    n = (i + Z.of_nat (length items) - 1)%Z ->
    ∃ processed skipped stats_p st',
      items = processed ++ skipped
      ∧ for_item_in env depth None n processed i stats total st = (Ok stats_p, st')
      ∧ for_item_in env depth (Some m) n items i stats total st
        = (Ok (match skipped with
               | [] => stats_p
               | _ => <["skipped" := Z.of_nat (length skipped)]> stats_p
               end), st')
      ∧ (skipped ≠ [] ->
         (m <= total + (stat stats_p "downloaded" - stat stats "downloaded"))%Z).
Proof.
  intros Hm. induction items as [|item rest IH]; intros i stats total st Hn.
  - exists [], [], stats, st. done.
  - destruct (Z_le_gt_dec m total) as [Hle|Hgt].
    + exists [], (item :: rest), stats, st.
      split; [done|split; [done|split]].
      * rewrite for_item_in_limit_reached by done.
        do 3 f_equal. cbn [length] in *. lia.
      * intros _. lia.
    + destruct (process_item_spec depth item stats total st)
        as (stats1 & total1 & st1 & Hone & Hdiff & Hmono).
      destruct (IH (i + 1)%Z stats1 total1 st1)
        as (processed & skipped & stats_p & st' & -> & Hfree & Hbudget & Hcut).
      { cbn [length] in Hn. lia. }
      exists (item :: processed), skipped, stats_p, st'.
      split; [done|split; [|split]].
      * cbn [for_item_in app limit_reached].
        erewrite bind_Ok by exact Hone. exact Hfree.
      * cbn [for_item_in app]. unfold limit_reached.
        apply Z.eqb_neq in Hm as ->.
        assert ((m <=? total)%Z = false) as -> by (apply Z.leb_gt; lia).
        cbn [negb andb]. erewrite bind_Ok by exact Hone. exact Hbudget.
      * intros Hs. specialize (Hcut Hs). lia.
Qed.

(** [process_library] on a library of movies is the loop over its items. *)
Lemma process_library_movies depth library media_type max_downloads st :
  List.find (fun l => String.eqb (lib_title l) (lib_title library))
            (plex_sections env) = Some library ->
  lib_type library = "movie" ->
  process_library env depth (lib_title library) media_type max_downloads st
  = for_item_in env depth max_downloads (Z.of_nat (length (lib_all library)))
      (lib_all library) 1
      (<["total" := Z.of_nat (length (lib_all library))]> empty_stats) 0 st.
Proof.
  intros Hfind Htype. unfold process_library, try_except, section.
  rewrite Hfind. erewrite bind_Ok by reflexivity. cbv iota beta.
  rewrite (bool_decide_eq_true_2 (lib_type library = "movie")) by done.
  by rewrite orb_true_r.
Qed.

(** The loop over the libraries: a library is passed over when the budget
    is used up, and gets what is left of it otherwise. *)
Lemma for_library_in_exhausted depth media_type m library rest total_stats total st :
  lib_type library ∈ ["movie"; "show"] -> m ≠ 0%Z -> (m <= total)%Z ->
  for_library_in env depth media_type (Some m) (library :: rest) total_stats total st
  = for_library_in env depth media_type (Some m) rest total_stats total st.
Proof.
  intros Hty Hm Hle. cbn [for_library_in].
  rewrite bool_decide_eq_true_2 by done.
  apply Z.eqb_neq in Hm as ->.
  assert ((m - total <=? 0)%Z = true) as -> by (apply Z.leb_le; lia). done.
Qed.

Lemma for_library_in_remaining depth media_type m library rest total_stats total st :
  lib_type library ∈ ["movie"; "show"] -> m ≠ 0%Z -> (total < m)%Z ->
  for_library_in env depth media_type (Some m) (library :: rest) total_stats total st
  = match process_library env depth (lib_title library) media_type
                          (Some (m - total)%Z) st with
    | (Ok stats, st') =>
        for_library_in env depth media_type (Some m) rest
          (add_stats total_stats stats)
          (stat (add_stats total_stats stats) "downloaded") st'
    | (Raise e, st') => (Raise e, st')
    end.
Proof.
  intros Hty Hm Hlt. cbn [for_library_in].
  rewrite bool_decide_eq_true_2 by done.
  apply Z.eqb_neq in Hm as ->.
  assert ((m - total <=? 0)%Z = false) as -> by (apply Z.leb_gt; lia). done.
Qed.

End Budget.

(** C9 (the code goes on downloading past the budget): the budget is
    compared with the downloads that the loop has counted, and the downloads
    of an item are counted only when the work on the item ends without an
    exception.  Here the budget is 1 and the library holds two movies that
    each lack Spanish and French subtitles; for each movie the provider
    hands out the first subtitle and answers the second download request
    with status 429 and a [Retry-After] header that is not an integer, on
    which the client raises [ValueError].  The first movie's subtitle is
    saved and not counted; the second movie is then not skipped: it is
    searched for and a subtitle is downloaded and saved for it as well.  The
    run ends with two subtitles saved, [downloaded] 0, [skipped] 0 and
    [errors] 2; the loop over all libraries does the same. *)
Theorem C9_downloads_of_a_failing_item_escape_the_budget :
  let env := Scenario.with_net More.throttling_net [Scenario.movies] in
  let st := Scenario.fresh ["es"; "fr"] Scenario.disk in
  let one := PlexSubtitleDownloader.process_library env 5 "Movies" None
               (Some 1%Z) st in
  let all := PlexSubtitleDownloader.process_all_libraries env 5 None
               (Some 1%Z) st in
  (∃ stats, fst one = Ok stats
            ∧ stats !! "total" = Some 2%Z
            ∧ stats !! "needs_subtitles" = Some 2%Z
            ∧ stats !! "downloaded" = Some 0%Z
            ∧ stats !! "skipped" = Some 0%Z
            ∧ stats !! "errors" = Some 2%Z)
  ∧ length (Effect.saved (trace (world (snd one)))) = 2%nat
  ∧ map media_title (download_report (snd one)) = ["Movie"; "Sequel"]
  ∧ length (Effect.initiations (trace (world (snd one)))) = 4%nat
  ∧ length (Effect.fetches (trace (world (snd one)))) = 2%nat
  ∧ (∃ stats, fst all = Ok stats
              ∧ stats !! "downloaded" = Some 0%Z
              ∧ stats !! "skipped" = Some 0%Z
              ∧ stats !! "errors" = Some 2%Z)
  ∧ snd all = snd one.
Proof.
  cbv zeta. split; [|split; [|split; [|split; [|split; [|split]]]]].
  - eexists. split; [vm_compute; reflexivity|]. vm_compute. done.
  - vm_compute. reflexivity.
  - vm_compute. reflexivity.
  - vm_compute. reflexivity.
  - vm_compute. reflexivity.
  - eexists. split; [vm_compute; reflexivity|]. vm_compute. done.
  - vm_compute. reflexivity.
Qed.
(** * Further properties of the code *)

(** ** Language codes *)

Lemma normalize_is_lower code : lower (normalize code) = normalize code.
Proof.
  destruct (Nat.eq_dec (String.length (lower code)) 3) as [H3|H3].
  - destruct (conversions !! lower code) as [v|] eqn:Hc.
    + rewrite (normalize_three _ _ H3 Hc). apply conversions_inv in Hc.
      repeat (apply elem_of_cons in Hc as [Hc|Hc];
              [inversion Hc; subst; reflexivity|]).
      by apply elem_of_nil in Hc.
    + by rewrite (normalize_three_unknown _ H3 Hc), lower_substring, lower_idem.
  - by rewrite (normalize_other _ H3), lower_idem.
Qed.

Lemma normalize_never_three code : String.length (normalize code) ≠ 3%nat.
Proof.
  destruct (Nat.eq_dec (String.length (lower code)) 3) as [H3|H3].
  - destruct (conversions !! lower code) as [v|] eqn:Hc.
    + rewrite (normalize_three _ _ H3 Hc). apply conversions_inv in Hc.
      repeat (apply elem_of_cons in Hc as [Hc|Hc];
              [inversion Hc; subst; cbn; lia|]).
      by apply elem_of_nil in Hc.
    + rewrite (normalize_three_unknown _ H3 Hc), (length_prefix2 _ H3). lia.
  - by rewrite (normalize_other _ H3).
Qed.

Lemma selenium_fold_spec (streams : list SubtitleStream) (acc : gset string) l :
  l ∈ foldl (fun existing_langs stream =>
               match languageCode stream with
               | Some code =>
                   if truthy_str (Some code)
                   then existing_langs ∪ {[ normalize code ]}
                   else existing_langs ∪ {[ "en" ]}
               | None => existing_langs ∪ {[ "en" ]}
               end) acc streams
  ↔ l ∈ acc
    ∨ (∃ c, c ∈ omap (fun st => if truthy_str (languageCode st)
                                then languageCode st else None) streams
            ∧ normalize c = l)
    ∨ (l = "en" ∧ ∃ stream, stream ∈ streams ∧ More.unlabelled stream).
Proof.
  revert acc; induction streams as [|[o] streams IH]; intros acc.
  - cbn. split; [auto|]. intros [H|[(c & H & _)|(_ & s & H & _)]]; [done| |];
      by apply elem_of_nil in H.
  - cbn [foldl languageCode]. rewrite IH. clear IH.
    assert (∀ s : SubtitleStream, s ∈ mkStream o :: streams
              ↔ s = mkStream o ∨ s ∈ streams) as Hcons
      by (intros s; apply elem_of_cons).
    destruct o as [code|]; simpl; [destruct (negb (code =? "")) eqn:Ht|].
    + rewrite elem_of_union, elem_of_singleton. split.
      * intros [[H| ->]|[(c & H & Hn)|(He & s & H & Hu)]]; auto.
        -- right; left. exists code. split; [left|done].
        -- right; left. exists c. split; [by right|done].
        -- right; right. split; [done|]. exists s. split; [by right|done].
      * intros [H|[(c & H & Hn)|(He & s & H & Hu)]]; auto.
        -- apply elem_of_cons in H as [->|H]; eauto.
        -- apply elem_of_cons in H as [->|H].
           ++ unfold More.unlabelled in Hu. simpl in Hu. congruence.
           ++ right; right. eauto.
    + rewrite elem_of_union, elem_of_singleton. split.
      * intros [[H| ->]|[(c & H & Hn)|(He & s & H & Hu)]]; auto.
        -- right; right. split; [done|]. exists (mkStream (Some code)).
           split; [left|by unfold More.unlabelled; simpl].
        -- right; left. by exists c.
        -- right; right. split; [done|]. exists s. split; [by right|done].
      * intros [H|[(c & H & Hn)|(He & s & H & Hu)]]; eauto.
    + rewrite elem_of_union, elem_of_singleton. split.
      * intros [[H| ->]|[(c & H & Hn)|(He & s & H & Hu)]]; auto.
        -- right; right. split; [done|]. exists (mkStream None). split; [left|done].
        -- right; left. by exists c.
        -- right; right. split; [done|]. exists s. split; [by right|done].
      * intros [H|[(c & H & Hn)|(He & s & H & Hu)]]; eauto.
Qed.

Lemma selenium_existing_spec item l :
  l ∈ PlexSeleniumDownloader.get_existing_subtitle_languages item
  ↔ l ∈ PlexSubtitleDownloader.get_existing_subtitle_languages item
    ∨ (l = "en" ∧ ∃ stream, stream ∈ subtitleStreams item
                            ∧ More.unlabelled stream).
Proof.
  unfold PlexSeleniumDownloader.get_existing_subtitle_languages.
  rewrite selenium_fold_spec, get_existing_spec. unfold labelled_codes.
  split.
  - intros [H|[H|H]]; auto. by apply elem_of_empty in H.
  - intros [H|H]; auto.
Qed.

(** X1: the browser path's set of existing languages is that of the API
    path, with English added exactly when the item has a stream without a
    language tag; so the browser path reports the same languages missing,
    except that it never reports English for such an item. *)
Theorem selenium_existing_is_api_existing_plus_english :
  ∀ (languages : list string) (item : Item),
    (∀ l, l ∈ PlexSeleniumDownloader.get_existing_subtitle_languages item
          ↔ l ∈ PlexSubtitleDownloader.get_existing_subtitle_languages item
            ∨ (l = "en" ∧ ∃ stream, stream ∈ subtitleStreams item
                                    ∧ More.unlabelled stream))
    ∧ PlexSeleniumDownloader.needs_subtitles languages item
      ⊆ PlexSubtitleDownloader.needs_subtitles languages item
    ∧ (∀ l, l ∈ PlexSubtitleDownloader.needs_subtitles languages item →
            l ∉ PlexSeleniumDownloader.needs_subtitles languages item →
            l = "en" ∧ ∃ stream, stream ∈ subtitleStreams item
                                 ∧ More.unlabelled stream).
Proof.
  intros languages item.
  pose proof (selenium_existing_spec item) as Hex.
  split; [exact Hex|]. split.
  - intros l. unfold PlexSeleniumDownloader.needs_subtitles,
      PlexSubtitleDownloader.needs_subtitles.
    rewrite !elem_of_difference, Hex. intros [Hl Hn]. split; [done|]. auto.
  - intros l. unfold PlexSeleniumDownloader.needs_subtitles,
      PlexSubtitleDownloader.needs_subtitles.
    rewrite !elem_of_difference, Hex. intros [Hl Hn] Hs.
    assert (∀ s, Decision (More.unlabelled s)) as Hdec
      by (intros s; unfold More.unlabelled; apply _).
    destruct (decide (l = "en")) as [He|He];
      [destruct (decide (Exists More.unlabelled (subtitleStreams item)))
         as [Hu|Hu]|].
    + split; [done|]. by apply Exists_exists in Hu.
    + destruct Hs. split; [done|]. intros [?|[_ Hu']]; [done|].
      by apply Hu, Exists_exists.
    + destruct Hs. split; [done|]. intros [?|[? _]]; done.
Qed.

Lemma selenium_existing_witness :
  "en" = "en"
  ∧ ∃ stream, stream ∈ subtitleStreams (Scenario.item_with_streams [None; Some "spa"])
              ∧ More.unlabelled stream.
Proof.
  destruct (selenium_existing_is_api_existing_plus_english ["en"; "es"]
              (Scenario.item_with_streams [None; Some "spa"])) as (_ & _ & H).
  apply (H "en").
  - by_decide.
  - by_decide.
Defined.

(** X2: the target languages are compared as they are given.  Every code in
    the set of existing languages is in lower case and never three characters
    long, so a target that has three characters, or that is not in lower
    case, is reported missing for every item by both paths, whatever
    subtitles the item has. *)
Theorem unnormalized_target_always_missing :
  ∀ (languages : list string) (item : Item) (target : string),
    target ∈ languages →
    String.length target = 3%nat ∨ lower target ≠ target →
    target ∈ PlexSubtitleDownloader.needs_subtitles languages item
    ∧ target ∈ PlexSeleniumDownloader.needs_subtitles languages item.
Proof.
  intros languages item target Hin Hbad.
  assert (target ∉ PlexSubtitleDownloader.get_existing_subtitle_languages item)
    as Hapi.
  { rewrite get_existing_spec. intros (c & _ & <-). destruct Hbad as [H3|Hl].
    - by apply (normalize_never_three c).
    - by apply Hl, normalize_is_lower. }
  split.
  - unfold PlexSubtitleDownloader.needs_subtitles.
    by rewrite elem_of_difference, elem_of_list_to_set.
  - unfold PlexSeleniumDownloader.needs_subtitles.
    rewrite elem_of_difference, elem_of_list_to_set. split; [done|].
    rewrite selenium_existing_spec. intros [H|[-> _]]; [done|].
    destruct Hbad as [H3|Hl]; [discriminate H3|by apply Hl].
Qed.

Lemma unnormalized_target_witness :
  "eng" ∈ PlexSubtitleDownloader.needs_subtitles ["eng"; "EN"]
            (Scenario.item_with_streams [Some "eng"; Some "en"])
  ∧ "EN" ∈ PlexSeleniumDownloader.needs_subtitles ["eng"; "EN"]
             (Scenario.item_with_streams [Some "eng"; Some "en"]).
Proof.
  split.
  - apply (unnormalized_target_always_missing ["eng"; "EN"]
             (Scenario.item_with_streams [Some "eng"; Some "en"]) "eng").
    + by_decide.
    + left. reflexivity.
  - apply (unnormalized_target_always_missing ["eng"; "EN"]
             (Scenario.item_with_streams [Some "eng"; Some "en"]) "EN").
    + by_decide.
    + right. discriminate.
Defined.

(** ** Candidate selection under reordering *)

Section Reordering.
Import PlexSubtitleDownloader.

(** X3: the order of the search results matters only among full ties: for
    two lists with the same elements the selected candidates have the same
    rating and the same download count (or both selections are empty), and
    when no other candidate of the language has the selected one's rating
    and download count, the same candidate is selected. *)
Theorem select_best_same_key_under_permutation :
  ∀ (results results' : list Subtitle) (lang : string),
    results ≡ₚ results' →
    match select_best results lang, select_best results' lang with
    | Some b, Some b' =>
        key_eqb (sort_key b) (sort_key b') = true
        ∧ ((∀ c, c ∈ results → language c = Some lang →
                 key_eqb (sort_key b) (sort_key c) = true → c = b) →
           b' = b)
    | None, None => True
    | _, _ => False
    end.
Proof.
  intros results results' lang Hperm.
  destruct (select_best results lang) as [b|] eqn:Hb;
    destruct (select_best results' lang) as [b'|] eqn:Hb'.
  - destruct (select_best_Some _ _ _ Hb) as (Hl & Hmax & l1 & l2 & Hres & _).
    destruct (select_best_Some _ _ _ Hb') as (Hl' & Hmax' & l1' & l2' & Hres' & _).
    assert (b ∈ results) as Hin by (rewrite Hres; apply elem_of_app; right; left).
    assert (b' ∈ results') as Hin' by (rewrite Hres'; apply elem_of_app; right; left).
    assert (b' ∈ results) as Hin2 by by rewrite Hperm.
    assert (b ∈ results') as Hin2' by by rewrite <- Hperm.
    pose proof (Hmax b' Hin2 Hl') as H1.
    pose proof (Hmax' b Hin2' Hl) as H2.
    assert (key_eqb (sort_key b) (sort_key b') = true) as Heq.
    { unfold key_eqb, key_ge in *. apply andb_true_iff.
      rewrite Qeq_bool_iff, Z.eqb_eq.
      destruct H1 as [H1|[H1 H1']], H2 as [H2|[H2 H2']]; try lra.
      split; [done|lia]. }
    split; [done|]. intros Huniq. by apply Huniq.
  - pose proof (proj1 (select_best_None _ _) Hb') as Hnone; clear Hb'; rename Hnone into Hb'.
    destruct (select_best_Some _ _ _ Hb) as (Hl & _ & l1 & l2 & Hres & _).
    apply (Hb' b); [|done]. rewrite <- Hperm, Hres. apply elem_of_app; right; left.
  - pose proof (proj1 (select_best_None _ _) Hb) as Hnone; clear Hb; rename Hnone into Hb.
    destruct (select_best_Some _ _ _ Hb') as (Hl & _ & l1 & l2 & Hres & _).
    apply (Hb b'); [|done]. rewrite Hperm, Hres. apply elem_of_app; right; left.
  - done.
Qed.

Lemma select_best_permutation_witness :
  [Scenario.candidate "es" 7 500 11; Scenario.candidate "es" 9 200 22]
  ≡ₚ [Scenario.candidate "es" 9 200 22; Scenario.candidate "es" 7 500 11]
  ∧ select_best [Scenario.candidate "es" 9 200 22; Scenario.candidate "es" 7 500 11] "es"
    = select_best [Scenario.candidate "es" 7 500 11; Scenario.candidate "es" 9 200 22] "es".
Proof.
  split; [apply Permutation_swap|].
  pose proof (select_best_same_key_under_permutation
    [Scenario.candidate "es" 7 500 11; Scenario.candidate "es" 9 200 22]
    [Scenario.candidate "es" 9 200 22; Scenario.candidate "es" 7 500 11] "es"
    (Permutation_swap _ _ _)) as H.
  change (select_best [Scenario.candidate "es" 7 500 11;
                       Scenario.candidate "es" 9 200 22] "es")
    with (Some (Scenario.candidate "es" 9 200 22)) in *.
  change (select_best [Scenario.candidate "es" 9 200 22;
                       Scenario.candidate "es" 7 500 11] "es")
    with (Some (Scenario.candidate "es" 9 200 22)) in *.
  destruct H as [_ H]. refine (f_equal Some (H _)).
  intros c Hc _ Hk.
  apply elem_of_cons in Hc as [->|Hc]; [discriminate Hk|].
  apply elem_of_cons in Hc as [->|Hc]; [reflexivity|].
  by apply elem_of_nil in Hc.
Defined.

End Reordering.

(** ** Subtitle paths *)

Lemma append_inj_l (a b c : string) : (a ++ b = a ++ c)%string -> b = c.
Proof. induction a as [|x a IH]; cbn; [done|]. intros [= H]. by apply IH. Qed.

Lemma length_append_string (a b : string) :
  String.length (a ++ b)%string = (String.length a + String.length b)%nat.
Proof. induction a as [|x a IH]; simpl; [done|]. by f_equal. Qed.

Lemma append_inj_r (s b c : string) : (b ++ s = c ++ s)%string -> b = c.
Proof.
  intros H.
  assert (String.length b = String.length c) as Hlen.
  { apply (f_equal String.length) in H. rewrite !length_append_string in H. lia. }
  revert c H Hlen. induction b as [|x b IH]; intros [|y c]; simpl; try done.
  intros [= <- H] [= Hlen]. f_equal. by apply IH.
Qed.

Lemma append_assoc_string (a b c : string) :
  ((a ++ b) ++ c = a ++ (b ++ c))%string.
Proof.
  induction a as [|x a IH]; [done|].
  change (String x ((a ++ b) ++ c) = String x (a ++ (b ++ c)))%string.
  by rewrite IH.
Qed.

(** X4: for a language code that [with_suffix] accepts, the subtitle of a
    media file is written next to it under the name of the media file with
    its suffix replaced by [.<language>.srt] (or [.<language>.forced.srt]);
    for one media file, different languages give different paths, so the
    subtitle of one language never takes the place of that of another. *)
Theorem subtitle_path_names_language :
  ∀ (media_path : Path) (language language' : string) (forced : bool),
    More.plain language → More.plain language' →
    path_str (PlexSubtitleDownloader.get_subtitle_path media_path language forced)
    = (path_base media_path ++ "." ++ language
       ++ (if forced then ".forced" else "") ++ ".srt")%string
    ∧ (path_str (PlexSubtitleDownloader.get_subtitle_path media_path language forced)
       = path_str (PlexSubtitleDownloader.get_subtitle_path media_path language' forced)
       → language = language').
Proof.
  intros media_path language language' forced _ _.
  assert (∀ l, path_str (PlexSubtitleDownloader.get_subtitle_path media_path l forced)
               = (path_base media_path ++ "." ++ l
                  ++ (if forced then ".forced" else "") ++ ".srt")%string) as Hname.
  { intros l. unfold PlexSubtitleDownloader.get_subtitle_path, path_str, with_suffix.
    cbn [path_base path_suffix]. destruct forced; cbn [String.append].
    - by rewrite !append_assoc_string.
    - done. }
  split; [apply Hname|].
  rewrite !Hname. intros H.
  apply append_inj_l in H. cbn [String.append] in H. injection H as H.
  change (language ++ ((if forced then ".forced" else "") ++ ".srt")
          = language' ++ ((if forced then ".forced" else "") ++ ".srt"))%string in H.
  by apply append_inj_r in H.
Qed.

Lemma subtitle_path_witness :
  path_str (PlexSubtitleDownloader.get_subtitle_path
              (mkPath "/media/Movie" ".mkv") "es" false)
  = "/media/Movie.es.srt"
  ∧ "es" = "es".
Proof.
  destruct (subtitle_path_names_language (mkPath "/media/Movie" ".mkv")
              "es" "es" false) as [Hname Hinj]; [reflexivity|reflexivity|].
  split; [exact Hname|]. apply Hinj. reflexivity.
Defined.


(** ** The client: re-login as often as the token is refused *)

Section Relogin.
Import OpenSubtitlesAPI Effect.
Context (env : Env).

(** A pass in which the token is refused and the new login succeeds. *)
Lemma refused_attempt file_id st :
  truthy_str (jwt_token (api st)) = true ->
  has_credentials st = true ->
  quota_exhausted st = false ->
  (∃ r, net env (sent (world st)) (PostDownload (jwt_token (api st)) file_id)
        = Answer r ∧ status_code r = 401%Z) ->
  (∃ r, net env (S (sent (world st)))
            (PostLogin (username (api st)) (password (api st))) = Answer r
        ∧ status_code r = 200%Z ∧ truthy_str (json_token r) = true) ->
  ∃ st1 new,
    attempt env file_id st = (Relogged, st1)
    ∧ truthy_str (jwt_token (api st1)) = true
    ∧ has_credentials st1 = true
    ∧ quota_exhausted st1 = false
    ∧ sent (world st1) = S (S (sent (world st)))
    ∧ trace (world st1) = trace (world st) ++ new
    ∧ length (logins new) = 1%nat ∧ length (initiations new) = 1%nat
    ∧ fetches new = [].
Proof.
  intros Htok Hcred Hq (r & Hr & H401) (r' & Hr' & H200 & Htok').
  unfold attempt, ensure_login.
  rewrite Htok. cbn [negb]. rewrite Hq. cbv zeta.
  set (rq := PostDownload (jwt_token (api st)) file_id) in *.
  assert (send_with_retry env rq (after_wait env st)
          = (Ok (Answer r), after_request env rq (after_wait env st))) as Hsend.
  { unfold send_with_retry, reply_to. cbn [after_wait world sent].
    rewrite Hr, H401. done. }
  rewrite Hsend. cbv beta iota zeta. rewrite H401.
  change (401 =? 200)%Z with false. change (401 =? 401)%Z with true.
  cbv iota.
  set (st2 := after_request env rq (after_wait env st)).
  set (st3 := with_api (set_jwt_token None) st2).
  assert (has_credentials st3 = true) as Hcred3 by exact Hcred.
  assert (login_reply env st3 = Answer r') as Hlr by exact Hr'.
  assert (login_ok env st3 = true) as Hok.
  { unfold login_ok. rewrite Hcred3, Hlr, H200. reflexivity. }
  rewrite Hok.
  exists (after_login env st3),
         (wait_events env st ++ [EvRequest rq (Answer r)] ++ login_events env st3).
  split; [done|].
  unfold after_login, login_events. rewrite Hcred3, Hlr, H200.
  change (200 =? 200)%Z with true. cbv iota.
  split; [exact Htok'|]. split; [exact Hcred|]. split; [exact Hq|].
  split; [done|]. split.
  - cbn. rewrite Hr.
    change (net env (S (sent (world st))) (login_request st3))
      with (login_reply env st3).
    by rewrite Hlr, <- !app_assoc.
  - rewrite !logins_app, !initiations_app, !fetches_app. unfold wait_events.
    destruct (must_sleep env st); destruct (must_sleep env st3); done.
Qed.

(** A pass in which the download request is answered with a link. *)
Lemma granted_attempt file_id st response :
  truthy_str (jwt_token (api st)) = true ->
  quota_exhausted st = false ->
  net env (sent (world st)) (PostDownload (jwt_token (api st)) file_id)
  = Answer response ->
  status_code response = 200%Z ->
  truthy_str (json_link response) = true ->
  ∃ st' new rp,
    attempt env file_id st
    = (Finished (Ok match rp with
                    | Answer sub =>
                        if (status_code sub =? 200)%Z then Some (content sub)
                        else None
                    | RequestException => None
                    end), st')
    ∧ trace (world st') = trace (world st) ++ new
    ∧ logins new = [] ∧ length (initiations new) = 1%nat
    ∧ fetches new = [default "" (json_link response)]
    ∧ last new = Some (EvRequest (GetLink (default "" (json_link response))) rp).
Proof.
  intros Htok Hq Hnet H200 Hlink.
  unfold attempt, ensure_login.
  rewrite Htok. cbn [negb]. rewrite Hq. cbv zeta.
  set (rq := PostDownload (jwt_token (api st)) file_id) in *.
  assert (send_with_retry env rq (after_wait env st)
          = (Ok (Answer response), after_request env rq (after_wait env st)))
    as Hsend.
  { unfold send_with_retry, reply_to. cbn [after_wait world sent].
    rewrite Hnet, H200. done. }
  rewrite Hsend. cbv beta iota zeta. rewrite H200, Hlink.
  change (200 =? 200)%Z with true. cbv iota.
  set (url := default "" (json_link response)).
  set (st3 := with_api (refresh_quota response)
                (after_request env rq (after_wait env st))).
  exists (after_request env (GetLink url) st3),
         (wait_events env st ++ [EvRequest rq (Answer response);
                                 EvRequest (GetLink url) (reply_to env (GetLink url) st3)]),
         (reply_to env (GetLink url) st3).
  split; [done|]. split.
  { cbn. rewrite Hnet. by rewrite <- !app_assoc. }
  rewrite !logins_app, !initiations_app, !fetches_app.
  split; [unfold wait_events; by destruct (must_sleep env st)|].
  split; [unfold wait_events; by destruct (must_sleep env st)|].
  split; [unfold wait_events; by destruct (must_sleep env st)|].
  by rewrite (last_app _ [_; _]).
Qed.

Lemma relogin_rounds file_id response n :
  status_code response = 200%Z ->
  truthy_str (json_link response) = true ->
  (∀ k u p, ∃ r, net env k (PostLogin u p) = Answer r
                 ∧ status_code r = 200%Z ∧ truthy_str (json_token r) = true) ->
  ∀ depth st,
    (n < depth)%nat ->
    (∀ k b f, (k < sent (world st) + 2 * n)%nat ->
       ∃ r, net env k (PostDownload b f) = Answer r ∧ status_code r = 401%Z) ->
    (∀ k b f, (sent (world st) + 2 * n <= k)%nat ->
       net env k (PostDownload b f) = Answer response) ->
    truthy_str (jwt_token (api st)) = true ->
    has_credentials st = true ->
    quota_exhausted st = false ->
    ∃ st' new rp,
      download_subtitle env depth file_id st
      = (Ok match rp with
            | Answer sub =>
                if (status_code sub =? 200)%Z then Some (content sub) else None
            | RequestException => None
            end, st')
      ∧ trace (world st') = trace (world st) ++ new
      ∧ length (logins new) = n
      ∧ length (initiations new) = S n
      ∧ fetches new = [default "" (json_link response)]
      ∧ last new = Some (EvRequest (GetLink (default "" (json_link response))) rp).
Proof.
  intros H200 Hlink Hlogin.
  induction n as [|n IH]; intros depth st Hdepth Hrefuse Hgrant Htok Hcred Hq.
  - destruct depth as [|depth]; [lia|].
    destruct (granted_attempt file_id st response Htok Hq) as
      (st' & new & rp & Ha & Ht & Hl & Hi & Hf & Hlast); [|done|done|].
    { apply Hgrant. lia. }
    exists st', new, rp. rewrite download_subtitle_S, Ha.
    split; [done|]. split; [done|]. by rewrite Hl.
  - destruct depth as [|depth]; [lia|].
    destruct (refused_attempt file_id st Htok Hcred Hq)
      as (st1 & new1 & Ha & Htok1 & Hcred1 & Hq1 & Hsent1 & Ht1 & Hl1 & Hi1 & Hf1).
    { apply Hrefuse. lia. }
    { apply Hlogin. }
    destruct (IH depth st1) as (st' & new2 & rp & Hrun & Ht2 & Hl2 & Hi2 & Hf2 & Hlast);
      [lia| | |done|done|done|].
    { intros k b f Hk. apply Hrefuse. lia. }
    { intros k b f Hk. apply Hgrant. lia. }
    exists st', (new1 ++ new2), rp.
    split; [by rewrite download_subtitle_S, Ha|].
    split; [by rewrite Ht2, Ht1, app_assoc|].
    rewrite logins_app, initiations_app, fetches_app, !length_app, Hf1, Hf2.
    split; [lia|]. split; [lia|]. split; [done|].
    rewrite last_app. by rewrite Hlast.
Qed.

End Relogin.

(** X5: nothing in [download_subtitle] counts the logins.  However often
    the provider refuses the token, the call logs in again and sends the
    download request again: if the first [n] download requests of a call
    are answered with status 401, every login is accepted, the next download
    request is answered with a link, and the interpreter allows more than
    [n] nested calls, then the call performs [n] logins and [n + 1] download
    requests, fetches the link once, and returns what that fetch gives. *)
Theorem relogin_repeats_as_often_as_refused :
  ∀ (env : Env) (file_id : Z) (n depth : nat) (st : State) (response : Response),
    (n < depth)%nat →
    (∀ k b f, (k < sent (world st) + 2 * n)%nat →
       ∃ r, net env k (PostDownload b f) = Answer r ∧ status_code r = 401%Z) →
    (∀ k b f, (sent (world st) + 2 * n <= k)%nat →
       net env k (PostDownload b f) = Answer response) →
    status_code response = 200%Z →
    truthy_str (json_link response) = true →
    (∀ k u p, ∃ r, net env k (PostLogin u p) = Answer r
                   ∧ status_code r = 200%Z
                   ∧ truthy_str (json_token r) = true) →
    truthy_str (jwt_token (api st)) = true →
    Effect.has_credentials st = true →
    Effect.quota_exhausted st = false →
    ∃ st' new rp,
      OpenSubtitlesAPI.download_subtitle env depth file_id st
      = (Ok match rp with
            | Answer sub =>
                if (status_code sub =? 200)%Z then Some (content sub) else None
            | RequestException => None
            end, st')
      ∧ trace (world st') = trace (world st) ++ new
      ∧ length (Effect.logins new) = n
      ∧ length (Effect.initiations new) = S n
      ∧ Effect.fetches new = [default "" (json_link response)]
      ∧ last new = Some (EvRequest (GetLink (default "" (json_link response))) rp).
Proof.
  intros env file_id n depth st response Hdepth Hrefuse Hgrant H200 Hlink Hlogin
         Htok Hcred Hq.
  by apply relogin_rounds.
Qed.

Lemma relogin_repeats_witness :
  ∃ st' new rp,
    OpenSubtitlesAPI.download_subtitle
      (Scenario.with_net (Scenario.stale_net 6) []) 5 22 Scenario.logged_in
    = (Ok match rp with
          | Answer sub =>
              if (status_code sub =? 200)%Z then Some (content sub) else None
          | RequestException => None
          end, st')
    ∧ trace (world st') = trace (world Scenario.logged_in) ++ new
    ∧ length (Effect.logins new) = 3%nat
    ∧ length (Effect.initiations new) = 4%nat
    ∧ Effect.fetches new = ["https://dl/file"]
    ∧ last new = Some (EvRequest (GetLink "https://dl/file") rp).
Proof.
  apply (relogin_repeats_as_often_as_refused
           (Scenario.with_net (Scenario.stale_net 6) []) 22 3 5
           Scenario.logged_in (Scenario.ok_link 4)).
  - lia.
  - intros k b f Hk. exists (Scenario.status_only 401). split; [|reflexivity].
    unfold Scenario.with_net. cbn [net]. unfold Scenario.stale_net.
    assert ((k <? 6)%nat = true) as -> by (apply Nat.ltb_lt; cbn in Hk; lia).
    reflexivity.
  - intros k b f Hk.
    unfold Scenario.with_net. cbn [net]. unfold Scenario.stale_net.
    assert ((k <? 6)%nat = false) as -> by (apply Nat.ltb_ge; cbn in Hk; lia).
    reflexivity.
  - reflexivity.
  - reflexivity.
  - intros k u p. exists Scenario.ok_login. split; [|split]; reflexivity.
  - reflexivity.
  - reflexivity.
  - reflexivity.
Defined.


(** ** The client: login and search *)


Section ClientCalls.
Import OpenSubtitlesAPI Effect.






End ClientCalls.


(** ** The client: the second request of a download *)

Section Fetch.
Import OpenSubtitlesAPI Effect.

(** X8: when the download request is answered with status 200 and a link,
    the call sends exactly one more request, the fetch of the link, without
    passing the rate limiter again, and the answer to the fetch alone
    decides the result: the content for status 200, [None] for any other
    status (429 included, which is not waited for) and for a failed
    request.  The quota reported with the link is stored whether or not the
    fetch succeeds. *)
Theorem fetch_decides_and_is_not_repeated :
  ∀ (env : Env) (depth : nat) (file_id : Z) (st : State) (response : Response),
    (∀ k bearer f, net env k (PostDownload bearer f) = Answer response) →
    status_code response = 200%Z →
    truthy_str (json_link response) = true →
    truthy_str (jwt_token (api st)) = true →
    quota_exhausted st = false →
    ∃ st' new rp,
      download_subtitle env (S depth) file_id st
      = (Ok match rp with
            | Answer sub =>
                if (status_code sub =? 200)%Z then Some (content sub) else None
            | RequestException => None
            end, st')
      ∧ trace (world st') = trace (world st) ++ new
      ∧ requests new = [PostDownload (jwt_token (api st)) file_id;
                        GetLink (default "" (json_link response))]
      ∧ last new = Some (EvRequest (GetLink (default "" (json_link response))) rp)
      ∧ length (acquire_times new) = 1%nat
      ∧ remaining_downloads (api st')
        = match json_remaining response with
          | Some r => Some r
          | None => remaining_downloads (api st)
          end
      ∧ jwt_token (api st') = jwt_token (api st).
Proof.
  intros env depth file_id st response Hnet H200 Hlink Htok Hq.
  rewrite download_subtitle_S. unfold attempt, ensure_login.
  rewrite Htok. cbn [negb]. rewrite Hq. cbv zeta.
  set (rq := PostDownload (jwt_token (api st)) file_id).
  assert (send_with_retry env rq (after_wait env st)
          = (Ok (Answer response), after_request env rq (after_wait env st))) as Hsend.
  { unfold send_with_retry, reply_to, rq. rewrite Hnet, H200. done. }
  rewrite Hsend. cbv beta iota zeta. rewrite H200, Hlink.
  change (200 =? 200)%Z with true. cbv iota.
  set (url := default "" (json_link response)).
  set (st3 := with_api (refresh_quota response) (after_request env rq (after_wait env st))).
  exists (after_request env (GetLink url) st3),
         (wait_events env st ++ [EvRequest rq (Answer response);
                                 EvRequest (GetLink url) (reply_to env (GetLink url) st3)]),
         (reply_to env (GetLink url) st3).
  split; [done|]. split.
  { cbn. unfold rq. rewrite Hnet. by rewrite <- !app_assoc. }
  unfold requests, acquire_times. rewrite !omap_app.
  fold (acquire_times (wait_events env st)).
  rewrite acquire_times_wait_events.
  assert (omap (λ e, match e with EvRequest rq _ => Some rq | _ => None end)
               (wait_events env st) = []) as ->
    by (unfold wait_events; by destruct (must_sleep env st)).
  split; [done|]. split; [|done].
  by rewrite (last_app _ [_; _]).
Qed.

Lemma fetch_decides_witness :
  ∃ st' new rp,
    download_subtitle (Scenario.with_net Scenario.provider_net []) 1 22
                      Scenario.logged_in
    = (Ok match rp with
          | Answer sub =>
              if (status_code sub =? 200)%Z then Some (content sub) else None
          | RequestException => None
          end, st')
    ∧ trace (world st') = trace (world Scenario.logged_in) ++ new
    ∧ length (acquire_times new) = 1%nat
    ∧ remaining_downloads (api st') = Some 4%Z.
Proof.
  destruct (fetch_decides_and_is_not_repeated
              (Scenario.with_net Scenario.provider_net []) 0 22 Scenario.logged_in
              (Scenario.ok_link 4))
    as (st' & new & rp & Hrun & Ht & Hrq & Hlast & Hacq & Hquota & _);
    [reflexivity..|].
  exists st', new, rp.
  split; [exact Hrun|]. split; [exact Ht|]. split; [exact Hacq|exact Hquota].
Defined.

End Fetch.


(** ** External ids *)

Section Guids.
Import PlexSubtitleDownloader.

Lemma tmdb_is_not_imdb guid :
  startswith guid "tmdb://" = true -> startswith guid "imdb://" = false.
Proof.
  destruct guid as [|c guid]; [done|]. unfold startswith. cbn [String.prefix].
  destruct (Ascii.ascii_dec "t" c) as [<-|]; [|done].
  by destruct (Ascii.ascii_dec "i" "t").
Qed.

Lemma scan_guids_skip pre rest :
  Forall More.no_external_id pre -> scan_guids (pre ++ rest) = scan_guids rest.
Proof.
  induction 1 as [|guid pre [Hi Ht] _ IH]; [done|].
  cbn. by rewrite Hi, Ht.
Qed.

(** X9: the loop over the guids stops at the first guid that starts with
    [imdb://] or [tmdb://], whichever of the two it is: a TMDB guid listed
    before an IMDb guid is the one taken.  So at most one of the two ids is
    set, and none is set exactly when no guid has either prefix. *)
Theorem scan_guids_first_prefixed_guid_decides :
  ∀ guids : list string,
    (fst (scan_guids guids) = None ∨ snd (scan_guids guids) = None)
    ∧ (scan_guids guids = (None, None) ↔ Forall More.no_external_id guids)
    ∧ (∀ pre guid post,
         guids = pre ++ guid :: post →
         Forall More.no_external_id pre →
         (startswith guid "imdb://" = true →
          scan_guids guids = (Some (remove_all "imdb://tt" guid), None))
         ∧ (startswith guid "tmdb://" = true →
            scan_guids guids = (None, Some (remove_all "tmdb://" guid)))).
Proof.
  intros guids. split; [|split].
  - induction guids as [|guid guids IH]; cbn; [by left|].
    destruct (startswith guid "imdb://"); [by right|].
    destruct (startswith guid "tmdb://"); [by left|done].
  - induction guids as [|guid guids IH]; cbn; [done|].
    destruct (startswith guid "imdb://") eqn:Hi;
      [|destruct (startswith guid "tmdb://") eqn:Ht].
    + split; [done|]. intros [[H _] _]%Forall_cons. congruence.
    + split; [done|]. intros [[_ H] _]%Forall_cons. congruence.
    + rewrite IH. split.
      * intros H. by constructor.
      * by intros [_ H]%Forall_cons.
  - intros pre guid post -> Hpre. rewrite (scan_guids_skip _ _ Hpre). cbn.
    split.
    + by intros ->.
    + intros Ht. by rewrite (tmdb_is_not_imdb _ Ht), Ht.
Qed.

Lemma scan_guids_witness :
  scan_guids ["plex://movie/5d77"; "tmdb://603"; "imdb://tt0133093"]
  = (None, Some "603").
Proof.
  destruct (scan_guids_first_prefixed_guid_decides
              ["plex://movie/5d77"; "tmdb://603"; "imdb://tt0133093"])
    as (_ & _ & H).
  destruct (H ["plex://movie/5d77"] "tmdb://603" ["imdb://tt0133093"])
    as [_ Htmdb].
  - reflexivity.
  - repeat constructor.
  - exact (Htmdb eq_refl).
Defined.

End Guids.


(** ** Files written for an item *)

Section Sidecars.
Import OpenSubtitlesAPI PlexSubtitleDownloader Effect Orchestration.



Lemma filter_none {A} (f : A -> bool) (l : list A) :
  (∀ x, x ∈ l -> f x = false) -> List.filter f l = [].
Proof.
  induction l as [|x l IH]; intros H; [done|]. cbn.
  rewrite (H x) by left. apply IH. intros y Hy. apply H. by right.
Qed.

(** X11: [download_subtitles_for_item] returns 0 and does nothing: no
    request is sent, the clock is not read, nothing is written, when the
    item has no file, or the file is not on disk, or every language that is
    missing according to the streams already has its sidecar file on disk.
    In the last case the sidecar paths have to be ones that [with_suffix]
    can build: the media path has a file name and the language holds no path
    separator. *)
Theorem nothing_missing_nothing_done :
  ∀ (env : Env) (depth : nat) (item : Item) (st : State),
    (∀ media_path lang,
       get_media_path item = Some media_path →
       path_exists media_path st = true →
       lang ∈ needs_subtitles (languages st) item →
       More.named media_path ∧ More.plain lang
       ∧ subtitle_exists media_path lang st = true) →
    download_subtitles_for_item env depth item st = (Ok 0%Z, st).
Proof.
  intros env depth item st Hdisk. unfold download_subtitles_for_item.
  destruct (get_media_path item) as [media_path|]; [|done].
  rewrite bind_gets.
  destruct (path_exists media_path st) eqn:Hp; cbn [negb]; [|done].
  rewrite !bind_gets.
  rewrite filter_none; [done|].
  intros lang Hin%elem_of_elements.
  destruct (Hdisk media_path lang eq_refl Hp Hin) as (_ & _ & ->). done.
Qed.

Lemma nothing_missing_witness :
  (* no file known for the item *)
  download_subtitles_for_item Scenario.offline 5 (Scenario.item_with_streams [])
    (Scenario.fresh ["en"] Scenario.disk)
  = (Ok 0%Z, Scenario.fresh ["en"] Scenario.disk)
  (* the file is not on disk *)
  ∧ download_subtitles_for_item Scenario.offline 5 Scenario.movie
      (Scenario.fresh ["en"; "es"] ∅)
    = (Ok 0%Z, Scenario.fresh ["en"; "es"] ∅)
  (* Spanish is missing by the streams, and its sidecar file is there *)
  ∧ download_subtitles_for_item Scenario.offline 5 Scenario.movie
      (Scenario.fresh ["en"; "es"] More.disk_with_sidecar)
    = (Ok 0%Z, Scenario.fresh ["en"; "es"] More.disk_with_sidecar).
Proof.
  split; [|split].
  - apply (nothing_missing_nothing_done Scenario.offline 5
             (Scenario.item_with_streams []) (Scenario.fresh ["en"] Scenario.disk)).
    intros media_path lang Hm. discriminate Hm.
  - apply (nothing_missing_nothing_done Scenario.offline 5 Scenario.movie
             (Scenario.fresh ["en"; "es"] ∅)).
    intros media_path lang [= <-] Hp. exfalso. vm_compute in Hp. discriminate Hp.
  - apply (nothing_missing_nothing_done Scenario.offline 5 Scenario.movie
             (Scenario.fresh ["en"; "es"] More.disk_with_sidecar)).
    intros media_path lang [= <-] _ Hin.
    assert (needs_subtitles
              (languages (Scenario.fresh ["en"; "es"] More.disk_with_sidecar))
              Scenario.movie = {["es"]}) as Hneeds by by_decide.
    rewrite Hneeds in Hin. apply elem_of_singleton in Hin as ->.
    split; [|split; [reflexivity|vm_compute; reflexivity]].
    split; [discriminate|]. eexists. split; [reflexivity|discriminate].
Defined.

End Sidecars.


(** ** A client without credentials *)

Section NoCredentials.
Import OpenSubtitlesAPI PlexSubtitleDownloader Effect Orchestration.
Context (env : Env).




End NoCredentials.

Section NoCredentialsItem.
Import OpenSubtitlesAPI PlexSubtitleDownloader Effect Orchestration.



End NoCredentialsItem.


(** ** The records of an item *)

Section Report.
Import OpenSubtitlesAPI PlexSubtitleDownloader Effect Orchestration.
Context (env : Env).

Lemma download_language_report depth item media_path results lang st res st' :
  download_language env depth item media_path results lang st = (res, st') ->
  languages st' = languages st
  ∧ (download_report st' = download_report st
     ∨ ∃ r, download_report st' = download_report st ++ [r]
            ∧ media_title r = item_name_of item
            ∧ media_type r = media_type_of item
            ∧ ds_language r = lang).
Proof.
  unfold download_language.
  destruct (select_best results lang) as [best|]; [|intros [= <- <-]; auto].
  destruct (files best) as [[|[file_id|] rest]|].
  - intros [= <- <-]; auto.
  - rewrite bind_ret. destruct (file_id =? 0)%Z; [intros [= <- <-]; auto|].
    rewrite bind_emit.
    set (st1 := with_world (log_event (EvAttempt lang file_id)) st).
    destruct (download_subtitle env depth file_id st1) as [res2 st2] eqn:Hd.
    destruct (download_subtitle_spec env depth _ _ _ _ Hd)
      as (dl & ((_ & _ & _ & _ & Hl & Hr & _) & _) & _).
    destruct res2 as [content|e]; cycle 1.
    { erewrite bind_Raise by exact Hd. intros [= <- <-]; auto. }
    erewrite bind_Ok by exact Hd.
    destruct content as [[|b bs]|]; [intros [= <- <-]; auto| |intros [= <- <-]; auto].
    destruct (writable env _); intros [= <- <-]; [|auto].
    split; [done|]. right. eexists. cbn. rewrite Hr. split; [reflexivity|done].
  - rewrite bind_ret. intros [= <- <-]; auto.
  - rewrite bind_ret. intros [= <- <-]; auto.
Qed.

Lemma for_lang_in_report depth item media_path results missing :
  ∀ count st res st',
    for_lang_in env depth item media_path results missing count st = (res, st') ->
    languages st' = languages st
    ∧ ∃ records, download_report st' = download_report st ++ records
                 ∧ Forall (λ r, media_title r = item_name_of item
                                ∧ media_type r = media_type_of item
                                ∧ ds_language r ∈ missing) records.
Proof.
  induction missing as [|lang rest IH]; intros count st res st'.
  - intros [= <- <-]. split; [done|]. exists []. by rewrite app_nil_r.
  - cbn [for_lang_in].
    destruct (download_language env depth item media_path results lang st)
      as [res1 st1] eqn:Hone.
    destruct (download_language_report _ _ _ _ _ _ _ _ Hone) as [Hl1 Hr1].
    assert (∃ records, download_report st1 = download_report st ++ records
              ∧ Forall (λ r, media_title r = item_name_of item
                             ∧ media_type r = media_type_of item
                             ∧ ds_language r ∈ lang :: rest) records) as Hfirst.
    { destruct Hr1 as [Hr1|(r & Hr1 & Hn & Ht & Hlang)].
      - exists []. by rewrite app_nil_r.
      - exists [r]. split; [done|]. constructor; [|constructor].
        split; [done|]. split; [done|]. rewrite Hlang. left. }
    destruct res1 as [n1|e].
    + erewrite bind_Ok by exact Hone. intros Hrest.
      destruct (IH _ _ _ _ Hrest) as (Hl2 & records2 & Hr2 & Hall2).
      split; [congruence|].
      destruct Hfirst as (records1 & Hr1' & Hall1).
      exists (records1 ++ records2). split; [by rewrite Hr2, Hr1', app_assoc|].
      apply Forall_app. split; [done|].
      eapply Forall_impl; [exact Hall2|]. cbn. intros r (?&?&?).
      split; [done|]. split; [done|]. by right.
    + erewrite bind_Raise by exact Hone. intros [= <- <-]. by split.
Qed.

Lemma download_subtitles_for_item_report depth item st res st' :
  download_subtitles_for_item env depth item st = (res, st') ->
  ∃ records, download_report st' = download_report st ++ records
             ∧ Forall (More.record_of item st) records.
Proof.
  assert (∀ st0, download_report st0 = download_report st ->
            ∃ records, download_report st0 = download_report st ++ records
                       ∧ Forall (More.record_of item st) records) as Hnothing.
  { intros st0 H. exists []. by rewrite app_nil_r. }
  unfold download_subtitles_for_item.
  destruct (get_media_path item) as [media_path|]; [|intros [= <- <-]; auto].
  rewrite bind_gets.
  destruct (path_exists media_path st); cbn [negb]; [|intros [= <- <-]; auto].
  rewrite !bind_gets.
  destruct (List.filter _ (elements (needs_subtitles (languages st) item)))
    as [|lang0 missing0] eqn:Hmissing; [intros [= <- <-]; auto|].
  rewrite bind_gets.
  destruct (scan_guids (guids item)) as [imdb_id tmdb_id].
  match goal with
  | |- (search_subtitles env ?q ?i ?t ?l ?f ?s ?e ≫= _) st = _ -> _ =>
      destruct (search_subtitles env q i t l f s e st) as [found st1] eqn:Hsearch
  end.
  destruct (search_subtitles_spec env _ _ _ _ _ _ _ _ _ _ Hsearch)
    as (new1 & (_ & _ & _ & _ & Hl1 & Hr1 & _) & _).
  destruct found as [[[|r results]|]|e].
  - erewrite bind_Ok by exact Hsearch. intros [= <- <-]; auto.
  - erewrite bind_Ok by exact Hsearch. intros Hloop.
    destruct (for_lang_in_report _ _ _ _ _ _ _ _ _ Hloop)
      as (_ & records & Hr2 & Hall).
    exists records. split; [congruence|].
    eapply Forall_impl; [exact Hall|]. cbn. intros r' (Hn & Ht & Hin).
    split; [done|]. split; [done|].
    rewrite <- Hmissing in Hin. apply list_elem_of_In, filter_In in Hin as [Hin _].
    by apply list_elem_of_In, elem_of_elements in Hin.
  - erewrite bind_Ok by exact Hsearch. intros [= <- <-]; auto.
  - erewrite bind_Raise by exact Hsearch. intros [= <- <-]; auto.
Qed.

Lemma for_lang_in_count depth item media_path results missing :
  ∀ count st res st',
    for_lang_in env depth item media_path results missing count st = (res, st') ->
    ∃ records, download_report st' = download_report st ++ records
               ∧ (length records <= length missing)%nat.
Proof.
  induction missing as [|lang rest IH]; intros count st res st'.
  - intros [= <- <-]. exists []. by rewrite app_nil_r.
  - cbn [for_lang_in].
    destruct (download_language env depth item media_path results lang st)
      as [res1 st1] eqn:Hone.
    destruct (download_language_report _ _ _ _ _ _ _ _ Hone) as [_ Hr1].
    assert (∃ records, download_report st1 = download_report st ++ records
                       ∧ (length records <= 1)%nat) as (records1 & Hr1' & Hlen1).
    { destruct Hr1 as [Hr1|(r & Hr1 & _)].
      - exists []. rewrite app_nil_r. split; [done|cbn; lia].
      - exists [r]. split; [done|cbn; lia]. }
    destruct res1 as [n1|e].
    + erewrite bind_Ok by exact Hone. intros Hrest.
      destruct (IH _ _ _ _ Hrest) as (records2 & Hr2 & Hlen2).
      exists (records1 ++ records2). split; [by rewrite Hr2, Hr1', app_assoc|].
      rewrite length_app. cbn [length]. lia.
    + erewrite bind_Raise by exact Hone. intros [= <- <-].
      exists records1. split; [done|]. cbn [length]. lia.
Qed.

End Report.


(** ** The statistics of a library *)

Section Statistics.
Import OpenSubtitlesAPI PlexSubtitleDownloader Effect Orchestration.
Context (env : Env).

Lemma length_omap_le {A B} (f : A -> option B) (l : list A) :
  (length (omap f l) <= length l)%nat.
Proof. induction l as [|x l IH]; cbn; [lia|]. destruct (f x); cbn; lia. Qed.

Lemma size_list_to_set_le (l : list string) :
  (size (list_to_set l : gset string) <= length l)%nat.
Proof.
  induction l as [|x l IH]; cbn [list_to_set length].
  - by rewrite size_empty.
  - rewrite size_union_alt, size_singleton.
    assert (size (list_to_set l ∖ {[x]} : gset string)
            <= size (list_to_set l : gset string))%nat
      by (apply subseteq_size; set_solver).
    lia.
Qed.

Lemma length_missing_le languages item (f : string -> bool) :
  (length (List.filter f (elements (needs_subtitles languages item)))
   <= length languages)%nat.
Proof.
  etransitivity; [apply filter_length_le|].
  change (size (needs_subtitles languages item) <= length languages)%nat.
  etransitivity; [|apply size_list_to_set_le].
  apply subseteq_size. unfold needs_subtitles. set_solver.
Qed.

Lemma stat_insert_ne key key' v stats :
  key ≠ key' -> stat (<[key := v]> stats) key' = stat stats key'.
Proof. intros H. unfold stat. by rewrite lookup_insert_ne. Qed.

Lemma stat_insert_same key v stats : stat (<[key := v]> stats) key = v.
Proof. unfold stat. by rewrite lookup_insert_eq. Qed.

(** No more downloads for an item than there are target languages. *)
Lemma download_subtitles_for_item_bound depth item st n st' :
  download_subtitles_for_item env depth item st = (Ok n, st') ->
  (0 <= n <= Z.of_nat (length (languages st)))%Z.
Proof.
  unfold download_subtitles_for_item.
  destruct (get_media_path item) as [media_path|]; [|intros [= <- <-]; lia].
  rewrite bind_gets.
  destruct (path_exists media_path st); cbn [negb]; [|intros [= <- <-]; lia].
  rewrite !bind_gets.
  pose proof (length_missing_le (languages st) item
                (λ lang, negb (subtitle_exists media_path lang st))) as Hlen.
  destruct (List.filter _ (elements (needs_subtitles (languages st) item)))
    as [|lang0 missing0] eqn:Hmissing; [intros [= <- <-]; lia|].
  rewrite bind_gets.
  destruct (scan_guids (guids item)) as [imdb_id tmdb_id].
  match goal with
  | |- (search_subtitles env ?q ?i ?t ?l ?f ?s ?e ≫= _) st = _ -> _ =>
      destruct (search_subtitles env q i t l f s e st) as [found st1] eqn:Hsearch
  end.
  destruct found as [[[|r results]|]|e].
  - erewrite bind_Ok by exact Hsearch. intros [= <- <-]. lia.
  - erewrite bind_Ok by exact Hsearch. intros Hloop.
    destruct (for_lang_in_spec _ _ _ _ _ _ _ _ _ _ Hloop)
      as (new2 & records & _ & _ & _ & _ & (_ & Hle & _) & Hres2).
    destruct (Hres2 n eq_refl) as [-> Hatt].
    rewrite Hatt in Hle. unfold expected_attempts in Hle.
    pose proof (length_omap_le
                  (λ lang, (λ file_id, (lang, file_id)) <$> chosen_file_id (r :: results) lang)
                  (lang0 :: missing0)).
    lia.
  - erewrite bind_Ok by exact Hsearch. intros [= <- <-]. lia.
  - erewrite bind_Raise by exact Hsearch. done.
Qed.

(** The [try] block on a video. *)
Lemma process_item_video depth item stats total st :
  ∃ stats' total' st',
    process_item env depth (Video item) stats total st = (Ok (stats', total'), st')
    ∧ languages st' = languages st
    ∧ stat stats' "total" = stat stats "total"
    ∧ stat stats' "skipped" = stat stats "skipped"
    ∧ stat stats' "needs_subtitles"
      = (stat stats "needs_subtitles"
         + if bool_decide (needs_subtitles (languages st) item ≠ ∅) then 1 else 0)%Z
    ∧ (stat stats "errors" <= stat stats' "errors")%Z
    ∧ (stat stats' "errors" - stat stats "errors"
       <= stat stats' "needs_subtitles" - stat stats "needs_subtitles")%Z
    ∧ (total' - total = stat stats' "downloaded" - stat stats "downloaded")%Z
    ∧ (0 <= total' - total <= Z.of_nat (length (languages st)))%Z.
Proof.
  assert (needs_subtitles_of (Video item) st
          = (Ok (needs_subtitles (languages st) item), st)) as Hneeds by done.
  unfold process_item, try_except.
  erewrite bind_Ok by exact Hneeds.
  case_bool_decide as Hmissing.
  - unfold try_except.
    destruct (download_subtitles_for_item env depth item st)
      as [[downloaded|e] st2] eqn:Hd.
    + erewrite bind_Ok by exact Hd.
      destruct (download_subtitles_for_item_spec env _ _ _ _ _ Hd)
        as (new & records & _ & Hl & _).
      pose proof (download_subtitles_for_item_bound _ _ _ _ _ Hd) as Hb.
      destruct (0 <? downloaded)%Z eqn:Hpos.
      * eexists _, _, _. split; [reflexivity|]. split; [done|].
        rewrite !stat_add_same, !stat_add_other by done.
        rewrite !stat_add_same, !stat_add_other by done. lia.
      * apply Z.ltb_ge in Hpos. eexists _, _, _. split; [reflexivity|].
        split; [done|].
        rewrite !stat_add_same, !stat_add_other by done. lia.
    + erewrite bind_Raise by exact Hd.
      destruct (download_subtitles_for_item_spec env _ _ _ _ _ Hd)
        as (new & records & _ & Hl & _).
      eexists _, _, _. split; [reflexivity|]. split; [done|].
      rewrite !stat_add_same, !stat_add_other by done.
      rewrite !stat_add_same, !stat_add_other by done. lia.
  - eexists _, _, _. split; [reflexivity|]. split; [done|]. lia.
Qed.

Lemma for_item_in_videos depth max_downloads n videos :
  ∀ i stats total st,
    ∃ stats' st',
      for_item_in env depth max_downloads n (Video <$> videos) i stats total st
      = (Ok stats', st')
      ∧ languages st' = languages st
      ∧ stat stats' "total" = stat stats "total"
      ∧ (stat stats "errors" <= stat stats' "errors")%Z
      ∧ (stat stats' "errors" - stat stats "errors"
         <= stat stats' "needs_subtitles" - stat stats "needs_subtitles")%Z
      ∧ (stat stats' "needs_subtitles" - stat stats "needs_subtitles"
         <= Z.of_nat (length (More.lacking (languages st) videos)))%Z
      ∧ (max_downloads = None ->
         stat stats' "needs_subtitles" - stat stats "needs_subtitles"
         = Z.of_nat (length (More.lacking (languages st) videos))
         ∧ stat stats' "skipped" = stat stats "skipped")%Z
      ∧ (0 <= stat stats' "downloaded" - stat stats "downloaded")%Z
      ∧ (∀ m, max_downloads = Some m -> (0 < m)%Z ->
           (total <= m - 1 + Z.of_nat (length (languages st)))%Z ->
           (total + (stat stats' "downloaded" - stat stats "downloaded")
            <= m - 1 + Z.of_nat (length (languages st)))%Z).
Proof.
  induction videos as [|item rest IH]; intros i stats total st.
  - exists stats, st. cbn. split; [done|]. split; [done|]. split; [done|].
    split; [lia|]. split; [lia|]. split; [lia|]. split; [intros; lia|].
    split; [lia|]. intros; lia.
  - cbn [fmap list_fmap for_item_in].
    destruct (limit_reached max_downloads total) eqn:Hlimit.
    + eexists _, _. split; [reflexivity|]. split; [done|].
      rewrite (stat_insert_ne "skipped" "total"), (stat_insert_ne "skipped" "errors"),
        (stat_insert_ne "skipped" "needs_subtitles"),
        (stat_insert_ne "skipped" "downloaded") by done.
      split; [done|]. split; [lia|]. split; [lia|]. split; [lia|].
      split; [by intros ->|]. split; [lia|]. intros; lia.
    + destruct (process_item_video depth item stats total st)
        as (stats1 & total1 & st1 & Hone & Hl1 & Ht1 & Hs1 & Hn1 & He1 & Hen1
            & Hd1 & Hb1).
      destruct (IH (i + 1)%Z stats1 total1 st1)
        as (stats' & st' & Hrest & Hl & Ht & He & Hen & Hn & Hnone & Hd & Hbudget).
      exists stats', st'.
      split; [erewrite bind_Ok by exact Hone; exact Hrest|].
      rewrite Hl1 in *.
      assert (Z.of_nat (length (More.lacking (languages st) (item :: rest)))
              = ((if bool_decide (needs_subtitles (languages st) item ≠ ∅)
                  then 1 else 0)
                 + Z.of_nat (length (More.lacking (languages st) rest)))%Z) as Hcount.
      { unfold More.lacking. cbn [List.filter].
        destruct (bool_decide (needs_subtitles (languages st) item ≠ ∅));
          cbn [length]; lia. }
      rewrite Hcount.
      split; [done|]. split; [lia|]. split; [lia|]. split; [lia|]. split; [lia|].
      split.
      { intros Hm. destruct (Hnone Hm). lia. }
      split; [lia|].
      intros m Hm Hpos Htotal.
      assert (total < m)%Z as Hlt.
      { rewrite Hm in Hlimit. unfold limit_reached in Hlimit.
        destruct (m =? 0)%Z eqn:E0; [apply Z.eqb_eq in E0; lia|].
        cbn [negb andb] in Hlimit. by apply Z.leb_gt in Hlimit. }
      specialize (Hbudget m Hm Hpos). lia.
Qed.

(** The records an item leaves, whether or not its processing raises. *)
Lemma download_subtitles_for_item_count depth item st res st' :
  download_subtitles_for_item env depth item st = (res, st') ->
  ∃ records,
    download_report st' = download_report st ++ records
    ∧ (length records <= length (languages st))%nat
    ∧ (∀ n, res = Ok n -> n = Z.of_nat (length records)).
Proof.
  assert (∀ st0, download_report st0 = download_report st ->
            ∃ records, download_report st0 = download_report st ++ records
                       ∧ (length records <= length (languages st))%nat
                       ∧ (∀ n, Ok 0%Z = Ok n -> n = Z.of_nat (length records)))
    as Hnothing.
  { intros st0 H. exists []. rewrite app_nil_r. split; [done|].
    split; [cbn; lia|]. by intros n [= <-]. }
  unfold download_subtitles_for_item.
  destruct (get_media_path item) as [media_path|]; [|intros [= <- <-]; auto].
  rewrite bind_gets.
  destruct (path_exists media_path st); cbn [negb]; [|intros [= <- <-]; auto].
  rewrite !bind_gets.
  pose proof (length_missing_le (languages st) item
                (λ lang, negb (subtitle_exists media_path lang st))) as Hlen.
  destruct (List.filter _ (elements (needs_subtitles (languages st) item)))
    as [|lang0 missing0] eqn:Hmissing; [intros [= <- <-]; auto|].
  rewrite bind_gets.
  destruct (scan_guids (guids item)) as [imdb_id tmdb_id].
  match goal with
  | |- (search_subtitles env ?q ?i ?t ?l ?f ?s ?e ≫= _) st = _ -> _ =>
      destruct (search_subtitles env q i t l f s e st) as [found st1] eqn:Hsearch
  end.
  destruct (search_subtitles_spec env _ _ _ _ _ _ _ _ _ _ Hsearch)
    as (new1 & (_ & _ & _ & _ & _ & Hr1 & _) & _).
  destruct found as [[[|r results]|]|e].
  - erewrite bind_Ok by exact Hsearch. intros [= <- <-]; auto.
  - erewrite bind_Ok by exact Hsearch. intros Hloop.
    destruct (for_lang_in_count env _ _ _ _ _ _ _ _ _ Hloop)
      as (records & Hr2 & Hle).
    exists records. split; [congruence|]. split; [lia|].
    intros n ->.
    destruct (for_lang_in_spec _ _ _ _ _ _ _ _ _ _ Hloop)
      as (new2 & records' & _ & _ & Hr2' & _ & _ & Hres2).
    destruct (Hres2 n eq_refl) as [-> _].
    rewrite Hr2 in Hr2'. apply app_inv_head in Hr2' as <-. lia.
  - erewrite bind_Ok by exact Hsearch. intros [= <- <-]; auto.
  - erewrite bind_Raise by exact Hsearch. intros [= <- <-].
    exists []. rewrite app_nil_r. split; [done|]. split; [cbn; lia|done].
Qed.

Lemma process_item_records depth item stats total st :
  ∃ stats' total' st' records,
    process_item env depth (Video item) stats total st = (Ok (stats', total'), st')
    ∧ languages st' = languages st
    ∧ download_report st' = download_report st ++ records
    ∧ (0 <= stat stats' "errors" - stat stats "errors")%Z
    ∧ (stat stats' "downloaded" - stat stats "downloaded"
       <= Z.of_nat (length records)
       <= stat stats' "downloaded" - stat stats "downloaded"
          + (stat stats' "errors" - stat stats "errors")
            * Z.of_nat (length (languages st)))%Z.
Proof.
  assert (needs_subtitles_of (Video item) st
          = (Ok (needs_subtitles (languages st) item), st)) as Hneeds by done.
  unfold process_item, try_except.
  erewrite bind_Ok by exact Hneeds.
  case_bool_decide as Hmissing.
  - unfold try_except.
    destruct (download_subtitles_for_item env depth item st)
      as [[downloaded|e] st2] eqn:Hd.
    + erewrite bind_Ok by exact Hd.
      destruct (download_subtitles_for_item_spec env _ _ _ _ _ Hd)
        as (new & records0 & _ & Hl & _).
      destruct (download_subtitles_for_item_count _ _ _ _ _ Hd)
        as (records & Hr & Hle & Hn).
      specialize (Hn downloaded eq_refl).
      destruct (0 <? downloaded)%Z eqn:Hpos.
      * eexists _, _, _, records. split; [reflexivity|]. split; [done|].
        split; [done|].
        rewrite !stat_add_same, !stat_add_other by done.
        rewrite ?stat_add_same, ?stat_add_other by done. lia.
      * apply Z.ltb_ge in Hpos. eexists _, _, _, records. split; [reflexivity|].
        split; [done|]. split; [done|].
        rewrite ?stat_add_same, ?stat_add_other by done. lia.
    + erewrite bind_Raise by exact Hd.
      destruct (download_subtitles_for_item_spec env _ _ _ _ _ Hd)
        as (new & records0 & _ & Hl & _).
      destruct (download_subtitles_for_item_count _ _ _ _ _ Hd)
        as (records & Hr & Hle & _).
      eexists _, _, _, records. split; [reflexivity|]. split; [done|].
      split; [done|].
      rewrite !stat_add_same, !stat_add_other by done.
      rewrite ?stat_add_same, ?stat_add_other by done. lia.
  - eexists _, _, _, []. split; [reflexivity|]. split; [done|].
    rewrite app_nil_r. split; [done|]. cbn [length]. lia.
Qed.

Lemma for_item_in_records depth max_downloads n videos :
  ∀ i stats total st,
    ∃ stats' st' records,
      for_item_in env depth max_downloads n (Video <$> videos) i stats total st
      = (Ok stats', st')
      ∧ languages st' = languages st
      ∧ download_report st' = download_report st ++ records
      ∧ (0 <= stat stats' "errors" - stat stats "errors")%Z
      ∧ (stat stats' "downloaded" - stat stats "downloaded"
         <= Z.of_nat (length records)
         <= stat stats' "downloaded" - stat stats "downloaded"
            + (stat stats' "errors" - stat stats "errors")
              * Z.of_nat (length (languages st)))%Z.
Proof.
  induction videos as [|item rest IH]; intros i stats total st.
  - exists stats, st, []. cbn. rewrite app_nil_r.
    split; [done|]. split; [done|]. split; [done|]. lia.
  - cbn [fmap list_fmap for_item_in].
    destruct (limit_reached max_downloads total) eqn:Hlimit.
    + eexists _, _, []. split; [reflexivity|]. split; [done|].
      rewrite app_nil_r. split; [done|].
      rewrite (stat_insert_ne "skipped" "errors"),
        (stat_insert_ne "skipped" "downloaded") by done.
      cbn [length]. lia.
    + destruct (process_item_records depth item stats total st)
        as (stats1 & total1 & st1 & records1 & Hone & Hl1 & Hr1 & He1 & Hc1).
      destruct (IH (i + 1)%Z stats1 total1 st1)
        as (stats' & st' & records2 & Hrest & Hl2 & Hr2 & He2 & Hc2).
      exists stats', st', (records1 ++ records2).
      split; [erewrite bind_Ok by exact Hone; exact Hrest|].
      split; [congruence|].
      split; [by rewrite Hr2, Hr1, app_assoc|].
      rewrite Hl1 in Hc2. rewrite length_app. split; [lia|]. nia.
Qed.

End Statistics.

Section LibraryStatistics.
Import OpenSubtitlesAPI PlexSubtitleDownloader Effect Orchestration.

(** X13: processing a movie library never raises, whatever the provider, the
    clock and the disk do, and its counts fit together: [total] is the
    number of items; [needs_subtitles] is at most the number of items that
    lack a target language according to their streams, and is that number
    when there is no budget (and then nothing is skipped); every error was
    counted under [needs_subtitles] first; [downloaded] is not negative. *)
Theorem movie_library_statistics_are_consistent :
  ∀ (env : Env) (depth : nat) (library : Library) (videos : list Item)
    (media_type : option string) (max_downloads : option Z) (st : State),
    List.find (fun l => String.eqb (lib_title l) (lib_title library))
              (plex_sections env) = Some library →
    lib_type library = "movie" →
    lib_all library = Video <$> videos →
    ∃ stats st',
      process_library env depth (lib_title library) media_type max_downloads st
      = (Ok stats, st')
      ∧ languages st' = languages st
      ∧ stat stats "total" = Z.of_nat (length videos)
      ∧ (0 <= stat stats "errors" <= stat stats "needs_subtitles")%Z
      ∧ (stat stats "needs_subtitles"
         <= Z.of_nat (length (More.lacking (languages st) videos))
         <= stat stats "total")%Z
      ∧ (max_downloads = None →
         stat stats "needs_subtitles"
         = Z.of_nat (length (More.lacking (languages st) videos))
         ∧ stat stats "skipped" = 0%Z)
      ∧ (0 <= stat stats "downloaded")%Z.
Proof.
  intros env depth library videos media_type max_downloads st Hfind Htype Hall.
  rewrite (process_library_movies env _ _ _ _ _ Hfind Htype), Hall.
  rewrite length_fmap.
  set (stats0 := <["total" := Z.of_nat (length videos)]> empty_stats).
  destruct (for_item_in_videos env depth max_downloads (Z.of_nat (length videos))
              videos 1%Z stats0 0%Z st)
    as (stats & st' & Hrun & Hl & Ht & He & Hen & Hn & Hnone & Hd & _).
  assert (stat stats0 "total" = Z.of_nat (length videos)) as H0t
    by apply stat_insert_same.
  assert (stat stats0 "errors" = 0%Z ∧ stat stats0 "needs_subtitles" = 0%Z
          ∧ stat stats0 "skipped" = 0%Z ∧ stat stats0 "downloaded" = 0%Z)
    as (H0e & H0n & H0s & H0d).
  { unfold stats0. rewrite !stat_insert_ne by done. by vm_compute. }
  rewrite H0t, H0e, H0n, ?H0s, ?H0d in *.
  exists stats, st'. split; [exact Hrun|]. split; [done|]. split; [done|].
  split; [lia|]. split.
  - split; [lia|]. rewrite Ht. unfold More.lacking.
    apply inj_le, filter_length_le.
  - split; [|lia]. intros Hm. destruct (Hnone Hm) as [H1 H2].
    split; [lia|done].
Qed.

Lemma movie_library_statistics_witness :
  let env := Scenario.with_net Scenario.provider_net [Scenario.movies] in
  let st := Scenario.fresh ["en"; "es"] Scenario.disk in
  ∃ stats st',
    process_library env 5 "Movies" None None st = (Ok stats, st')
    ∧ stat stats "total" = 2%Z ∧ stat stats "needs_subtitles" = 2%Z.
Proof.
  intros env st.
  destruct (movie_library_statistics_are_consistent env 5 Scenario.movies
              [Scenario.movie; Scenario.sequel] None None st
              eq_refl eq_refl eq_refl)
    as (stats & st' & Hrun & _ & Ht & _ & _ & Hnone & _).
  exists stats, st'. split; [exact Hrun|]. split; [exact Ht|].
  exact (proj1 (Hnone eq_refl)).
Defined.

(** X14: the budget is compared, between items, with the downloads counted
    so far, and what an item downloaded is counted only when its processing
    returns.  With a budget [m > 0] the count [downloaded] of a movie
    library is at most [m - 1 + len(languages)].  The number of records
    actually appended (one for each subtitle saved) is at least that count,
    and exceeds it by at most [len(languages)] for each item counted under
    [errors]; so it equals the count when no item raised, and is never more
    than [m - 1 + len(languages) * (1 + errors)]. *)
Theorem budget_overshoot_is_bounded :
  ∀ (env : Env) (depth : nat) (library : Library) (videos : list Item)
    (media_type : option string) (m : Z) (st : State),
    List.find (fun l => String.eqb (lib_title l) (lib_title library))
              (plex_sections env) = Some library →
    lib_type library = "movie" →
    lib_all library = Video <$> videos →
    (0 < m)%Z →
    ∃ stats st' records,
      process_library env depth (lib_title library) media_type (Some m) st
      = (Ok stats, st')
      ∧ download_report st' = download_report st ++ records
      ∧ (0 <= stat stats "downloaded"
         <= m - 1 + Z.of_nat (length (languages st)))%Z
      ∧ (0 <= stat stats "errors")%Z
      ∧ (stat stats "downloaded"
         <= Z.of_nat (length records)
         <= stat stats "downloaded"
            + stat stats "errors" * Z.of_nat (length (languages st)))%Z
      ∧ (Z.of_nat (length records)
         <= m - 1 + Z.of_nat (length (languages st)) * (1 + stat stats "errors"))%Z.
Proof.
  intros env depth library videos media_type m st Hfind Htype Hall Hm.
  rewrite (process_library_movies env _ _ _ _ _ Hfind Htype), Hall.
  rewrite length_fmap.
  set (stats0 := <["total" := Z.of_nat (length videos)]> empty_stats).
  destruct (for_item_in_videos env depth (Some m) (Z.of_nat (length videos))
              videos 1%Z stats0 0%Z st)
    as (stats & st' & Hrun & _ & _ & _ & _ & _ & _ & Hd & Hbudget).
  destruct (for_item_in_records env depth (Some m) (Z.of_nat (length videos))
              videos 1%Z stats0 0%Z st)
    as (stats2 & st2 & records & Hrun2 & _ & Hr & He & Hc).
  rewrite Hrun in Hrun2. injection Hrun2 as <- <-.
  assert (stat stats0 "downloaded" = 0%Z ∧ stat stats0 "errors" = 0%Z)
    as [H0d H0e].
  { unfold stats0. rewrite !stat_insert_ne by done. by vm_compute. }
  rewrite H0d, H0e in *.
  exists stats, st', records. split; [exact Hrun|]. split; [exact Hr|].
  specialize (Hbudget m eq_refl Hm).
  split; [lia|]. split; [lia|]. split; [lia|]. nia.
Qed.

Lemma budget_overshoot_witness :
  let env := Scenario.with_net Scenario.provider_net [Scenario.movies] in
  let st := Scenario.fresh ["en"; "es"] Scenario.disk in
  ∃ stats st' records,
    process_library env 5 "Movies" None (Some 1%Z) st = (Ok stats, st')
    ∧ download_report st' = records
    ∧ (0 <= stat stats "downloaded" <= 2)%Z
    ∧ (stat stats "downloaded" <= Z.of_nat (length records))%Z.
Proof.
  intros env st.
  destruct (budget_overshoot_is_bounded env 5 Scenario.movies
              [Scenario.movie; Scenario.sequel] None 1 st eq_refl eq_refl eq_refl)
    as (stats & st' & records & Hrun & Hr & Hd & _ & Hc & _); [reflexivity|].
  exists stats, st', records. split; [exact Hrun|]. split; [exact Hr|].
  split; [exact Hd|exact (proj1 Hc)].
Defined.

End LibraryStatistics.


(** ** Budgets and library types *)

Section Libraries.
Import OpenSubtitlesAPI PlexSubtitleDownloader Effect Orchestration.
Context (env : Env).

Lemma for_item_in_zero depth n items :
  ∀ i stats total st,
    for_item_in env depth (Some 0%Z) n items i stats total st
    = for_item_in env depth None n items i stats total st.
Proof.
  induction items as [|item rest IH]; intros i stats total st; [done|].
  cbn [for_item_in limit_reached Z.eqb negb andb].
  unfold mbind, M_bind.
  destruct (process_item env depth item stats total st) as [[[stats1 total1]|e] st1];
    [apply IH|done].
Qed.

Lemma process_library_zero depth library_name media_type st :
  process_library env depth library_name media_type (Some 0%Z) st
  = process_library env depth library_name media_type None st.
Proof.
  unfold process_library, mbind, M_bind.
  destruct (try_except _ _ st) as [[[library|]|e] st1]; [|done|done].
  destruct (_ || _); [apply for_item_in_zero|].
  destruct (_ || _); [|done].
  destruct (all_episodes (lib_all library) st1) as [[items|e] st2]; [|done].
  apply for_item_in_zero.
Qed.

Lemma for_library_in_zero depth media_type libraries :
  ∀ total_stats total st,
    for_library_in env depth media_type (Some 0%Z) libraries total_stats total st
    = for_library_in env depth media_type None libraries total_stats total st.
Proof.
  induction libraries as [|library rest IH]; intros total_stats total st; [done|].
  cbn [for_library_in Z.eqb].
  destruct (bool_decide (lib_type library ∈ ["movie"; "show"])); [|apply IH].
  unfold mbind, M_bind.
  destruct (process_library env depth (lib_title library) media_type None st)
    as [[stats|e] st1]; [apply IH|done].
Qed.

Lemma for_library_in_filter depth media_type max_downloads libraries :
  ∀ total_stats total st,
    for_library_in env depth media_type max_downloads libraries total_stats total st
    = for_library_in env depth media_type max_downloads
        (List.filter (fun library => bool_decide (lib_type library ∈ ["movie"; "show"]))
                     libraries)
        total_stats total st.
Proof.
  induction libraries as [|library rest IH]; intros total_stats total st; [done|].
  cbn [List.filter].
  destruct (bool_decide (lib_type library ∈ ["movie"; "show"])) eqn:Hty;
    cbn [for_library_in]; rewrite Hty; [|apply IH].
  destruct max_downloads as [m|].
  - destruct (m =? 0)%Z.
    + unfold mbind, M_bind.
      destruct (process_library env depth (lib_title library) media_type None st)
        as [[stats|e] st1]; [apply IH|done].
    + destruct (m - total <=? 0)%Z; [apply IH|].
      unfold mbind, M_bind.
      destruct (process_library env depth (lib_title library) media_type
                  (Some (m - total)%Z) st) as [[stats|e] st1]; [apply IH|done].
  - unfold mbind, M_bind.
    destruct (process_library env depth (lib_title library) media_type None st)
      as [[stats|e] st1]; [apply IH|done].
Qed.

(** The episodes of a library of shows, show by show. *)
Lemma all_episodes_shows shows st :
  all_episodes (Show <$> shows) st = (Ok (Video <$> concat shows), st).
Proof.
  induction shows as [|episodes rest IH]; [done|].
  cbn [fmap list_fmap all_episodes concat].
  erewrite bind_Ok by exact IH. by rewrite fmap_app.
Qed.

(** [process_library] on a library of shows is the loop over the episodes
    of its shows. *)
Lemma process_library_shows depth library media_type max_downloads shows st :
  List.find (fun l => String.eqb (lib_title l) (lib_title library))
            (plex_sections env) = Some library ->
  lib_type library = "show" ->
  media_type ≠ Some "movie" ->
  lib_all library = Show <$> shows ->
  process_library env depth (lib_title library) media_type max_downloads st
  = for_item_in env depth max_downloads (Z.of_nat (length (concat shows)))
      (Video <$> concat shows) 1
      (<["total" := Z.of_nat (length (concat shows))]> empty_stats) 0 st.
Proof.
  intros Hfind Htype Hmt Hall. unfold process_library, try_except, section.
  rewrite Hfind. erewrite bind_Ok by reflexivity. cbv iota beta.
  rewrite (bool_decide_eq_false_2 (media_type = Some "movie")) by done.
  rewrite (bool_decide_eq_false_2 (lib_type library = "movie"))
    by (rewrite Htype; discriminate).
  rewrite (bool_decide_eq_true_2 (lib_type library = "show")) by done.
  rewrite orb_true_r. cbn [orb].
  rewrite Hall. erewrite bind_Ok by apply all_episodes_shows.
  cbv zeta. by rewrite length_fmap.
Qed.

End Libraries.

Section LibrariesMore.
Import OpenSubtitlesAPI PlexSubtitleDownloader Effect Orchestration.

(** X15: a budget of 0 is no budget: [max_downloads=0] is falsy, so a
    library, and all libraries, are processed exactly as with
    [max_downloads=None]; nothing is skipped on account of the budget. *)
Theorem zero_budget_is_no_budget :
  ∀ (env : Env) (depth : nat) (media_type : option string) (st : State),
    (∀ library_name,
       process_library env depth library_name media_type (Some 0%Z) st
       = process_library env depth library_name media_type None st)
    ∧ process_all_libraries env depth media_type (Some 0%Z) st
      = process_all_libraries env depth media_type None st.
Proof.
  intros env depth media_type st. split.
  - intros library_name. apply process_library_zero.
  - apply for_library_in_zero.
Qed.

(** X16: [process_all_libraries] passes over every library whose type is
    neither [movie] nor [show]: the run is the run on the movie and show
    libraries alone.  And [process_library] with a name that no library has
    returns an empty dictionary and does nothing. *)
Theorem other_libraries_are_left_alone :
  ∀ (env : Env) (depth : nat) (media_type : option string)
    (max_downloads : option Z) (st : State),
    process_all_libraries env depth media_type max_downloads st
    = for_library_in env depth media_type max_downloads
        (List.filter (fun library => bool_decide (lib_type library ∈ ["movie"; "show"]))
                     (plex_sections env))
        empty_stats 0%Z st
    ∧ ∀ library_name,
        (∀ library, library ∈ plex_sections env → lib_title library ≠ library_name) →
        process_library env depth library_name media_type max_downloads st
        = (Ok ∅, st).
Proof.
  intros env depth media_type max_downloads st. split.
  - apply for_library_in_filter.
  - intros library_name Hnone.
    unfold process_library, try_except, section.
    destruct (List.find _ (plex_sections env)) as [library|] eqn:Hfind; [|done].
    apply find_some in Hfind as [Hin Heq].
    apply String.eqb_eq in Heq. apply list_elem_of_In in Hin.
    by destruct (Hnone library Hin).
Qed.

Lemma other_libraries_witness :
  process_library (Scenario.with_net Scenario.provider_net [Scenario.movies]) 5
    "Music" None None (Scenario.fresh ["en"] Scenario.disk)
  = (Ok ∅, Scenario.fresh ["en"] Scenario.disk).
Proof.
  destruct (other_libraries_are_left_alone
              (Scenario.with_net Scenario.provider_net [Scenario.movies]) 5
              None None (Scenario.fresh ["en"] Scenario.disk)) as [_ H].
  apply H. intros library [->|Hin%elem_of_nil]%elem_of_cons; [discriminate|done].
Defined.

(** X19: what the budget is compared with.  With a budget (a
    [max_downloads] other than 0) the loop over the items stops at the first
    item at which the downloads counted so far, the sum of what
    [download_subtitles_for_item] returned for the items before, have
    reached the budget: that item and all after it are counted as skipped
    and nothing is done for them, so the run is the run without a budget on
    the items before it.  The loop over the libraries passes over a movie or
    show library once the counted downloads have reached the budget, and
    hands it the budget less the counted downloads otherwise.  The items of
    a movie library are what the library lists; those of a show library are
    the episodes of its shows, show by show. *)
Theorem budget_is_compared_with_the_counted_downloads :
  ∀ (env : Env) (depth : nat) (m : Z),
    m ≠ 0%Z →
    (∀ n item rest i stats total st,
       (m <= total)%Z →
       for_item_in env depth (Some m) n (item :: rest) i stats total st
       = (Ok (<["skipped" := (n - i + 1)%Z]> stats), st))
    ∧ (∀ items stats st,
         ∃ processed skipped stats_p st',
           items = processed ++ skipped
           ∧ for_item_in env depth None (Z.of_nat (length items)) processed
                         1 stats 0 st
             = (Ok stats_p, st')
           ∧ for_item_in env depth (Some m) (Z.of_nat (length items)) items
                         1 stats 0 st
             = (Ok (match skipped with
                    | [] => stats_p
                    | _ => <["skipped" := Z.of_nat (length skipped)]> stats_p
                    end), st')
           ∧ (skipped ≠ [] →
              (m <= stat stats_p "downloaded" - stat stats "downloaded")%Z))
    ∧ (∀ media_type library rest total_stats total st,
         lib_type library ∈ ["movie"; "show"] →
         ((m <= total)%Z →
          for_library_in env depth media_type (Some m) (library :: rest)
                         total_stats total st
          = for_library_in env depth media_type (Some m) rest total_stats total st)
         ∧ ((total < m)%Z →
            for_library_in env depth media_type (Some m) (library :: rest)
                           total_stats total st
            = match process_library env depth (lib_title library) media_type
                                    (Some (m - total)%Z) st with
              | (Ok stats, st') =>
                  for_library_in env depth media_type (Some m) rest
                    (add_stats total_stats stats)
                    (stat (add_stats total_stats stats) "downloaded") st'
              | (Raise e, st') => (Raise e, st')
              end))
    ∧ (∀ library media_type st,
         List.find (fun l => String.eqb (lib_title l) (lib_title library))
                   (plex_sections env) = Some library →
         (lib_type library = "movie" →
          process_library env depth (lib_title library) media_type (Some m) st
          = for_item_in env depth (Some m) (Z.of_nat (length (lib_all library)))
              (lib_all library) 1
              (<["total" := Z.of_nat (length (lib_all library))]> empty_stats)
              0 st)
         ∧ (lib_type library = "show" → media_type ≠ Some "movie" →
            ∀ shows,
              lib_all library = Show <$> shows →
              process_library env depth (lib_title library) media_type (Some m) st
              = for_item_in env depth (Some m)
                  (Z.of_nat (length (concat shows)))
                  (Video <$> concat shows) 1
                  (<["total" := Z.of_nat (length (concat shows))]> empty_stats)
                  0 st)).
Proof.
  intros env depth m Hm. split; [|split; [|split]].
  - intros n item rest i stats total st Hle.
    by apply for_item_in_limit_reached.
  - intros items stats st.
    destruct (for_item_in_budget env depth m (Z.of_nat (length items)) items Hm
                1%Z stats 0%Z st) as (processed & skipped & stats_p & st' & H).
    { lia. }
    exists processed, skipped, stats_p, st'.
    destruct H as (H1 & H2 & H3 & H4).
    split; [done|split; [done|split; [done|]]].
    intros Hs. specialize (H4 Hs). lia.
  - intros media_type library rest total_stats total st Hty. split.
    + intros Hle. by apply for_library_in_exhausted.
    + intros Hlt. by apply for_library_in_remaining.
  - intros library media_type st Hfind. split.
    + intros Hty. by apply process_library_movies.
    + intros Hty Hmt shows Hall. by apply process_library_shows.
Qed.

Lemma budget_counted_witness :
  let env := Scenario.with_net Scenario.provider_net [Scenario.movies] in
  let st := Scenario.fresh ["en"; "es"] Scenario.disk in
  ∃ processed skipped stats_p st',
    [Video Scenario.movie; Video Scenario.sequel] = processed ++ skipped
    ∧ for_item_in env 5 (Some 1%Z) 2
        [Video Scenario.movie; Video Scenario.sequel] 1 empty_stats 0 st
      = (Ok (match skipped with
             | [] => stats_p
             | _ => <["skipped" := Z.of_nat (length skipped)]> stats_p
             end), st')
    ∧ process_library env 5 "Movies" None (Some 1%Z) st
      = for_item_in env 5 (Some 1%Z) 2
          [Video Scenario.movie; Video Scenario.sequel] 1
          (<["total" := 2%Z]> empty_stats) 0 st.
Proof.
  intros env st.
  assert (1 ≠ 0)%Z as Hm by lia.
  destruct (budget_is_compared_with_the_counted_downloads env 5%nat 1%Z Hm)
    as (_ & Hloop & _ & Hlib).
  destruct (Hloop [Video Scenario.movie; Video Scenario.sequel] empty_stats st)
    as (processed & skipped & stats_p & st' & Hsplit & _ & Hrun & _).
  exists processed, skipped, stats_p, st'.
  split; [exact Hsplit|]. split; [exact Hrun|].
  destruct (Hlib Scenario.movies None st eq_refl) as [Hmovie _].
  exact (Hmovie eq_refl).
Defined.

End LibrariesMore.


(** ** The report *)

Section ReportGroups.
Import OpenSubtitlesAPI PlexSubtitleDownloader Effect Orchestration.

Lemma filter_all {A} (f : A -> bool) (l : list A) :
  Forall (λ x, f x = true) l -> List.filter f l = l.
Proof. induction 1 as [|x l Hx _ IH]; cbn; [done|]. by rewrite Hx, IH. Qed.

Lemma filter_nothing {A} (f : A -> bool) (l : list A) :
  Forall (λ x, f x = false) l -> List.filter f l = [].
Proof. induction 1 as [|x l Hx _ IH]; cbn; [done|]. by rewrite Hx. Qed.

(** X17: the records appended while an item is processed carry the display
    name of the item, a language that was missing for it, and the type
    [episode] or [movie] according to the kind of the item; so
    [generate_report], which lists the records of type [movie] and then
    those of type [episode], lists each of them in exactly one of its two
    groups. *)
Theorem every_record_is_listed_in_one_group :
  ∀ (env : Env) (depth : nat) (item : Item) (st : State)
    (res : Result Z) (st' : State),
    download_subtitles_for_item env depth item st = (res, st') →
    ∃ records,
      download_report st' = download_report st ++ records
      ∧ Forall (More.record_of item st) records
      ∧ Report.movies records = (if is_episode item then [] else records)
      ∧ Report.episodes records = (if is_episode item then records else []).
Proof.
  intros env depth item st res st' Hrun.
  destruct (download_subtitles_for_item_report env _ _ _ _ _ Hrun)
    as (records & Hr & Hall).
  exists records. split; [done|]. split; [done|].
  unfold Report.movies, Report.episodes.
  destruct (is_episode item) eqn:Hep.
  - split; [apply filter_nothing|apply filter_all].
    all: eapply Forall_impl; [exact Hall|]; cbn; intros r (_ & Ht & _).
    all: rewrite Ht; unfold media_type_of; by rewrite Hep.
  - split; [apply filter_all|apply filter_nothing].
    all: eapply Forall_impl; [exact Hall|]; cbn; intros r (_ & Ht & _).
    all: rewrite Ht; unfold media_type_of; by rewrite Hep.
Qed.

Lemma every_record_witness :
  let env := Scenario.with_net Scenario.provider_net [] in
  let st := Scenario.fresh ["en"; "es"] Scenario.disk in
  let run := download_subtitles_for_item env 5 Scenario.movie st in
  ∃ records,
    download_report (snd run) = records
    ∧ Report.movies records = records
    ∧ Report.episodes records = [].
Proof.
  intros env st run.
  destruct (every_record_is_listed_in_one_group env 5 Scenario.movie st
              (fst run) (snd run) (run_pair run))
    as (records & Hr & _ & Hm & He).
  exists records. split; [exact Hr|]. split; [exact Hm|exact He].
Defined.

Lemma lang_counts_fold (report : list DownloadedSubtitle) (lang : string) :
  ∀ counts : gmap string Z,
    default 0%Z
      (foldl (fun counts sub =>
                <[ds_language sub := (default 0%Z (counts !! ds_language sub) + 1)%Z]>
                  counts)
             counts report !! lang)
    = (default 0%Z (counts !! lang)
       + Z.of_nat (length (List.filter (fun s => bool_decide (ds_language s = lang))
                                       report)))%Z.
Proof.
  induction report as [|sub report IH]; intros counts; cbn [foldl List.filter].
  - cbn. lia.
  - rewrite IH. case_bool_decide as Hl; cbn [length].
    + rewrite Hl, lookup_insert_eq. cbn. lia.
    + by rewrite lookup_insert_ne.
Qed.

(** X18: the language breakdown of [generate_report] counts every record
    once, under its language: the number stored for a language is the number
    of records with that language, and a language has an entry exactly when
    some record has it. *)
Theorem lang_counts_counts_each_record_once :
  ∀ (report : list DownloadedSubtitle) (lang : string),
    default 0%Z (Report.lang_counts report !! lang)
    = Z.of_nat (length (List.filter (fun s => bool_decide (ds_language s = lang))
                                    report))
    ∧ (Report.lang_counts report !! lang = None
       ↔ Forall (fun s => ds_language s ≠ lang) report).
Proof.
  intros report lang. split.
  - unfold Report.lang_counts. by rewrite lang_counts_fold, lookup_empty.
  - unfold Report.lang_counts.
    assert (∀ counts : gmap string Z,
              foldl (fun counts sub =>
                       <[ds_language sub
                         := (default 0%Z (counts !! ds_language sub) + 1)%Z]> counts)
                    counts report !! lang = None
              ↔ counts !! lang = None ∧ Forall (fun s => ds_language s ≠ lang) report)
      as Hgen.
    { induction report as [|sub report IH]; intros counts; cbn [foldl].
      - split; [by intros H; split|by intros [H _]].
      - rewrite IH, Forall_cons. destruct (decide (ds_language sub = lang)) as [Hl|Hl].
        + rewrite Hl, lookup_insert_eq. split; [by intros [? _]|by intros [_ [? _]]].
        + rewrite lookup_insert_ne by done. tauto. }
    rewrite Hgen, lookup_empty. tauto.
Qed.

End ReportGroups.
